(** * Agentic control panel (src/app.py): a shallow embedding

    The script is a Streamlit page that talks to an agent-hosting service.
    Its handlers are embedded as functions in a small state-and-exception
    monad over a [world]: the service's agents and files, the outcome of
    the HTTP calls still to come, the log of calls issued so far, the
    Streamlit session state and the messages put on the page.

    A Python [str] is a Rocq string, each character standing for the code
    point of its number: the strings of the model are the Python strings of
    code points below 256, and [lower], [isspace] and [strip] are
    [str.lower], [str.isspace] and [str.strip] on all of them. *)

From Stdlib Require Import ZArith String Ascii List Lia.
From stdpp Require Import base option list strings gmap pretty.

Local Open Scope string_scope.
Local Open Scope list_scope.

(** ** Python strings *)

(** The code points below 256 that [str.lower] changes: [A] to [Z], and
    the capital letters from U+00C0 to U+00DE, among which U+00D7, the
    multiplication sign, is no letter. *)
Definition is_upper (c : ascii) : bool :=
  let n := nat_of_ascii c in
  ((65 <=? n)%nat && (n <=? 90)%nat)
  || ((192 <=? n)%nat && (n <=? 222)%nat && negb (n =? 215)%nat).

(** Each of them has its small letter 32 code points further. *)
Definition lower_char (c : ascii) : ascii :=
  if is_upper c then ascii_of_nat (nat_of_ascii c + 32) else c.

(** [s.lower()] *)
Fixpoint lower (s : string) : string :=
  match s with
  | EmptyString => EmptyString
  | String c s' => String (lower_char c) (lower s')
  end.

(** [c.isspace()]: tab, LF, VT, FF, CR, the four separators FS GS RS US,
    the blank, the next-line control U+0085 and the no-break space U+00A0. *)
Definition isspace (c : ascii) : bool :=
  let n := nat_of_ascii c in
  ((9 <=? n)%nat && (n <=? 13)%nat) || ((28 <=? n)%nat && (n <=? 32)%nat)
  || (n =? 133)%nat || (n =? 160)%nat.

Fixpoint lstrip (p : ascii -> bool) (s : string) : string :=
  match s with
  | EmptyString => EmptyString
  | String c s' => if p c then lstrip p s' else s
  end.

Definition rstrip (p : ascii -> bool) (s : string) : string :=
  string_of_list_ascii (rev (list_ascii_of_string
    (lstrip p (string_of_list_ascii (rev (list_ascii_of_string s)))))).

(** [s.strip(chars)]: both ends, every character of the set. *)
Definition strip_chars (p : ascii -> bool) (s : string) : string :=
  rstrip p (lstrip p s).

(** [s.strip()] *)
Definition strip (s : string) : string := strip_chars isspace s.

Definition is_char (c : ascii) : ascii -> bool := fun x => bool_decide (x = c).

Definition dquote : ascii := "034"%char.
Definition squote : ascii := "039"%char.
Definition slash : ascii := "/"%char.

(** The two-character separator of line 255, a blank line. *)
Definition blank_line : string := String "010"%char (String "010"%char EmptyString).

(** [sep.join(l)] *)
Fixpoint join (sep : string) (l : list string) : string :=
  match l with
  | [] => ""
  | [x] => x
  | x :: rest => x +:+ sep +:+ join sep rest
  end.

(** What an f-string prints for a value that may be [None]. *)
Definition fstr (o : option string) : string := default "None" o.

Definition fstr_int (o : option Z) : string :=
  match o with Some z => pretty z | None => "None" end.

(** [x or ""] and [x or []] *)
Definition or_str (o : option string) : string := default "" o.
Definition or_list {A} (o : option (list A)) : list A := default [] o.

(** A Python value used as a condition: [None] and the empty string are false. *)
Definition truthy (o : option string) : bool :=
  match o with Some s => negb (bool_decide (s = "")) | None => false end.

(** ** Data of the service *)

(** A tool entry of an agent: a JSON object, [{"type": "code_interpreter"}]. *)
Abbreviation tool := (gmap string string).

(** What a JSON object has under a key that is meant for an object: no
    such key, a null, or the object. *)
Inductive entry (A : Type) : Type :=
| Absent
| Null
| Holds (a : A).

Arguments Absent {A}.
Arguments Null {A}.
Arguments Holds {A} a.

(** An agent as [GET /assistants/{id}] returns it: [tools], [None] when the
    key is absent or null, and [tool_resources], with its [code_interpreter],
    with the [file_ids] of that, [None] when the key is absent or null. *)
Record agent := {
  agent_tools : option (list tool);
  tool_resources : entry (entry (option (list string)))
}.

(** The [tool_resources] of line 100:
    [{"code_interpreter": {"file_ids": file_ids}}]. *)
Definition ci_resources (file_ids : list string)
  : entry (entry (option (list string))) :=
  Holds (Holds (Some file_ids)).

(** The [file_ids] that an agent has, if it has them. *)
Definition agent_file_ids (a : agent) : option (list string) :=
  match tool_resources a with
  | Holds (Holds file_ids) => file_ids
  | _ => None
  end.

(** File metadata as [GET /files/{id}] returns it; [meta.get("filename", "")]
    reads an absent key as the empty string, so [None] is a null. *)
Record file_meta := {
  meta_filename : option string;
  meta_bytes : option Z
}.

(** A row of [list_agent_ci_files]: the dict with keys [file_id], [filename]
    and [bytes]. *)
Record ci_row := {
  file_id : string;
  filename : option string;
  bytes : option Z
}.

(** [tmc.text.value] of a text content part; both levels may be missing. *)
Record text_details := { value : option string }.
Record text_content := { text : option text_details }.

Record message := {
  role : string;
  msg_run_id : option string;
  text_messages : list text_content
}.

(** ** The world *)

(** A Python exception, by its message. *)
Definition exn := string.

(** One call to the service, as sent. *)
Inductive request :=
| GetAgent (agent_id : string)
| GetFile (fid : string)
| PostAgent (agent_id : string) (tools : list tool) (file_ids : list string)
| FilesUpload (name : string) (size : nat)
| FilesDelete (fid : string)
| ThreadsCreate
| MessagesCreate (thread_id content : string) (attachments : list string)
| RunsCreate (thread_id agent_id : string)
| RunsGet (thread_id run_id : string)
| MessagesList (thread_id run_id : string).

Inductive call_result := Done | Failed (e : exn).

Inductive ui_event :=
| UiError (s : string)
| UiSuccess (s : string)
| UiWarning (s : string)
| UiInfo (s : string)
| UiWrite (s : string)
| UiMarkdown (s : string).

(** The agents and files the service holds. *)
Record remote := {
  agents : gmap string agent;
  files : gmap string file_meta
}.

(** [st.session_state] *)
Record session := {
  thread_id : option string;
  ses_file_id : option string;
  logs : list string
}.

(** - [environ]: [os.environ] once [load_dotenv()] has run;
    - [net]: what happens to the HTTP calls to come, in order: [Some e] is a
      call that raises [e] (network error, non-2xx answer), [None] a call
      that reaches the service; a call past the end of the list reaches it;
    - [trace]: the calls issued so far, with their results;
    - [widgets]: the widget keys used so far in this run of the script;
    - [slept]: the seconds spent in [time.sleep]. *)
Record world := {
  environ : gmap string string;
  srv : remote;
  net : list (option exn);
  trace : list (request * call_result);
  ses : session;
  ui : list ui_event;
  widgets : list string;
  slept : nat
}.

Definition set_srv (r : remote) (w : world) : world :=
  {| environ := environ w; srv := r; net := net w; trace := trace w;
     ses := ses w; ui := ui w; widgets := widgets w; slept := slept w |}.

Definition set_net (n : list (option exn)) (w : world) : world :=
  {| environ := environ w; srv := srv w; net := n; trace := trace w;
     ses := ses w; ui := ui w; widgets := widgets w; slept := slept w |}.

Definition set_trace (t : list (request * call_result)) (w : world) : world :=
  {| environ := environ w; srv := srv w; net := net w; trace := t;
     ses := ses w; ui := ui w; widgets := widgets w; slept := slept w |}.

Definition set_ses (s : session) (w : world) : world :=
  {| environ := environ w; srv := srv w; net := net w; trace := trace w;
     ses := s; ui := ui w; widgets := widgets w; slept := slept w |}.

Definition set_ui (u : list ui_event) (w : world) : world :=
  {| environ := environ w; srv := srv w; net := net w; trace := trace w;
     ses := ses w; ui := u; widgets := widgets w; slept := slept w |}.

Definition set_widgets (k : list string) (w : world) : world :=
  {| environ := environ w; srv := srv w; net := net w; trace := trace w;
     ses := ses w; ui := ui w; widgets := k; slept := slept w |}.

Definition set_slept (n : nat) (w : world) : world :=
  {| environ := environ w; srv := srv w; net := net w; trace := trace w;
     ses := ses w; ui := ui w; widgets := widgets w; slept := n |}.

(** ** The monad of a script run *)

(** How a piece of the script ends: with a value; with a Python [Exception];
    with one of Streamlit's script-control exceptions ([st.stop()],
    [st.rerun()]), which derive from [BaseException] and pass through
    [except Exception]; or never ([Hang]). *)
Inductive outcome (A : Type) : Type :=
| Ret (a : A)
| Raise (e : exn)
| Stop
| Rerun
| Hang.

Arguments Ret {A} a.
Arguments Raise {A} e.
Arguments Stop {A}.
Arguments Rerun {A}.
Arguments Hang {A}.

Definition M (A : Type) : Type := world -> outcome A * world.

Definition ret {A} (a : A) : M A := fun w => (Ret a, w).

Definition bind {A B} (m : M A) (k : A -> M B) : M B := fun w =>
  match m w with
  | (Ret a, w') => k a w'
  | (Raise e, w') => (Raise e, w')
  | (Stop, w') => (Stop, w')
  | (Rerun, w') => (Rerun, w')
  | (Hang, w') => (Hang, w')
  end.

#[global] Instance M_ret : MRet M := @ret.
#[global] Instance M_bind : MBind M := fun A B k m => bind m k.

(** [try: m except Exception as e: h e] *)
Definition try_except {A} (m : M A) (h : exn -> M A) : M A := fun w =>
  match m w with
  | (Raise e, w') => h e w'
  | r => r
  end.

(** [raise e] *)
Definition raise {A} (e : exn) : M A := fun w => (Raise e, w).

Definition st_stop {A} : M A := fun w => (Stop, w).
Definition st_rerun {A} : M A := fun w => (Rerun, w).
Definition hang {A} : M A := fun w => (Hang, w).

Definition emit (e : ui_event) : M unit := fun w => (Ret tt, set_ui (ui w ++ [e]) w).

Definition st_error (s : string) : M unit := emit (UiError s).
Definition st_success (s : string) : M unit := emit (UiSuccess s).
Definition st_warning (s : string) : M unit := emit (UiWarning s).
Definition st_info (s : string) : M unit := emit (UiInfo s).
Definition st_write (s : string) : M unit := emit (UiWrite s).
Definition st_markdown (s : string) : M unit := emit (UiMarkdown s).

(** [time.sleep(n)] *)
Definition sleep (n : nat) : M unit := fun w => (Ret tt, set_slept (slept w + n) w).

Definition get_session : M session := fun w => (Ret (ses w), w).

Definition set_thread_id (t : string) : M unit := fun w =>
  (Ret tt, set_ses {| thread_id := Some t; ses_file_id := ses_file_id (ses w);
                      logs := logs (ses w) |} w).

Definition set_file_id (f : string) : M unit := fun w =>
  (Ret tt, set_ses {| thread_id := thread_id (ses w); ses_file_id := Some f;
                      logs := logs (ses w) |} w).

(** Lines 44-45. *)
Definition log (msg : string) : M unit := fun w =>
  (Ret tt, set_ses {| thread_id := thread_id (ses w); ses_file_id := ses_file_id (ses w);
                      logs := logs (ses w) ++ [msg] |} w).

(** [st.button(label, key=key)]: a key used twice in one run raises; the
    button is true in the run its click started. *)
Definition st_button (clicked : option string) (key : string) : M bool := fun w =>
  if bool_decide (key ∈ widgets w)
  then (Raise ("DuplicateWidgetID: " +:+ key), w)
  else (Ret (bool_decide (clicked = Some key)), set_widgets (widgets w ++ [key]) w).

(** ** Calls to the service *)

Definition not_found : exn := "404 Client Error: Not Found".

(** The world once a call has been issued: it is recorded with its result,
    and its entry of [net] is used up. *)
Definition logged (rq : request) (res : call_result) (w : world) : world :=
  set_trace (trace w ++ [(rq, res)]) (set_net (tail (net w)) w).

(** One HTTP call against the agents and files: the next entry of [net]
    decides whether it reaches the service, and [serve] is what the service
    does with it. *)
Definition call {A} (rq : request) (serve : remote -> exn + (A * remote)) : M A := fun w =>
  match net w with
  | Some e :: _ => (Raise e, logged rq (Failed e) w)
  | _ =>
      match serve (srv w) with
      | inl e => (Raise e, logged rq (Failed e) w)
      | inr (a, r) => (Ret a, logged rq Done (set_srv r w))
      end
  end.

(** A call whose answer the run is told: the thread, run and message calls,
    whose state the service changes on its own while a run executes. *)
Definition told {A} (rq : request) (reply : exn + A) : M A := fun w =>
  match reply with
  | inl e => (Raise e, set_trace (trace w ++ [(rq, Failed e)]) w)
  | inr a => (Ret a, set_trace (trace w ++ [(rq, Done)]) w)
  end.

(** ** The remote client facade (lines 67-105) *)

(** Lines 67-72. *)
Definition get_agent (agent_id : string) : M agent :=
  call (GetAgent agent_id) (fun r =>
    match agents r !! agent_id with
    | Some a => inr (a, r)
    | None => inl not_found
    end).

(** Lines 74-80. *)
Definition files_get_rest (fid : string) : M file_meta :=
  call (GetFile fid) (fun r =>
    match files r !! fid with
    | Some m => inr (m, r)
    | None => inl not_found
    end).

(** [agents.files.delete(file_id=fid)] *)
Definition files_delete (fid : string) : M unit :=
  call (FilesDelete fid) (fun r =>
    match files r !! fid with
    | Some _ => inr (tt, {| agents := agents r; files := delete fid (files r) |})
    | None => inl not_found
    end).

(** [agents.files.upload(file_path=..., purpose="assistants", filename=name)];
    [new_id] is the id the service gives the stored file. *)
Definition files_upload (new_id name : string) (data : list ascii) : M string :=
  call (FilesUpload name (length data)) (fun r =>
    inr (new_id,
         {| agents := agents r;
            files := <[new_id := {| meta_filename := Some name;
                                    meta_bytes := Some (Z.of_nat (length data)) |}]> (files r) |})).

Definition unavailable : string := "(unavailable)".

Definition resolved_row (fid : string) (meta : file_meta) : ci_row :=
  {| file_id := fid; filename := meta_filename meta; bytes := meta_bytes meta |}.

Definition unavailable_row (fid : string) : ci_row :=
  {| file_id := fid; filename := Some unavailable; bytes := None |}.

(** The loop of lines 86-91, [rows] being the list appended to. *)
Fixpoint list_rows (file_ids : list string) (rows : list ci_row) : M (list ci_row) :=
  match file_ids with
  | [] => mret rows
  | fid :: rest =>
      rows' ← try_except
                (meta ← files_get_rest fid; mret (rows ++ [resolved_row fid meta]))
                (fun _ => mret (rows ++ [unavailable_row fid]));
      list_rows rest rows'
  end.

(** What Python raises for [None.get]. *)
Definition attribute_error : exn := "'NoneType' object has no attribute 'get'".

(** Line 84: each [.get(key, {})] gives the empty object for a key that is
    absent and [None] for a null, on which the next [.get] raises. *)
Definition code_interpreter_file_ids (agent : agent) : M (list string) :=
  match tool_resources agent with
  | Absent => mret []
  | Null => raise attribute_error
  | Holds resources =>
      match resources with
      | Absent => mret []
      | Null => raise attribute_error
      | Holds file_ids => mret (or_list file_ids)
      end
  end.

(** Lines 82-92. *)
Definition list_agent_ci_files (agent_id : string) : M (list ci_row) :=
  agent ← get_agent agent_id;
  file_ids ← code_interpreter_file_ids agent;
  list_rows file_ids [].

Definition code_interpreter : tool := {[ "type" := "code_interpreter" ]}.

(** [any((t.get("type") == "code_interpreter") for t in tools)] *)
Definition has_code_interpreter (tools : list tool) : bool :=
  existsb (fun t : tool => bool_decide (t !! "type" = Some "code_interpreter")) tools.

(** Lines 97-99: the tools of the request body. *)
Definition body_tools (a : agent) : list tool :=
  let tools := or_list (agent_tools a) in
  if has_code_interpreter tools then tools else tools ++ [code_interpreter].

(** Lines 94-105. The service answers the update with the agent as stored:
    its tools and code-interpreter file ids replaced by those of the body. *)
Definition set_agent_ci_file_ids (agent_id : string) (file_ids : list string) : M agent :=
  agent ← get_agent agent_id;
  let tools := body_tools agent in
  call (PostAgent agent_id tools file_ids) (fun r =>
    match agents r !! agent_id with
    | Some _ =>
        let a' := {| agent_tools := Some tools; tool_resources := ci_resources file_ids |} in
        inr (a', {| agents := <[agent_id := a']> (agents r); files := files r |})
    | None => inl not_found
    end).

(** The code-interpreter file ids the service holds for an agent. *)
Definition ci_file_ids (r : remote) (agent_id : string) : list string :=
  match agents r !! agent_id with
  | Some a => or_list (agent_file_ids a)
  | None => []
  end.

(** ** Settings (lines 15-23) *)

(** [os.getenv(key, default)] *)
Definition getenv (key dflt : string) : M string := fun w =>
  (Ret (default dflt (environ w !! key)), w).

(** Lines 15-20. *)
Definition read_setting (key : string) (required : bool) (dflt : string) : M string :=
  raw ← getenv key dflt;
  let val := strip_chars (is_char squote) (strip_chars (is_char dquote) (strip raw)) in
  if required && bool_decide (val = "")
  then st_error ("Missing setting: " +:+ key +:+ ". Add it to .env or environment variables.");;
       st_stop
  else mret val.

(** Lines 22-23: [PROJECT_ENDPOINT] and [ORCHESTRATOR_AGENT_ID]. *)
Definition load_settings : M (string * string) :=
  endpoint ← read_setting "PROJECT_ENDPOINT" true "";
  let PROJECT_ENDPOINT := rstrip (is_char slash) endpoint in
  ORCHESTRATOR_AGENT_ID ← read_setting "ORCHESTRATOR_AGENT_ID" true "";
  mret (PROJECT_ENDPOINT, ORCHESTRATOR_AGENT_ID).

(** The script from its first line: the settings, then all that follows
    line 23 ([rest]), which holds every call to the service. *)
Definition script {A} (rest : string * string -> M A) : M A :=
  settings ← load_settings;
  rest settings.

(** ** Files in Code Interpreter (lines 134-159)

    [st.cache_data.clear()] empties the cached list of agents, which is not
    part of the world. *)

(** A cleanup whose failure is passed over: [try: m except Exception: pass]. *)
Definition best_effort (m : M unit) : M unit := try_except m (fun _ => mret tt).

(** Line 146. *)
Definition remaining (ci_files : list ci_row) (f : ci_row) : list string :=
  file_id <$> filter (fun x => file_id x ≠ file_id f) ci_files.

(** Lines 145-155: the Delete button of row [f] was clicked. *)
Definition delete_clicked (chosen_agent_id : string) (ci_files : list ci_row) (f : ci_row)
  : M unit :=
  try_except
    (set_agent_ci_file_ids chosen_agent_id (remaining ci_files f);;
     best_effort (files_delete (file_id f));;
     st_success ("Deleted " +:+ fstr (filename f) +:+ " from CI and project.");;
     st_rerun)
    (fun e => st_error ("Delete failed: " +:+ e)).

(** Line 142. *)
Definition row_label (f : ci_row) : string :=
  "- " +:+ fstr (filename f) +:+ " (id=" +:+ file_id f +:+ ", bytes=" +:+ fstr_int (bytes f) +:+ ")".

(** The key of the Delete button of a row (line 144). *)
Definition delete_key (f : ci_row) : string := "del_" +:+ file_id f.

(** The loop of lines 139-155 over the rows still to show. *)
Fixpoint show_rows (clicked : option string) (chosen_agent_id : string)
    (ci_files todo : list ci_row) : M unit :=
  match todo with
  | [] => mret tt
  | f :: rest =>
      st_write (row_label f);;
      pressed ← st_button clicked (delete_key f);
      (if pressed : bool then delete_clicked chosen_agent_id ci_files f else mret tt);;
      show_rows clicked chosen_agent_id ci_files rest
  end.

(** Lines 136-159; [clicked] is the key of the button whose click started
    this run of the script, if one did. *)
Definition show_ci_files (clicked : option string) (chosen_agent_id : string) : M unit :=
  try_except
    (ci_files ← list_agent_ci_files chosen_agent_id;
     match ci_files with
     | [] => st_info "No files attached to Code Interpreter for this agent."
     | _ => show_rows clicked chosen_agent_id ci_files ci_files
     end)
    (fun e => st_warning ("Could not list CI files: " +:+ e)).

(** ** Upload and persist (lines 161-208) *)

Definition existing_ids (ci_files : list ci_row) : list string := file_id <$> ci_files.

(** The key a row has in [existing_by_name]. *)
Definition name_key (e : ci_row) : string := lower (or_str (filename e)).

(** Line 188: the dict comprehension; a later row replaces an earlier one
    under the same key. *)
Definition existing_by_name (ci_files : list ci_row) : gmap string ci_row :=
  foldl (fun d e => <[name_key e := e]> d) ∅ ci_files.

(** Line 193. *)
Definition new_ids (new_id old_id : string) (ids : list string) : list string :=
  (fun fid => if decide (fid = old_id) then new_id else fid) <$> ids.

(** Lines 185-208. [new_id] is [st.session_state["file_id"]], which line 175
    has set to the id of the upload and nothing writes in between. *)
Definition persist_in_ci (chosen_agent_id uploaded_name new_id : string) : M unit :=
  try_except
    (ci_files ← list_agent_ci_files chosen_agent_id;
     let new_name_lc := lower uploaded_name in
     match existing_by_name ci_files !! new_name_lc with
     | Some e =>
         let old_id := file_id e in
         set_agent_ci_file_ids chosen_agent_id (new_ids new_id old_id (existing_ids ci_files));;
         best_effort (files_delete old_id);;
         st_success ("File '" +:+ uploaded_name +:+ "' has been overwritten in Code Interpreter.");;
         log ("Overwritten: '" +:+ uploaded_name +:+ "' old_id=" +:+ old_id
              +:+ " -> new_id=" +:+ new_id +:+ ".")
     | None =>
         set_agent_ci_file_ids chosen_agent_id (existing_ids ci_files ++ [new_id]);;
         st_success ("File '" +:+ uploaded_name +:+ "' attached to Code Interpreter.");;
         log ("Persisted new file to CI: '" +:+ uploaded_name +:+ "' id=" +:+ new_id +:+ ".")
     end;;
     st_rerun)
    (fun e => st_error ("Persist/overwrite failed: " +:+ e)).

(** Lines 164-208, the button clicked with a file chosen. The temporary
    copy of lines 168-171 and 178-182 is local to the machine and not
    modelled; [new_id] is the id the service gives the upload. *)
Definition upload_and_persist (chosen_agent_id uploaded_name : string) (data : list ascii)
    (new_id : string) : M unit :=
  new_file ← files_upload new_id uploaded_name data;
  set_file_id new_file;;
  log ("Uploaded new file_id=" +:+ new_file +:+ " for '" +:+ uploaded_name +:+ "'.");;
  persist_in_ci chosen_agent_id uploaded_name new_file.

(** ** Run (lines 213-257) *)

(** [run.status]. The SDK reads the status of a run into its [RunStatus],
    an [Enum] whose members are [str] values: [Member name value] is the
    member [RunStatus.name], which is the string [value]. A status that
    [RunStatus] has no member for stays the [str] it came as,
    [Plain value]. *)
Inductive run_status :=
| Member (name value : string)
| Plain (value : string).

(** The [str] that a status is: what [==] and [in] compare. *)
Definition status_str (status : run_status) : string :=
  match status with Member _ value => value | Plain value => value end.

(** What an f-string prints of a status. Python, from 3.11 on, prints a
    member of an [Enum] that is also a [str] as the class and the name of
    the member, not as its value. *)
Definition fstr_status (status : run_status) : string :=
  match status with
  | Member name _ => "RunStatus." +:+ name
  | Plain value => value
  end.

Definition polling : list string := ["queued"; "in_progress"; "requires_action"].

(** Lines 237-240. [replies] are the answers of the successive
    [agents.runs.get] calls; when the service gives none the loop waits for
    ever. *)
Fixpoint poll (thread run_id : string) (replies : list (exn + run_status))
    (status : run_status) : M run_status :=
  if bool_decide (status_str status ∈ polling) then
    match replies with
    | [] => hang
    | reply :: replies' =>
        sleep 2;;
        status' ← told (RunsGet thread run_id) reply;
        poll thread run_id replies' status'
    end
  else mret status.

(** Lines 235-241: [created] answers [agents.runs.create] with the id and
    the first status of the run; a run fetched again keeps its id. The
    result is the run id. *)
Definition run_and_wait (thread orchestrator : string)
    (created : exn + (string * run_status)) (replies : list (exn + run_status)) : M string :=
  run ← told (RunsCreate thread orchestrator) created;
  status ← poll thread run.1 replies run.2;
  st_info ("Run status: " +:+ fstr_status status);;
  mret run.1.

(** Lines 250-252 for one message: the text parts that have a text with a
    value that is not empty are appended to [chunks]. *)
Definition append_text (chunks : list string) (tmc : text_content) : list string :=
  match text tmc with
  | Some t => if truthy (value t) then chunks ++ [or_str (value t)] else chunks
  | None => chunks
  end.

(** Lines 246-252. *)
Definition collect_chunks (pager : list message) : list string :=
  foldl (fun chunks m =>
           if bool_decide (role m ≠ "assistant") then chunks
           else match text_messages m with
                | [] => chunks
                | parts => foldl append_text chunks parts
                end)
        [] pager.

(** [agents.messages.list(thread_id=..., run_id=run_id, order="asc", limit=100)]:
    of the messages of the thread, oldest first, the service returns those of
    the run; the pager fetches every page. *)
Definition messages_list (thread run_id : string) (listed : exn + list message)
  : M (list message) :=
  msgs ← told (MessagesList thread run_id) listed;
  mret (filter (fun m => msg_run_id m = Some run_id) msgs).

(** Lines 244-257. *)
Definition show_run_output (thread run_id : string) (listed : exn + list message) : M unit :=
  pager ← messages_list thread run_id listed;
  let chunks := collect_chunks pager in
  match chunks with
  | [] => st_warning "No assistant response generated."
  | _ => st_markdown "**Assistant:**";; st_write (join blank_line chunks)
  end.

(** What the service answers to the calls of one click on Run. *)
Record run_replies := {
  on_thread_create : exn + string;
  on_message_create : exn + unit;
  on_run_create : exn + (string * run_status);
  on_run_get : list (exn + run_status);
  on_messages_list : exn + list message
}.

(** Lines 214-257. *)
Definition run_button (ORCHESTRATOR_AGENT_ID question : string) (rp : run_replies) : M unit :=
  s ← get_session;
  thread ← match thread_id s with
           | None =>
               t ← told ThreadsCreate (on_thread_create rp);
               set_thread_id t;;
               log ("Thread created: " +:+ t +:+ ".");;
               mret t
           | Some t => mret t
           end;
  s ← get_session;
  attachments ← (if truthy (ses_file_id s)
                 then log "File attached to Code Interpreter for this run (message-level).";;
                      mret [or_str (ses_file_id s)]
                 else mret []);
  let user_prompt := if bool_decide (question = "")
                     then "Please analyze the uploaded file." else question in
  told (MessagesCreate thread user_prompt attachments) (on_message_create rp);;
  run_id ← run_and_wait thread ORCHESTRATOR_AGENT_ID (on_run_create rp) (on_run_get rp);
  show_run_output thread run_id (on_messages_list rp).

(** ** Notions the properties are stated with *)

(** The calls issued from world [w] to world [w']. *)
Definition issued (w w' : world) : list (request * call_result) :=
  drop (length (trace w)) (trace w').

(** The world after calls that leave the service as it is. *)
Definition after_calls (calls : list (request * call_result)) (w : world) : world :=
  set_trace (trace w ++ calls) (set_net (drop (length calls) (net w)) w).

(** The service once the update of an agent is stored. *)
Definition stored (agent_id : string) (tools : list tool) (file_ids : list string)
    (r : remote) : remote :=
  {| agents := <[agent_id := {| agent_tools := Some tools;
                                tool_resources := ci_resources file_ids |}]> (agents r);
     files := files r |}.

(** The agent has a null where line 84 looks for an object: under
    [tool_resources], or under the [code_interpreter] of that. *)
Definition null_resources (a : agent) : Prop :=
  tool_resources a = Null ∨ tool_resources a = Holds Null.

(** A call that deletes a file. *)
Definition is_delete (c : request * call_result) : Prop :=
  match c.1 with FilesDelete _ => True | _ => False end.

(** The two messages of success of lines 199 and 203. *)
Definition overwritten_msg (uploaded_name : string) : string :=
  "File '" +:+ uploaded_name +:+ "' has been overwritten in Code Interpreter.".

Definition attached_msg (uploaded_name : string) : string :=
  "File '" +:+ uploaded_name +:+ "' attached to Code Interpreter.".

(** The world once a run has been fetched [n] times, two seconds apart. *)
Definition polled (thread run_id : string) (n : nat) (w : world) : world :=
  set_slept (slept w + 2 * n)
    (set_trace (trace w ++ replicate n (RunsGet thread run_id, Done)) w).

(** The world once a run has been created, fetched [n] times and its
    status [status] shown. *)
Definition reported (thread orchestrator run_id : string) (n : nat) (status : run_status)
    (w : world) : world :=
  set_ui (ui w ++ [UiInfo ("Run status: " +:+ fstr_status status)])
    (polled thread run_id n
       (set_trace (trace w ++ [(RunsCreate thread orchestrator, Done)]) w)).

(** Only the service, [net] and [trace] may differ between the two worlds. *)
Definition same_page (w w' : world) : Prop :=
  environ w' = environ w ∧ ses w' = ses w ∧ ui w' = ui w
  ∧ widgets w' = widgets w ∧ slept w' = slept w.

(** How a row of the listing comes from the call that fetched it. *)
Inductive fetched (r : remote) : ci_row -> request * call_result -> Prop :=
| fetched_resolved fid meta :
    files r !! fid = Some meta ->
    fetched r (resolved_row fid meta) (GetFile fid, Done)
| fetched_unavailable fid e :
    fetched r (unavailable_row fid) (GetFile fid, Failed e).

(** A row of the listing shows [name], without regard to case: its file
    name, the empty string when it has none, and [name] are the same once
    in small letters. *)
Definition shows_name (name : string) (e : ci_row) : Prop :=
  lower (or_str (filename e)) = lower name.

#[global] Instance shows_name_dec name e : Decision (shows_name name e).
Proof. unfold shows_name. apply _. Defined.

(** The ids of [ids] that stand for the file name [uploaded_name] once
    [new_id] has been uploaded under it: the new id, and every id that the
    listing [ci_files] shows under that name. *)
Definition ids_under_name (ci_files : list ci_row) (uploaded_name new_id : string)
    (ids : list string) : list string :=
  remove_dups
    (filter (fun fid => fid = new_id
                        ∨ Exists (fun e => file_id e = fid ∧ shows_name uploaded_name e) ci_files)
            ids).

(** The service holds the file [fid] under [name], compared without regard
    to case. *)
Definition stored_under (r : remote) (name fid : string) : Prop :=
  match files r !! fid with
  | Some m => lower (or_str (meta_filename m)) = lower name
  | None => False
  end.

#[global] Instance stored_under_dec r name fid : Decision (stored_under r name fid).
Proof. unfold stored_under. destruct (files r !! fid); apply _. Defined.

(** The ids of the agent whose file the service holds under [name]. *)
Definition ids_named (r : remote) (agent_id name : string) : list string :=
  remove_dups (filter (stored_under r name) (ci_file_ids r agent_id)).

(** The world once lines 174-176 have stored the upload. *)
Definition uploaded (new_id uploaded_name : string) (data : list ascii) (w : world) : world :=
  set_ses {| thread_id := thread_id (ses w); ses_file_id := Some new_id;
             logs := logs (ses w)
                     ++ ["Uploaded new file_id=" +:+ new_id +:+ " for '"
                         +:+ uploaded_name +:+ "'."] |}
    (logged (FilesUpload uploaded_name (length data)) Done
       (set_srv {| agents := agents (srv w);
                   files := <[new_id := {| meta_filename := Some uploaded_name;
                                           meta_bytes := Some (Z.of_nat (length data)) |}]>
                              (files (srv w)) |} w)).

(** The world once rows have been written to the page, each with its
    button. *)
Definition rendered (rows : list ci_row) (w : world) : world :=
  set_widgets (widgets w ++ (delete_key <$> rows))
    (set_ui (ui w ++ (UiWrite ∘ row_label <$> rows)) w).

(** A tool entry whose type is [code_interpreter]. *)
Definition is_code_interpreter (t : tool) : Prop := t !! "type" = Some "code_interpreter".

(** A request that updates an agent carries the code-interpreter tool: one
    of the tools it sends is of that type. *)
Definition keeps_code_interpreter (c : request * call_result) : Prop :=
  match c.1 with
  | PostAgent _ tools _ => Exists is_code_interpreter tools
  | _ => True
  end.

(** The agent is stored with the code-interpreter tool. *)
Definition code_interpreter_enabled (r : remote) (agent_id : string) : Prop :=
  ∃ a, agents r !! agent_id = Some a ∧ Exists is_code_interpreter (or_list (agent_tools a)).

(** [tmc.text.value], when the part has both. *)
Definition text_value (tmc : text_content) : option string :=
  t ← text tmc; value t.

(** Every text value of a message, the empty ones too. *)
Definition all_text_segments (m : message) : list string :=
  omap text_value (text_messages m).

(** The text values of a message that are not empty. *)
Definition text_segments (m : message) : list string :=
  filter (fun v => v ≠ "") (all_text_segments m).

(** The assistant's messages of one run, in the order of the thread. *)
Definition assistant_messages_of (run_id : string) (msgs : list message) : list message :=
  filter (fun m => role m = "assistant" ∧ msg_run_id m = Some run_id) msgs.

(** The text the page shows for a run, by the description of section 4.4:
    the segments of the assistant's messages of the run, in order. *)
Definition run_text (run_id : string) (msgs : list message) : list string :=
  mjoin (text_segments <$> assistant_messages_of run_id msgs).

(** The same with every text value, the empty ones too. *)
Definition run_text_all (run_id : string) (msgs : list message) : list string :=
  mjoin (all_text_segments <$> assistant_messages_of run_id msgs).


(** The two settings the script requires. *)
Definition required_settings : list string := ["PROJECT_ENDPOINT"; "ORCHESTRATOR_AGENT_ID"].

(** What a setting resolves to: its value in the environment, the empty
    string when it has none, trimmed as line 16 trims. *)
Definition setting_value (key : string) (w : world) : string :=
  strip_chars (is_char squote)
    (strip_chars (is_char dquote) (strip (default "" (environ w !! key)))).

Definition missing_setting_msg (key : string) : string :=
  "Missing setting: " +:+ key +:+ ". Add it to .env or environment variables.".

(** ** Sample worlds *)

Definition sample_file (name : string) : file_meta :=
  {| meta_filename := Some name; meta_bytes := Some 10%Z |}.

Definition sample_session : session :=
  {| thread_id := None; ses_file_id := Some "id3"; logs := [] |}.

(** Agent [A] holds [id1] and [id2]; the file [id3] has just been uploaded
    as [Data.csv]. *)
Definition sample_world : world :=
  {| environ := ∅;
     srv := {| agents := {[ "A" := {| agent_tools := Some [];
                                      tool_resources := ci_resources ["id1"; "id2"] |} ]};
               files := {[ "id1" := sample_file "data.csv";
                           "id2" := sample_file "notes.pdf";
                           "id3" := sample_file "Data.csv" ]} |};
     net := []; trace := []; ses := sample_session; ui := []; widgets := [];
     slept := 0 |}.


(** What [list_agent_ci_files] returns for agent [A] in these worlds. *)
Definition sample_rows : list ci_row :=
  [resolved_row "id1" (sample_file "data.csv"); resolved_row "id2" (sample_file "notes.pdf")].

(** The first of these rows, and the world in which its Delete button is
    handled: the one the listing leaves. *)
Definition id1_row : ci_row := resolved_row "id1" (sample_file "data.csv").

Definition sample_listed : world := (list_agent_ci_files "A" sample_world).2.

Definition id1_deleted : world := (delete_clicked "A" sample_rows id1_row sample_listed).2.

(** Agent [A] with the id [id1] twice in its list. *)
Definition doubled_world : world :=
  set_srv {| agents := {[ "A" := {| agent_tools := Some [];
                                    tool_resources := ci_resources ["id1"; "id1"] |} ]};
             files := files (srv sample_world) |}
          sample_world.

(** A thread with the question of the user and an answer of run [r1] in
    three text parts, the second of them empty, after an answer of an
    earlier run. *)
Definition text_part (s : string) : text_content :=
  {| text := Some {| value := Some s |} |}.

Definition sample_thread : list message :=
  [ {| role := "user"; msg_run_id := None; text_messages := [text_part "old question"] |};
    {| role := "assistant"; msg_run_id := Some "r0"; text_messages := [text_part "old answer"] |};
    {| role := "user"; msg_run_id := None; text_messages := [text_part "question"] |};
    {| role := "assistant"; msg_run_id := Some "r1";
       text_messages := [text_part "a"; text_part ""; text_part "b"] |} ].

(** The endpoint is set; the agent id is set to a pair of double quotes
    between blanks. *)
Definition quoted_environ : gmap string string :=
  {[ "PROJECT_ENDPOINT" := "https://host/api/projects/p/";
     "ORCHESTRATOR_AGENT_ID" := String " " (String dquote (String dquote " ")) ]}.

Definition quoted_world : world :=
  {| environ := quoted_environ; srv := srv sample_world; net := []; trace := [];
     ses := sample_session; ui := []; widgets := []; slept := 0 |}.

(** The endpoint is set; the agent id is set to a no-break space, U+00A0. *)
Definition no_break_world : world :=
  {| environ := {[ "PROJECT_ENDPOINT" := "https://host/api/projects/p";
                   "ORCHESTRATOR_AGENT_ID" := String "160"%char "" ]};
     srv := srv sample_world; net := []; trace := [];
     ses := sample_session; ui := []; widgets := []; slept := 0 |}.

(** The name [É.csv], with the capital letter U+00C9, and the name [é.csv],
    with the small letter U+00E9. *)
Definition capital_e_csv : string := String "201"%char ".csv".
Definition small_e_csv : string := String "233"%char ".csv".

(** Agent [A] holds [id1], the file [É.csv]; [id3] is the upload [é.csv]. *)
Definition accent_world : world :=
  set_srv {| agents := {[ "A" := {| agent_tools := Some [];
                                    tool_resources := ci_resources ["id1"] |} ]};
             files := {[ "id1" := sample_file capital_e_csv;
                         "id3" := sample_file small_e_csv ]} |}
          sample_world.

(** Agent [A] as the service gives it with a null under [tool_resources]. *)
Definition null_world : world :=
  set_srv {| agents := {[ "A" := {| agent_tools := Some []; tool_resources := Null |} ]};
             files := files (srv sample_world) |}
          sample_world.

(** Agent [A] with three ids, the second of them unknown to the service;
    the second call of the run (the fetch of the first file) is refused. *)
Definition flaky_world : world :=
  set_net [None; Some "timeout"]
    (set_srv {| agents := {[ "A" := {| agent_tools := None;
                                      tool_resources := ci_resources ["id1"; "gone"; "id2"] |} ]};
                files := files (srv sample_world) |} sample_world).

(** Agent [A] with three ids: [gone], unknown to the service, twice, and
    then [id2]. *)
Definition twice_gone_world : world :=
  set_srv {| agents := {[ "A" := {| agent_tools := None;
                                    tool_resources := ci_resources ["gone"; "gone"; "id2"] |} ]};
             files := files (srv sample_world) |}
          sample_world.

(** The world of the samples when the second call to come, the fetch of
    the metadata of [id1], is refused. *)
Definition unread_world : world := set_net [None; Some "timeout"] sample_world.

Definition flaky_rows : list ci_row :=
  [unavailable_row "id1"; unavailable_row "gone";
   resolved_row "id2" (sample_file "notes.pdf")].

(** Three members of [RunStatus]. *)
Definition QUEUED : run_status := Member "QUEUED" "queued".
Definition IN_PROGRESS : run_status := Member "IN_PROGRESS" "in_progress".
Definition COMPLETED : run_status := Member "COMPLETED" "completed".

(** The answers to one click on Run: the run [r1] is created queued, is in
    progress at the first fetch and completed at the second. *)
Definition sample_replies : run_replies :=
  {| on_thread_create := inr "t1";
     on_message_create := inr tt;
     on_run_create := inr ("r1", QUEUED);
     on_run_get := [inr IN_PROGRESS; inr COMPLETED];
     on_messages_list := inr sample_thread |}.

(** The sixth call of the run is refused. *)
Definition sixth_fails : list (option exn) :=
  [None; None; None; None; None; Some "503 Server Error"].

(** ** The list of agents (lines 51-65 and 113-125) *)

(** An entry of the answer to [GET /assistants]: [a.get("name")] and
    [a.get("id")], [None] for a key that is absent or null. *)
Record assistant := {
  assistant_name : option string;
  assistant_id : option string
}.

(** A pair of [items]: the label shown for an agent, and its id. The label
    is [None] when the entry has neither a name nor an id. *)
Abbreviation item := (option string * option string)%type.

(** Line 61: [(a.get("name") or "").strip() or a.get("id")]. *)
Definition agent_label (a : assistant) : option string :=
  let name := strip (or_str (assistant_name a)) in
  if bool_decide (name = "") then assistant_id a else Some name.

(** Lines 59-62. *)
Definition agent_items (data : list assistant) : list item :=
  foldl (fun items a => items ++ [(agent_label a, assistant_id a)]) [] data.

(** Lines 63-64. *)
Definition with_orchestrator (ORCHESTRATOR_AGENT_ID : string) (items : list item) : list item :=
  if negb (bool_decide (ORCHESTRATOR_AGENT_ID = ""))
     && bool_decide (Some ORCHESTRATOR_AGENT_ID ∉ items.*2)
  then (Some "Orchestrator", Some ORCHESTRATOR_AGENT_ID) :: items
  else items.

(** Lines 51-65. [listed] is what [GET /assistants] gave, when the call was
    made or when the value that [st.cache_data] holds was computed: the
    exception of the call, or the [data] of its answer (the empty list when
    the answer has none). The call is about no single agent and is not one
    of [request]. *)
Definition fetch_agents_list_rest (ORCHESTRATOR_AGENT_ID : string)
    (listed : exn + list assistant) : M (list item) := fun w =>
  match listed with
  | inl e => (Raise e, w)
  | inr data => (Ret (with_orchestrator ORCHESTRATOR_AGENT_ID (agent_items data)), w)
  end.

(** [st.selectbox(label, options, index=0)]: the option the user has
    selected, the first one when the selection is past the options, which
    are new at every run; [None] when there is no option. *)
Definition st_selectbox (options : list (option string)) (selected : nat) : option string :=
  match options !! selected with
  | Some o => o
  | None => match options with o :: _ => o | [] => None end
  end.

(** [dict(pairs)]: a later pair replaces an earlier one of the same key. *)
Definition dict (pairs : list item) : gmap (option string) (option string) :=
  foldl (fun d p => <[p.1 := p.2]> d) ∅ pairs.

(** [d[key]] *)
Definition getitem (d : gmap (option string) (option string)) (key : option string)
  : M (option string) := fun w =>
  match d !! key with
  | Some v => (Ret v, w)
  | None => (Raise ("KeyError: " +:+ fstr key), w)
  end.

(** Lines 113-125: the list of agents and the agent chosen in it. The list
    is kept in [st.session_state["agent_list"]], which every run writes
    before it reads; [selected] is the place of the option selected in
    [st.selectbox]. *)
Definition choose_agent (ORCHESTRATOR_AGENT_ID : string) (listed : exn + list assistant)
    (selected : nat) : M (option string) :=
  agent_list ← try_except (fetch_agents_list_rest ORCHESTRATOR_AGENT_ID listed)
                  (fun e => st_error ("Failed to list agents: " +:+ e);; st_stop);
  (match agent_list with
   | [] => st_error "No agents found in this project.";; st_stop
   | _ => mret tt
   end);;
  let display_names := agent_list.*1 in
  let chosen := st_selectbox display_names selected in
  getitem (dict agent_list) chosen.

(** ** Run, from the message on (lines 231-257)

    What [run_button] does once it has the thread and the files to attach. *)
Definition from_the_message (thread orchestrator content : string) (files : list string)
    (rp : run_replies) : M unit :=
  told (MessagesCreate thread content files) (on_message_create rp);;
  run_id ← run_and_wait thread orchestrator (on_run_create rp) (on_run_get rp);
  show_run_output thread run_id (on_messages_list rp).

(** ** New thread (lines 128-132) *)

Definition reset_logs : M unit := fun w =>
  (Ret tt, set_ses {| thread_id := thread_id (ses w); ses_file_id := ses_file_id (ses w);
                      logs := [] |} w).

(** Lines 129-132, the button clicked; [created] answers
    [agents.threads.create()] with the id of the thread. *)
Definition new_thread (created : exn + string) : M unit :=
  thread ← told ThreadsCreate created;
  set_thread_id thread;;
  reset_logs;;
  st_success ("Started a new thread: " +:+ thread).

(** ** Logs (lines 259-263) *)

Definition show_logs : M unit :=
  s ← get_session;
  match logs s with
  | [] => mret tt
  | ls => foldr (fun l rest => st_write ("- " +:+ l);; rest) (mret tt) ls
  end.

(** ** The page (lines 13-263) *)

(** The buttons of the page. *)
Inductive button :=
| RefreshAgents
| NewThread
| DeleteFile (key : string)
| UploadPersist
| RunOrchestrator.

#[global] Instance button_eq_dec : EqDecision button.
Proof. solve_decision. Defined.

(** One run of the script: the button whose click started it, if one did,
    what the widgets hold, and what the service answers. *)
Record visit := {
  pressed : option button;
  listed_agents : exn + list assistant;
  selected_option : nat;
  created_thread : exn + string;
  uploaded_file : option (string * list ascii);
  upload_id : string;
  asked : string;
  run_answers : run_replies
}.

(** The key of the Delete button that was clicked. *)
Definition clicked_key (b : option button) : option string :=
  match b with Some (DeleteFile key) => Some key | _ => None end.

(** The script, top to bottom. The credential and the client of lines
    26-32, the titles, the columns, the spinners and the expander put
    nothing in the world; [Refresh agent list] clears a cache that is not
    part of it. An agent id goes into the address of a request as an
    f-string prints it. *)
Definition main (v : visit) : M unit :=
  script (fun settings =>
    let ORCHESTRATOR_AGENT_ID := settings.2 in
    chosen_agent_id ← choose_agent ORCHESTRATOR_AGENT_ID (listed_agents v) (selected_option v);
    (if bool_decide (pressed v = Some NewThread)
     then new_thread (created_thread v) else mret tt);;
    show_ci_files (clicked_key (pressed v)) (fstr chosen_agent_id);;
    match uploaded_file v with
    | Some (name, data) =>
        if bool_decide (pressed v = Some UploadPersist)
        then upload_and_persist (fstr chosen_agent_id) name data (upload_id v)
        else mret tt
    | None => mret tt
    end;;
    (if bool_decide (pressed v = Some RunOrchestrator)
     then run_button ORCHESTRATOR_AGENT_ID (asked v) (run_answers v) else mret tt);;
    show_logs).

(** ** Notions of the further properties *)

(** Every character of [s] is one of the set [p]. *)
Definition all_chars (p : ascii -> bool) (s : string) : Prop :=
  Forall (fun c => p c = true) (list_ascii_of_string s).

Definition first_char (s : string) : option ascii :=
  match s with String c _ => Some c | EmptyString => None end.

Definition last_char (s : string) : option ascii := last (list_ascii_of_string s).

(** A character that line 16 trims at the ends of a value. *)
Definition trimmed (c : ascii) : bool :=
  isspace c || is_char dquote c || is_char squote c.

(** A value that is not empty and neither starts nor ends with a character
    that is trimmed. *)
Definition plain (v : string) : Prop :=
  v ≠ "" ∧ ∀ c, first_char v = Some c ∨ last_char v = Some c → trimmed c = false.

(** A call that only reads: the fetch of an agent or of the metadata of a
    file. *)
Definition is_read (c : request * call_result) : Prop :=
  match c.1 with GetAgent _ | GetFile _ => True | _ => False end.

(** How a handler that catches nothing ends after [calls]: a call that
    failed is the last one, and the handler raises its exception; it raises
    no other. *)
Definition ended_by {A} (r : outcome A) (calls : list (request * call_result)) : Prop :=
  (∀ rq e, (rq, Failed e) ∈ calls → r = Raise e ∧ last calls = Some (rq, Failed e))
  ∧ (∀ e, r = Raise e → ∃ rq, last calls = Some (rq, Failed e)).

(** Whatever world [m] starts in and however it ends, the world it leaves
    is related to the first by [R]. *)
Definition keeps (R : world -> world -> Prop) {A} (m : M A) : Prop :=
  ∀ w, R w (m w).2.

(** The part [part] of the world is the same in both worlds. *)
Definition same {X} (part : world -> X) : world -> world -> Prop :=
  fun w w' => part w' = part w.

(** An error put on the page. *)
Definition is_error (ev : ui_event) : Prop :=
  match ev with UiError _ => True | _ => False end.

(** The events put on the page from world [w] to world [w']. *)
Definition shown (w w' : world) : list ui_event := drop (length (ui w)) (ui w').

(** What the Run handler asks when the box of the question is [question]
    (line 231), and the file it attaches when the session is [s] (lines
    225-228). *)
Definition prompt_of (question : string) : string :=
  match question with "" => "Please analyze the uploaded file." | _ => question end.

Definition attached (s : session) : list string :=
  match ses_file_id s with
  | Some "" | None => []
  | Some fid => [fid]
  end.

(** The session once the Run handler has created the thread [t] (lines
    217-219), and once it has noted the file that it attaches, if it
    attaches one (line 229). *)
Definition thread_started (t : string) (s : session) : session :=
  {| thread_id := Some t; ses_file_id := ses_file_id s;
     logs := logs s ++ ["Thread created: " +:+ t +:+ "."] |}.

Definition noted (s : session) : session :=
  match attached s with
  | [] => s
  | _ => {| thread_id := thread_id s; ses_file_id := ses_file_id s;
            logs := logs s
                    ++ ["File attached to Code Interpreter for this run (message-level)."] |}
  end.

(** What the page shows of the messages listed for a run (lines 253-257). *)
Definition output_of (run_id : string) (msgs : list message) : list ui_event :=
  match run_text run_id msgs with
  | [] => [UiWarning "No assistant response generated."]
  | chunks => [UiMarkdown "**Assistant:**"; UiWrite (join blank_line chunks)]
  end.

(** ** Further sample worlds *)

(** The blanks before and after the endpoint in the settings below: a
    no-break space (U+00A0) and a blank, and a next-line control (U+0085). *)
Definition blanks_before : string := String "160"%char " ".
Definition blanks_after : string := String "133"%char "".

(** The settings as a file of settings may hold them: the endpoint between
    double quotes and blanks, with two final slashes; the agent id between
    single quotes. *)
Definition dotenv_environ : gmap string string :=
  {[ "PROJECT_ENDPOINT" := blanks_before +:+ String dquote "https://host/api/projects/p//"
                           +:+ String dquote blanks_after;
     "ORCHESTRATOR_AGENT_ID" := "'asst_orch'" ]}.

Definition dotenv_world : world :=
  {| environ := dotenv_environ; srv := srv sample_world; net := []; trace := [];
     ses := sample_session; ui := []; widgets := []; slept := 0 |}.

(** The agents of a project: two of them show as [Analyst], one has no
    name. *)
Definition sample_agents : list assistant :=
  [ {| assistant_name := Some " Analyst "; assistant_id := Some "asst_1" |};
    {| assistant_name := None; assistant_id := Some "asst_2" |};
    {| assistant_name := Some "Analyst"; assistant_id := Some "asst_3" |} ].

(** Agent [B] holds the file [id1] as agent [A] does. *)
Definition shared_world : world :=
  set_srv {| agents := <[ "B" := {| agent_tools := None;
                                    tool_resources := ci_resources ["id2"; "id1"] |} ]>
                         (agents (srv sample_world));
             files := files (srv sample_world) |}
          sample_world.

(** Agent [A] holds [gone], an id that the service has no file for. *)
Definition dangling_world : world :=
  set_srv {| agents := {[ "A" := {| agent_tools := None;
                                    tool_resources := ci_resources ["gone"; "id2"] |} ]};
             files := files (srv sample_world) |}
          sample_world.

(** * Properties *)

Ltac wsimpl :=
  cbn [environ srv net trace ses ui widgets slept agents files
       set_srv set_net set_trace set_ses set_ui set_widgets set_slept logged
       after_calls polled reported rendered] in *.

(** Unfolds the monad at the head of the goal. *)
Ltac munfold := unfold mbind, mret, M_bind, M_ret, bind, ret, try_except, best_effort in *.

(** ** The world after calls *)

Lemma tail_drop {A} (l : list A) : tail l = drop 1 l.
Proof. by destruct l. Qed.

(** Two worlds built from the same one by calls are equal field by field. *)
Ltac world_eq :=
  unfold after_calls, logged, set_srv, set_net, set_trace, set_ses, set_ui,
    set_widgets, set_slept;
  cbn [environ srv net trace ses ui widgets slept length];
  rewrite ?tail_drop, ?drop_drop, <- ?app_assoc; cbn [Nat.add app];
  rewrite ?drop_0, ?app_nil_r; try reflexivity.

Ltac same_world := first [reflexivity | f_equal; first [reflexivity | world_eq]].

Lemma set_srv_id w : set_srv (srv w) w = w.
Proof. by destruct w. Qed.

Lemma drop_tail {A} (l : list A) n : drop n (tail l) = drop (S n) l.
Proof. destruct l; simpl; [by rewrite drop_nil|done]. Qed.

Lemma after_calls_nil w : after_calls [] w = w.
Proof. destruct w. unfold after_calls. wsimpl. by rewrite app_nil_r, drop_0. Qed.

Lemma after_calls_logged rq res calls w :
  after_calls calls (logged rq res w) = after_calls ((rq, res) :: calls) w.
Proof.
  unfold after_calls. wsimpl. by rewrite <- app_assoc, drop_tail.
Qed.

Lemma issued_after_calls calls w : issued w (after_calls calls w) = calls.
Proof. unfold issued, after_calls. wsimpl. by rewrite drop_app_length. Qed.

Lemma issued_app w w' calls :
  trace w' = trace w ++ calls → issued w w' = calls.
Proof. unfold issued. intros ->. by rewrite drop_app_length. Qed.

(** The calls issued from a later world are among those issued from an
    earlier one. *)
Lemma issued_later w w1 w' calls c :
  trace w1 = trace w ++ calls → c ∈ issued w1 w' → c ∈ issued w w'.
Proof.
  unfold issued. intros ->. rewrite length_app, <- drop_drop. apply subseteq_drop.
Qed.

Section Call.
Context {A : Type} (rq : request) (serve : remote -> exn + (A * remote)).

Lemma call_cases w :
  (∃ e, call rq serve w = (Raise e, logged rq (Failed e) w))
  ∨ (∃ a r, serve (srv w) = inr (a, r)
            ∧ call rq serve w = (Ret a, logged rq Done (set_srv r w))).
Proof.
  unfold call. destruct (net w) as [|[e|] ?]; eauto;
    destruct (serve (srv w)) as [e|[a r]]; eauto.
Qed.

End Call.

Lemma get_agent_cases agent_id w :
  (∃ e, get_agent agent_id w = (Raise e, logged (GetAgent agent_id) (Failed e) w))
  ∨ (∃ a, agents (srv w) !! agent_id = Some a
          ∧ get_agent agent_id w = (Ret a, logged (GetAgent agent_id) Done w)).
Proof.
  unfold get_agent.
  destruct (call_cases (GetAgent agent_id)
    (fun r => match agents r !! agent_id with
              | Some a => inr (a, r) | None => inl not_found end) w)
    as [[e He]|(a & r & Hs & He)]; [left; eauto|right].
  destruct (agents (srv w) !! agent_id) as [a'|] eqn:Ha; [|done].
  injection Hs as <- <-. exists a'. by rewrite He, set_srv_id.
Qed.

Lemma files_get_rest_cases fid w :
  (∃ e, files_get_rest fid w = (Raise e, logged (GetFile fid) (Failed e) w))
  ∨ (∃ m, files (srv w) !! fid = Some m
          ∧ files_get_rest fid w = (Ret m, logged (GetFile fid) Done w)).
Proof.
  unfold files_get_rest.
  destruct (call_cases (GetFile fid)
    (fun r => match files r !! fid with
              | Some m => inr (m, r) | None => inl not_found end) w)
    as [[e He]|(a & r & Hs & He)]; [left; eauto|right].
  destruct (files (srv w) !! fid) as [m|] eqn:Hm; [|done].
  injection Hs as <- <-. exists m. by rewrite He, set_srv_id.
Qed.

(** ** Settings *)

Lemma read_setting_required key w :
  read_setting key true "" w
  = if bool_decide (setting_value key w = "")
    then (Stop, set_ui (ui w ++ [UiError (missing_setting_msg key)]) w)
    else (Ret (setting_value key w), w).
Proof.
  unfold read_setting, getenv. unfold mbind, M_bind, bind.
  fold (setting_value key w). cbn [andb].
  by destruct (bool_decide (setting_value key w = "")).
Qed.

Lemma setting_value_absent key w : environ w !! key = None → setting_value key w = "".
Proof. unfold setting_value. by intros ->. Qed.

(** When both settings are there the rest of the script runs, on the
    endpoint without its final slashes and the agent id. *)
Lemma script_runs_rest {A} (rest : string * string -> M A) w :
  setting_value "PROJECT_ENDPOINT" w ≠ "" →
  setting_value "ORCHESTRATOR_AGENT_ID" w ≠ "" →
  script rest w
  = rest (rstrip (is_char slash) (setting_value "PROJECT_ENDPOINT" w),
          setting_value "ORCHESTRATOR_AGENT_ID" w) w.
Proof.
  intros H1 H2. unfold script, load_settings. unfold mbind, M_bind, bind.
  rewrite read_setting_required, bool_decide_eq_false_2 by done.
  by rewrite read_setting_required, bool_decide_eq_false_2 by done.
Qed.

(** C8. When a required setting has no value, or a value that is empty once
    trimmed, the script stops at the settings: the page gains the error that
    names a missing setting, the rest of the script (all that follows line
    23, where every call to the service is) does not run, and no call is
    issued. *)
Theorem script_stops_on_missing_setting {A} (rest : string * string -> M A) key w :
  key ∈ required_settings →
  environ w !! key = None ∨ setting_value key w = "" →
  ∃ missing,
    missing ∈ required_settings
    ∧ setting_value missing w = ""
    ∧ script rest w = (Stop, set_ui (ui w ++ [UiError (missing_setting_msg missing)]) w)
    ∧ issued w (script rest w).2 = [].
Proof.
  intros Hkey Hmiss.
  assert (setting_value key w = "") as Hempty.
  { destruct Hmiss as [Habs|?]; [by apply setting_value_absent|done]. }
  unfold script, load_settings. unfold mbind, M_bind, bind.
  rewrite read_setting_required.
  destruct (decide (setting_value "PROJECT_ENDPOINT" w = "")) as [H1|H1].
  - exists "PROJECT_ENDPOINT". rewrite bool_decide_eq_true_2 by done.
    repeat split; [left|done|]. unfold issued. wsimpl. by rewrite drop_all.
  - exists "ORCHESTRATOR_AGENT_ID". rewrite bool_decide_eq_false_2 by done.
    assert (setting_value "ORCHESTRATOR_AGENT_ID" w = "") as H2.
    { apply elem_of_cons in Hkey as [->|Hkey]; [done|].
      apply elem_of_cons in Hkey as [->|Hkey]; [done|]. by apply elem_of_nil in Hkey. }
    rewrite read_setting_required, bool_decide_eq_true_2 by done.
    repeat split; [right; left|done|]. unfold issued. wsimpl. by rewrite drop_all.
Qed.

Lemma script_stops_on_missing_setting_witness :
  ∃ missing,
    missing ∈ required_settings
    ∧ setting_value missing quoted_world = ""
    ∧ script (fun _ => show_ci_files None "A") quoted_world
      = (Stop, set_ui (ui quoted_world ++ [UiError (missing_setting_msg missing)]) quoted_world)
    ∧ issued quoted_world (script (fun _ => show_ci_files None "A") quoted_world).2 = [].
Proof.
  apply (script_stops_on_missing_setting (fun _ => show_ci_files None "A")
           "ORCHESTRATOR_AGENT_ID" quoted_world).
  - right. left.
  - right. vm_compute. reflexivity.
Defined.

(** A setting that holds a no-break space and nothing else is empty once
    trimmed: the script stops at it. *)
Example no_break_space_is_no_value :
  setting_value "ORCHESTRATOR_AGENT_ID" no_break_world = ""
  ∧ script (fun _ => show_ci_files None "A") no_break_world
    = (Stop,
       set_ui [UiError ("Missing setting: ORCHESTRATOR_AGENT_ID. "
                        +:+ "Add it to .env or environment variables.")]
         no_break_world).
Proof. vm_compute. by split. Qed.

(** ** The listing of an agent's files *)

Lemma fetched_is_get r row c : fetched r row c → ∃ fid res, c = (GetFile fid, res).
Proof. destruct 1; eauto. Qed.

Lemma fetched_request r row c : fetched r row c → c.1 = GetFile (file_id row).
Proof. by destruct 1. Qed.

Lemma fetched_requests r rows calls :
  Forall2 (fetched r) rows calls → fst <$> calls = GetFile <$> (file_id <$> rows).
Proof.
  induction 1 as [|row c rows calls Hf _ IH]; [done|].
  rewrite !fmap_cons, IH. f_equal. by apply fetched_request in Hf.
Qed.

Lemma fetched_row r rows calls row :
  Forall2 (fetched r) rows calls → row ∈ rows → ∃ c, c ∈ calls ∧ fetched r row c.
Proof.
  intros Hf [i Hi]%list_elem_of_lookup.
  destruct (Forall2_lookup_l _ _ _ _ _ Hf Hi) as (c & Hc & Hrc).
  exists c. split; [|done]. apply list_elem_of_lookup. eauto.
Qed.

Lemma list_rows_spec file_ids : ∀ rows0 w,
  ∃ rows calls,
    list_rows file_ids rows0 w = (Ret (rows0 ++ rows), after_calls calls w)
    ∧ file_id <$> rows = file_ids
    ∧ Forall2 (fetched (srv w)) rows calls.
Proof.
  induction file_ids as [|fid rest IH]; intros rows0 w.
  - exists [], []. rewrite app_nil_r, after_calls_nil. by repeat split.
  - cbn [list_rows]. munfold.
    destruct (files_get_rest_cases fid w) as [[e ->]|(m & Hm & ->)].
    + destruct (IH (rows0 ++ [unavailable_row fid]) (logged (GetFile fid) (Failed e) w))
        as (rows & calls & -> & Hids & Hf).
      exists (unavailable_row fid :: rows), ((GetFile fid, Failed e) :: calls).
      rewrite <- app_assoc, after_calls_logged. repeat split.
      * by rewrite fmap_cons, Hids.
      * constructor; [constructor|done].
    + destruct (IH (rows0 ++ [resolved_row fid m]) (logged (GetFile fid) Done w))
        as (rows & calls & -> & Hids & Hf).
      exists (resolved_row fid m :: rows), ((GetFile fid, Done) :: calls).
      rewrite <- app_assoc, after_calls_logged. repeat split.
      * by rewrite fmap_cons, Hids.
      * constructor; [by constructor|done].
Qed.

(** Line 84 raises on a null and on nothing else. *)
Lemma code_interpreter_file_ids_cases a w :
  (null_resources a ∧ code_interpreter_file_ids a w = (Raise attribute_error, w))
  ∨ (¬ null_resources a
     ∧ code_interpreter_file_ids a w = (Ret (or_list (agent_file_ids a)), w)).
Proof.
  unfold code_interpreter_file_ids, null_resources, agent_file_ids.
  destruct (tool_resources a) as [| |[| |file_ids]].
  - right. split; [by intros [|]|done].
  - left. split; [by left|done].
  - right. split; [by intros [|]|done].
  - left. split; [by right|done].
  - right. split; [by intros [|]|done].
Qed.

(** Every way the listing can go: the agent cannot be fetched; it has a
    null where its file ids are looked for; or the listing returns one row
    per file id. *)
Lemma list_agent_ci_files_cases agent_id w :
  (∃ e, list_agent_ci_files agent_id w
        = (Raise e, logged (GetAgent agent_id) (Failed e) w))
  ∨ (∃ a, agents (srv w) !! agent_id = Some a
          ∧ null_resources a
          ∧ list_agent_ci_files agent_id w
            = (Raise attribute_error, logged (GetAgent agent_id) Done w))
  ∨ (∃ a rows calls,
        agents (srv w) !! agent_id = Some a
        ∧ list_agent_ci_files agent_id w
          = (Ret rows, after_calls ((GetAgent agent_id, Done) :: calls) w)
        ∧ file_id <$> rows = ci_file_ids (srv w) agent_id
        ∧ Forall2 (fetched (srv w)) rows calls).
Proof.
  unfold list_agent_ci_files. munfold.
  destruct (get_agent_cases agent_id w) as [[e ->]|(a & Ha & ->)]; [left; eauto|right].
  destruct (code_interpreter_file_ids_cases a (logged (GetAgent agent_id) Done w))
    as [[Hnull ->]|[Hobj ->]]; [left; eauto|right].
  destruct (list_rows_spec (or_list (agent_file_ids a)) [] (logged (GetAgent agent_id) Done w))
    as (rows & calls & -> & Hids & Hf).
  exists a, rows, calls. rewrite after_calls_logged. unfold ci_file_ids. rewrite Ha.
  by repeat split.
Qed.

Lemma listing_ids agent_id w rows w1 :
  list_agent_ci_files agent_id w = (Ret rows, w1) →
  file_id <$> rows = ci_file_ids (srv w) agent_id ∧ srv w1 = srv w ∧ same_page w w1.
Proof.
  intros Hl.
  destruct (list_agent_ci_files_cases agent_id w)
    as [[e He]|[(a & _ & _ & He)|(a & rows' & calls & Ha & Hl' & Hids & Hf)]];
    rewrite Hl in *.
  - discriminate.
  - discriminate.
  - injection Hl' as -> ->. by repeat split.
Qed.

Lemma delete_key_inj f g : delete_key f = delete_key g → file_id f = file_id g.
Proof. unfold delete_key. cbn. by intros [= ?]. Qed.

Lemma rendered_nil w : rendered [] w = w.
Proof. destruct w. unfold rendered. wsimpl. cbn. by rewrite !app_nil_r. Qed.

Lemma rendered_cons f rows w :
  rendered rows (set_widgets (widgets w ++ [delete_key f])
                   (set_ui (ui w ++ [UiWrite (row_label f)]) w))
  = rendered (f :: rows) w.
Proof. unfold rendered. wsimpl. rewrite !fmap_cons. by rewrite <- !app_assoc. Qed.

(** With no click, rows of distinct ids are written one after the other. *)
Lemma show_rows_renders agent_id ci_files todo : ∀ w,
  NoDup (file_id <$> todo) →
  (∀ f, f ∈ todo → delete_key f ∉ widgets w) →
  show_rows None agent_id ci_files todo w = (Ret tt, rendered todo w).
Proof.
  induction todo as [|f todo IH]; intros w Hnd Hkeys.
  - by rewrite rendered_nil.
  - cbn [show_rows]. unfold mbind, M_bind, bind, st_write, emit, st_button.
    rewrite fmap_cons in Hnd. apply NoDup_cons in Hnd as [Hf Hnd].
    wsimpl. rewrite bool_decide_eq_false_2 by (apply Hkeys; left).
    rewrite (bool_decide_eq_false_2 (None = Some _)) by done.
    unfold mret, M_ret, ret. rewrite IH; [|done|].
    + by rewrite rendered_cons.
    + intros g Hg. wsimpl. intros [Hin|Hin]%elem_of_app.
      * apply (Hkeys g); [by right|done].
      * apply list_elem_of_singleton in Hin. apply Hf.
        rewrite <- (delete_key_inj _ _ Hin). apply list_elem_of_fmap. eauto.
Qed.

(** C9, as stated, fails: agent [A] holds the id [gone] twice and then
    [id2]. The fetch of [gone] fails, the listing returns its three rows, and
    the page stops at the second of them, whose button has the key of the
    first: the row of [id2] is not shown. *)
Lemma failed_fetch_twice_hides_later_rows :
  list_agent_ci_files "A" twice_gone_world
  = (Ret [ {| file_id := "gone"; filename := Some "(unavailable)"; bytes := None |};
           {| file_id := "gone"; filename := Some "(unavailable)"; bytes := None |};
           {| file_id := "id2"; filename := Some "notes.pdf"; bytes := Some 10%Z |} ],
     (list_agent_ci_files "A" twice_gone_world).2)
  ∧ (show_ci_files None "A" twice_gone_world).1 = Ret tt
  ∧ (∃ e, ui (show_ci_files None "A" twice_gone_world).2
          = [UiWrite "- (unavailable) (id=gone, bytes=None)";
             UiWrite "- (unavailable) (id=gone, bytes=None)";
             UiWarning ("Could not list CI files: " +:+ e)])
  ∧ UiWrite "- notes.pdf (id=id2, bytes=10)" ∉ ui (show_ci_files None "A" twice_gone_world).2.
Proof.
  split; [vm_compute; reflexivity|]. split; [vm_compute; reflexivity|].
  split; [eexists; vm_compute; reflexivity|].
  vm_compute. intros H.
  repeat (apply elem_of_cons in H as [H|H]; [discriminate|]).
  by apply elem_of_nil in H.
Qed.

(** C9, amended. The listing is given up when the agent cannot be fetched
    and when the agent has a null where its file ids are looked for, and in
    no other case. Otherwise it fetches the metadata of every file id of the
    agent once, in order, and returns one row per id in the same order: for
    an id whose fetch failed, the row with the label [(unavailable)] and no
    size; for every other id, the row with the name and the size that the
    service holds for it. When no id is listed twice the page then shows
    every row, in order. *)
Theorem listing_survives_failed_fetch agent_id w :
  ((∃ e, list_agent_ci_files agent_id w
         = (Raise e, logged (GetAgent agent_id) (Failed e) w))
   ∨ (∃ a, agents (srv w) !! agent_id = Some a
           ∧ (tool_resources a = Null ∨ tool_resources a = Holds Null)
           ∧ list_agent_ci_files agent_id w
             = (Raise "'NoneType' object has no attribute 'get'",
                logged (GetAgent agent_id) Done w))
   ∨ (∃ rows calls,
         list_agent_ci_files agent_id w
         = (Ret rows, after_calls ((GetAgent agent_id, Done) :: calls) w)
         ∧ file_id <$> rows = ci_file_ids (srv w) agent_id
         ∧ fst <$> calls = GetFile <$> ci_file_ids (srv w) agent_id
         ∧ ∀ i fid res, calls !! i = Some (GetFile fid, res) →
             match res with
             | Failed _ =>
                 rows !! i = Some {| file_id := fid; filename := Some "(unavailable)";
                                     bytes := None |}
             | Done =>
                 ∃ meta, files (srv w) !! fid = Some meta
                         ∧ rows !! i = Some {| file_id := fid;
                                               filename := meta_filename meta;
                                               bytes := meta_bytes meta |}
             end))
  ∧ (∀ rows w1,
       list_agent_ci_files agent_id w = (Ret rows, w1) →
       rows ≠ [] →
       NoDup (file_id <$> rows) →
       (∀ f, f ∈ rows → delete_key f ∉ widgets w) →
       ∃ w', show_ci_files None agent_id w = (Ret tt, w')
         ∧ ui w'
           = ui w ++ ((fun f => UiWrite ("- " +:+ fstr (filename f) +:+ " (id=" +:+ file_id f
                                         +:+ ", bytes=" +:+ fstr_int (bytes f) +:+ ")"))
                      <$> rows)).
Proof.
  split.
  - destruct (list_agent_ci_files_cases agent_id w)
      as [[e He]|[(a & Ha & Hnull & He)|(a & rows & calls & Ha & Hl & Hids & Hf)]];
      [left; eauto|right; left; eauto|right; right].
    exists rows, calls. split; [done|]. split; [done|]. split.
    { rewrite <- Hids. by eapply fetched_requests. }
    intros i fid res Hi.
    destruct (Forall2_lookup_r _ _ _ _ _ Hf Hi) as (row & Hrow & Hfetched).
    inversion Hfetched as [fid' meta Hmeta|fid' e]; subst.
    + exists meta. by split.
    + done.
  - intros rows w1 Hl Hne Hnd Hkeys.
    destruct (listing_ids _ _ _ _ Hl) as (_ & _ & Hpage).
    destruct Hpage as (_ & _ & Hui & Hwid & _).
    exists (rendered rows w1). split; [|by wsimpl; rewrite Hui].
    unfold show_ci_files, try_except. unfold mbind, M_bind, bind. rewrite Hl.
    destruct rows as [|f rows]; [done|].
    rewrite show_rows_renders; [done..|]. by rewrite Hwid.
Qed.

Lemma listing_survives_failed_fetch_witness :
  ∃ w', show_ci_files None "A" flaky_world = (Ret tt, w')
    ∧ ui w'
      = ui flaky_world
        ++ ((fun f => UiWrite ("- " +:+ fstr (filename f) +:+ " (id=" +:+ file_id f
                               +:+ ", bytes=" +:+ fstr_int (bytes f) +:+ ")"))
            <$> flaky_rows).
Proof.
  apply (proj2 (listing_survives_failed_fetch "A" flaky_world)
           flaky_rows (list_agent_ci_files "A" flaky_world).2).
  - vm_compute. reflexivity.
  - discriminate.
  - vm_compute. repeat constructor; intros H;
      repeat (apply elem_of_cons in H as [H|H]; [discriminate|]);
      by apply elem_of_nil in H.
  - intros f _ H. by apply elem_of_nil in H.
Defined.

(** The page of that listing. *)
Example page_with_two_unavailable :
  ui (show_ci_files None "A" flaky_world).2
  = [UiWrite "- (unavailable) (id=id1, bytes=None)";
     UiWrite "- (unavailable) (id=gone, bytes=None)";
     UiWrite "- notes.pdf (id=id2, bytes=10)"].
Proof. vm_compute. reflexivity. Qed.

(** ** Updating an agent, deleting a file *)

(** The test of line 98 finds a tool of the type exactly when there is
    one. *)
Lemma has_code_interpreter_spec tools :
  has_code_interpreter tools = true ↔ Exists is_code_interpreter tools.
Proof.
  unfold has_code_interpreter. induction tools as [|t tools IH]; cbn [existsb].
  - split; [done|]. by intros ?%Exists_nil.
  - rewrite orb_true_iff, IH, bool_decide_eq_true, Exists_cons. done.
Qed.

(** Lines 97-99: the tools of the agent as they are when one of them is the
    tool, followed by the tool when none is. *)
Lemma body_tools_spec a :
  (Exists is_code_interpreter (or_list (agent_tools a))
   ∧ body_tools a = or_list (agent_tools a))
  ∨ (¬ Exists is_code_interpreter (or_list (agent_tools a))
     ∧ body_tools a = or_list (agent_tools a) ++ [{[ "type" := "code_interpreter" ]}]).
Proof.
  unfold body_tools.
  destruct (has_code_interpreter (or_list (agent_tools a))) eqn:Hci.
  - left. split; [by apply has_code_interpreter_spec|done].
  - right. split; [|done]. intros Hex%has_code_interpreter_spec. congruence.
Qed.

Lemma body_tools_has_code_interpreter a : Exists is_code_interpreter (body_tools a).
Proof.
  destruct (body_tools_spec a) as [[Hex ->]|[_ ->]]; [done|].
  apply Exists_app. right. apply Exists_cons_hd. apply lookup_singleton_eq.
Qed.

Lemma stored_enabled agent_id a file_ids r r' :
  agents r' = agents (stored agent_id (body_tools a) file_ids r) →
  code_interpreter_enabled r' agent_id.
Proof.
  intros Hr. eexists. rewrite Hr. unfold stored. cbn [agents].
  split; [apply lookup_insert_eq|]. apply body_tools_has_code_interpreter.
Qed.

Lemma set_agent_ci_file_ids_cases agent_id file_ids w :
  (∃ e, set_agent_ci_file_ids agent_id file_ids w
        = (Raise e, after_calls [(GetAgent agent_id, Failed e)] w))
  ∨ (∃ a, agents (srv w) !! agent_id = Some a
      ∧ ((∃ e, set_agent_ci_file_ids agent_id file_ids w
               = (Raise e, after_calls [(GetAgent agent_id, Done);
                                        (PostAgent agent_id (body_tools a) file_ids, Failed e)] w))
         ∨ set_agent_ci_file_ids agent_id file_ids w
           = (Ret {| agent_tools := Some (body_tools a); tool_resources := ci_resources file_ids |},
              set_srv (stored agent_id (body_tools a) file_ids (srv w))
                (after_calls [(GetAgent agent_id, Done);
                              (PostAgent agent_id (body_tools a) file_ids, Done)] w)))).
Proof.
  unfold set_agent_ci_file_ids. munfold.
  destruct (get_agent_cases agent_id w) as [[e ->]|(a & Ha & ->)].
  { left. exists e. same_world. }
  right. exists a. split; [done|].
  set (w1 := logged (GetAgent agent_id) Done w).
  match goal with |- context [call ?rq ?f w1] =>
    destruct (call_cases rq f w1) as [[e ->]|(a' & r & Hs & ->)] end.
  - left. exists e. subst w1. same_world.
  - right. subst w1. wsimpl. rewrite Ha in Hs. injection Hs as <- <-.
    same_world.
Qed.

Lemma best_effort_files_delete fid w :
  ∃ res r,
    best_effort (files_delete fid) w = (Ret tt, logged (FilesDelete fid) res (set_srv r w))
    ∧ agents r = agents (srv w)
    ∧ (files r = files (srv w) ∨ files r = delete fid (files (srv w))).
Proof.
  unfold best_effort, files_delete, try_except.
  match goal with |- context [call ?rq ?f w] =>
    destruct (call_cases rq f w) as [[e ->]|(a' & r & Hs & ->)] end.
  - exists (Failed e), (srv w). rewrite set_srv_id. split; [done|]. split; [done|by left].
  - exists Done, r. destruct a'. split; [done|].
    destruct (files (srv w) !! fid); [|done]. injection Hs as <-. split; [done|by right].
Qed.

(** The fetches of the listing delete no file and update no agent. *)
Lemma fetched_harmless r rows calls :
  Forall2 (fetched r) rows calls →
  Forall (fun c => ¬ is_delete c ∧ keeps_code_interpreter c) calls.
Proof.
  induction 1 as [|row c rows calls Hf _ IH]; constructor; [|done].
  destruct (fetched_is_get _ _ _ Hf) as (fid & res & ->). split; [by intros []|done].
Qed.

Lemma harmless_keeps calls :
  Forall (fun c => ¬ is_delete c ∧ keeps_code_interpreter c) calls →
  Forall keeps_code_interpreter calls.
Proof. intros Hall. eapply Forall_impl; [exact Hall|]. by intros c [_ ?]. Qed.

Lemma not_delete_in calls c :
  Forall (fun c => ¬ is_delete c ∧ keeps_code_interpreter c) calls → c ∈ calls →
  ¬ is_delete c.
Proof. intros Hall Hin. eapply Forall_forall in Hall as [? _]; done. Qed.

(** The calls of a run of [persist_in_ci] or [delete_clicked] up to the
    update of the agent. *)
Ltac harmless_calls Hh :=
  erewrite issued_app by (wsimpl; rewrite <- ?app_assoc; reflexivity);
  cbn [app];
  repeat first
    [ apply Forall_nil_2
    | apply Forall_cons; split;
      [split; [by intros []|first [done | apply body_tools_has_code_interpreter]]|]
    | apply Forall_app; split; [exact Hh|] ].

(** The last call of such a run. *)
Ltac last_call :=
  erewrite issued_app by (wsimpl; rewrite <- ?app_assoc; reflexivity);
  cbn [app]; rewrite ?last_cons, ?last_app; reflexivity.

(** ** Deleting a listed file *)

(** Every way [delete_clicked] can go. *)
Lemma delete_clicked_cases agent_id rows f w :
  (∃ e w', delete_clicked agent_id rows f w = (Ret tt, w')
           ∧ srv w' = srv w
           ∧ ui w' = ui w ++ [UiError ("Delete failed: " +:+ e)]
           ∧ Forall keeps_code_interpreter (issued w w')
           ∧ ∃ rq, last (issued w w') = Some (rq, Failed e))
  ∨ (∃ w' res, delete_clicked agent_id rows f w = (Rerun, w')
        ∧ code_interpreter_enabled (srv w') agent_id
        ∧ ci_file_ids (srv w') agent_id = remaining rows f
        ∧ ui w' = ui w ++ [UiSuccess ("Deleted " +:+ fstr (filename f)
                                       +:+ " from CI and project.")]
        ∧ (FilesDelete (file_id f), res) ∈ issued w w'
        ∧ Forall keeps_code_interpreter (issued w w')).
Proof.
  destruct (set_agent_ci_file_ids_cases agent_id (remaining rows f) w)
    as [[e He]|(a & Ha & [[e He]|He])].
  - left. exists e. eexists. unfold delete_clicked, try_except.
    unfold mbind, M_bind, bind. rewrite He. unfold st_error, emit.
    do 3 (split; [done|]). split; [|eexists; last_call].
    erewrite issued_app by (wsimpl; reflexivity). by repeat constructor.
  - left. exists e. eexists. unfold delete_clicked, try_except.
    unfold mbind, M_bind, bind. rewrite He. unfold st_error, emit.
    do 3 (split; [done|]). split; [|eexists; last_call].
    erewrite issued_app by (wsimpl; reflexivity).
    repeat constructor. apply body_tools_has_code_interpreter.
  - right.
    match type of He with _ = (_, ?w2) =>
      destruct (best_effort_files_delete (file_id f) w2) as (res & r & Hd & Hr & _) end.
    eexists. exists res. split.
    { unfold delete_clicked, try_except. unfold mbind, M_bind, bind.
      rewrite He, Hd. unfold st_success, emit, st_rerun. reflexivity. }
    wsimpl. split; [by eapply stored_enabled|]. repeat split.
    + unfold ci_file_ids. rewrite Hr. unfold stored. wsimpl. by rewrite lookup_insert_eq.
    + erewrite issued_app by (wsimpl; rewrite <- ?app_assoc; reflexivity).
      do 2 right. left.
    + erewrite issued_app by (wsimpl; rewrite <- ?app_assoc; reflexivity).
      repeat constructor. apply body_tools_has_code_interpreter.
Qed.

Lemma remaining_filter rows f :
  remaining rows f = filter (fun fid => fid ≠ file_id f) (file_id <$> rows).
Proof.
  unfold remaining. induction rows as [|x rows IH]; [done|].
  rewrite fmap_cons, !filter_cons. destruct (decide (file_id x ≠ file_id f)).
  - by rewrite fmap_cons, IH.
  - done.
Qed.

Lemma length_filter_ne {A} `{EqDecision A} (l : list A) x :
  length (filter (fun y => y ≠ x) l) + length (filter (fun y => y = x) l) = length l.
Proof.
  induction l as [|a l IH]; [done|]. rewrite !filter_cons.
  destruct (decide (a = x)) as [->|Hne].
  - rewrite decide_False by (intros H'; by apply H'). cbn [length]. lia.
  - rewrite decide_True by done. cbn [length]. lia.
Qed.

Lemma filter_eq_NoDup {A} `{EqDecision A} (l : list A) x :
  NoDup l → x ∈ l → length (filter (fun y => y = x) l) = 1.
Proof.
  induction 1 as [|a l Hnin Hnd IH]; intros Hx; [by apply elem_of_nil in Hx|].
  rewrite filter_cons. destruct (decide (a = x)) as [->|Hne].
  - cbn [length]. f_equal. apply length_zero_iff_nil.
    destruct (filter (fun y => y = x) l) as [|b k] eqn:Hk; [done|].
    assert (b ∈ filter (fun y => y = x) l) as Hb by (rewrite Hk; left).
    apply list_elem_of_filter in Hb as [-> Hb]. done.
  - apply IH. apply elem_of_cons in Hx as [->|Hx]; done.
Qed.

(** C4, as stated, fails: the agent holds the two ids [id1; id1]; the click
    on Delete for that file leaves no id, not one. *)
Lemma delete_of_doubled_id :
  ci_file_ids (srv doubled_world) "A" = ["id1"; "id1"]
  ∧ (show_ci_files (Some "del_id1") "A" doubled_world).1 = Rerun
  ∧ ci_file_ids (srv (show_ci_files (Some "del_id1") "A" doubled_world).2) "A" = []
  ∧ length (ci_file_ids (srv (show_ci_files (Some "del_id1") "A" doubled_world).2) "A")
    ≠ length (ci_file_ids (srv doubled_world) "A") - 1.
Proof. vm_compute. repeat split. discriminate. Qed.

(** C4, amended. Deleting a listed file removes every occurrence of its id
    from the list of the agent: the list loses as many ids as held it, one
    when the ids of the list are distinct, and the id is neither in the
    list nor in any later listing of the agent. *)
Theorem delete_removes_listed_id agent_id w rows w1 f w2 :
  list_agent_ci_files agent_id w = (Ret rows, w1) →
  f ∈ rows →
  delete_clicked agent_id rows f w1 = (Rerun, w2) →
  ci_file_ids (srv w2) agent_id
  = filter (fun fid => fid ≠ file_id f) (ci_file_ids (srv w) agent_id)
  ∧ length (ci_file_ids (srv w2) agent_id)
    + length (filter (fun fid => fid = file_id f) (ci_file_ids (srv w) agent_id))
    = length (ci_file_ids (srv w) agent_id)
  ∧ (NoDup (ci_file_ids (srv w) agent_id) →
     S (length (ci_file_ids (srv w2) agent_id)) = length (ci_file_ids (srv w) agent_id))
  ∧ (file_id f ∉ ci_file_ids (srv w2) agent_id)
  ∧ ∀ w3 rows' w4,
      srv w3 = srv w2 →
      list_agent_ci_files agent_id w3 = (Ret rows', w4) →
      file_id f ∉ (file_id <$> rows').
Proof.
  intros Hl Hf Hrun.
  destruct (listing_ids _ _ _ _ Hl) as (Hids & Hsrv & _).
  destruct (delete_clicked_cases agent_id rows f w1)
    as [(e & w' & Hd & _)|(w' & res & Hd & _ & Hafter & _)];
    rewrite Hd in Hrun; [discriminate|]. injection Hrun as <-.
  rewrite remaining_filter, Hids in Hafter.
  assert (file_id f ∉ ci_file_ids (srv w') agent_id) as Hgone.
  { rewrite Hafter. intros [Hne _]%list_elem_of_filter. by apply Hne. }
  split; [done|]. split; [rewrite Hafter; apply length_filter_ne|].
  split; [|split; [done|]].
  - intros Hnd. rewrite <- (length_filter_ne (ci_file_ids (srv w) agent_id) (file_id f)).
    rewrite filter_eq_NoDup, Hafter; [lia|done|].
    rewrite <- Hids. apply list_elem_of_fmap. eauto.
  - intros w3 rows' w4 Hsame Hl3.
    destruct (listing_ids _ _ _ _ Hl3) as (-> & _ & _). by rewrite Hsame.
Qed.

Lemma delete_removes_listed_id_witness :
  ci_file_ids (srv id1_deleted) "A"
  = filter (fun fid => fid ≠ "id1") (ci_file_ids (srv sample_world) "A")
  ∧ length (ci_file_ids (srv id1_deleted) "A")
    + length (filter (fun fid => fid = "id1") (ci_file_ids (srv sample_world) "A"))
    = length (ci_file_ids (srv sample_world) "A")
  ∧ (NoDup (ci_file_ids (srv sample_world) "A") →
     S (length (ci_file_ids (srv id1_deleted) "A"))
     = length (ci_file_ids (srv sample_world) "A"))
  ∧ ("id1" ∉ ci_file_ids (srv id1_deleted) "A")
  ∧ ∀ w3 rows' w4,
      srv w3 = srv id1_deleted →
      list_agent_ci_files "A" w3 = (Ret rows', w4) →
      "id1" ∉ (file_id <$> rows').
Proof.
  apply (delete_removes_listed_id "A" sample_world sample_rows sample_listed id1_row).
  - vm_compute. reflexivity.
  - left.
  - vm_compute. reflexivity.
Defined.

(** ** Upload and persist *)

(** [existing_by_name] maps a key to the last row that has it. *)
Lemma existing_by_name_snoc rows e :
  existing_by_name (rows ++ [e]) = <[name_key e := e]> (existing_by_name rows).
Proof. unfold existing_by_name. by rewrite foldl_app. Qed.

Lemma existing_by_name_lookup rows k :
  existing_by_name rows !! k = last (filter (fun e => name_key e = k) rows).
Proof.
  induction rows as [|e rows IH] using rev_ind; [done|].
  rewrite existing_by_name_snoc, filter_app, filter_cons, filter_nil.
  destruct (decide (name_key e = k)) as [->|Hne].
  - by rewrite lookup_insert_eq, last_snoc.
  - by rewrite lookup_insert_ne, app_nil_r.
Qed.

Lemma existing_by_name_Some rows k e :
  existing_by_name rows !! k = Some e → e ∈ rows ∧ name_key e = k.
Proof.
  rewrite existing_by_name_lookup. intros He%last_Some_elem_of.
  by apply list_elem_of_filter in He as [? ?].
Qed.

Lemma existing_by_name_None rows k :
  existing_by_name rows !! k = None ↔ Forall (fun e => name_key e ≠ k) rows.
Proof.
  rewrite existing_by_name_lookup, last_None. split.
  - intros Hnil. apply Forall_forall. intros e He Hk.
    assert (e ∈ filter (fun e => name_key e = k) rows) as Hin
      by (by apply list_elem_of_filter).
    rewrite Hnil in Hin. by apply elem_of_nil in Hin.
  - induction 1 as [|e rows He _ IH]; [done|]. by rewrite filter_cons_False.
Qed.

Lemma existing_by_name_is_Some rows k :
  Exists (fun e => name_key e = k) rows → is_Some (existing_by_name rows !! k).
Proof.
  intros Hex. destruct (existing_by_name rows !! k) eqn:Hk; [done|].
  apply existing_by_name_None in Hk. apply Exists_exists in Hex as (e & He & Hke).
  by eapply Forall_forall in Hk.
Qed.

Lemma elem_of_new_ids new_id old_id ids x :
  x ∈ new_ids new_id old_id ids
  ↔ ∃ y, y ∈ ids ∧ x = if decide (y = old_id) then new_id else y.
Proof.
  unfold new_ids. rewrite list_elem_of_fmap.
  split; intros (y & H1 & H2); exists y; by split.
Qed.

Lemma remove_dups_all_eq {A} `{EqDecision A} (l : list A) x :
  x ∈ l → (∀ y, y ∈ l → y = x) → remove_dups l = [x].
Proof.
  induction l as [|a l IH]; intros Hx Hall; [by apply elem_of_nil in Hx|].
  assert (a = x) as -> by (apply Hall; left).
  cbn [remove_dups]. destruct (decide_rel elem_of x l) as [Hin|Hnin].
  - apply IH; [done|]. intros y Hy. apply Hall. by right.
  - destruct l as [|b l]; [done|]. exfalso. apply Hnin.
    assert (b = x) as -> by (apply Hall; right; left). left.
Qed.

(** The list that lines 191-202 ask for. *)
Lemma ids_under_name_asked rows name new_id :
  (∀ e1 e2, e1 ∈ rows → e2 ∈ rows → shows_name name e1 → shows_name name e2 →
            file_id e1 = file_id e2) →
  ids_under_name rows name new_id
    (match existing_by_name rows !! lower name with
     | Some e => new_ids new_id (file_id e) (existing_ids rows)
     | None => existing_ids rows ++ [new_id]
     end)
  = [new_id].
Proof.
  intros Huniq. unfold ids_under_name.
  destruct (existing_by_name rows !! lower name) as [old|] eqn:Hold.
  - pose proof (existing_by_name_Some _ _ _ Hold) as [Hin Hkey].
    apply remove_dups_all_eq.
    + apply list_elem_of_filter. split; [by left|].
      apply elem_of_new_ids. exists (file_id old). split.
      * apply list_elem_of_fmap. eauto.
      * by rewrite decide_True.
    + intros y [Hy Hy']%list_elem_of_filter. destruct Hy as [->|Hex]; [done|].
      apply elem_of_new_ids in Hy' as (z & Hz & ->).
      destruct (decide (z = file_id old)) as [|Hne]; [done|].
      apply Exists_exists in Hex as (e & He & Hid & Hshow).
      exfalso. apply Hne. rewrite <- Hid. by apply Huniq.
  - apply remove_dups_all_eq.
    + apply list_elem_of_filter. split; [by left|]. apply elem_of_app. right. left.
    + intros y [Hy _]%list_elem_of_filter. destruct Hy as [->|Hex]; [done|].
      apply Exists_exists in Hex as (e & He & _ & Hshow).
      apply existing_by_name_None in Hold. by eapply Forall_forall in Hold.
Qed.

(** Every way [persist_in_ci] can go: it fails before the list of the agent
    is replaced and says so, or it replaces the list and asks for a rerun. *)
Lemma persist_in_ci_cases agent_id name new_id w :
  (∃ e w', persist_in_ci agent_id name new_id w = (Ret tt, w')
           ∧ srv w' = srv w
           ∧ ui w' = ui w ++ [UiError ("Persist/overwrite failed: " +:+ e)]
           ∧ Forall (fun c => ¬ is_delete c ∧ keeps_code_interpreter c) (issued w w')
           ∧ ((∃ rq, last (issued w w') = Some (rq, Failed e))
              ∨ (e = attribute_error
                 ∧ issued w w' = [(GetAgent agent_id, Done)]
                 ∧ ∃ a, agents (srv w) !! agent_id = Some a ∧ null_resources a)))
  ∨ (∃ a rows calls w',
        agents (srv w) !! agent_id = Some a
        ∧ list_agent_ci_files agent_id w
          = (Ret rows, after_calls ((GetAgent agent_id, Done) :: calls) w)
        ∧ file_id <$> rows = ci_file_ids (srv w) agent_id
        ∧ Forall2 (fetched (srv w)) rows calls
        ∧ persist_in_ci agent_id name new_id w = (Rerun, w')
        ∧ code_interpreter_enabled (srv w') agent_id
        ∧ match existing_by_name rows !! lower name with
          | Some e =>
              ci_file_ids (srv w') agent_id = new_ids new_id (file_id e) (existing_ids rows)
              ∧ ui w' = ui w ++ [UiSuccess (overwritten_msg name)]
              ∧ (files (srv w') = files (srv w)
                 ∨ files (srv w') = delete (file_id e) (files (srv w)))
              ∧ ∃ res, trace w'
                  = trace w ++ (GetAgent agent_id, Done) :: calls
                    ++ [(GetAgent agent_id, Done);
                        (PostAgent agent_id (body_tools a)
                           (new_ids new_id (file_id e) (existing_ids rows)), Done);
                        (FilesDelete (file_id e), res)]
          | None =>
              ci_file_ids (srv w') agent_id = existing_ids rows ++ [new_id]
              ∧ ui w' = ui w ++ [UiSuccess (attached_msg name)]
              ∧ files (srv w') = files (srv w)
              ∧ trace w'
                = trace w ++ (GetAgent agent_id, Done) :: calls
                  ++ [(GetAgent agent_id, Done);
                      (PostAgent agent_id (body_tools a) (existing_ids rows ++ [new_id]), Done)]
          end).
Proof.
  destruct (list_agent_ci_files_cases agent_id w)
    as [[e He]|[(a & Ha & Hnull & He)|(a & rows & calls & Ha & Hl & Hids & Hf)]].
  { left. exists e. eexists. unfold persist_in_ci, try_except. unfold mbind, M_bind, bind.
    rewrite He. unfold st_error, emit. split; [done|]. wsimpl.
    do 2 (split; [done|]). split; [harmless_calls I|]. left. eexists. last_call. }
  { left. exists attribute_error. eexists. unfold persist_in_ci, try_except.
    unfold mbind, M_bind, bind. rewrite He. unfold st_error, emit. split; [done|]. wsimpl.
    do 2 (split; [done|]). split; [harmless_calls I|]. right. split; [done|].
    split; [|eauto]. by erewrite issued_app by (wsimpl; reflexivity). }
  pose proof (fetched_harmless _ _ _ Hf) as Hh.
  set (w1 := after_calls ((GetAgent agent_id, Done) :: calls) w) in *.
  assert (Ha1 : agents (srv w1) !! agent_id = Some a) by done.
  destruct (existing_by_name rows !! lower name) as [old|] eqn:Hold.
  - destruct (set_agent_ci_file_ids_cases agent_id
                (new_ids new_id (file_id old) (existing_ids rows)) w1)
      as [[e He]|(a' & Ha' & [[e He]|He])];
      [| rewrite Ha1 in Ha'; injection Ha' as <- ..].
    + left. exists e. eexists. unfold persist_in_ci, try_except. unfold mbind, M_bind, bind.
      rewrite Hl, Hold. unfold mbind, M_bind, bind. rewrite He.
      unfold st_error, emit. split; [done|]. subst w1. wsimpl.
      do 2 (split; [done|]). split; [harmless_calls Hh|]. left. eexists. last_call.
    + left. exists e. eexists. unfold persist_in_ci, try_except. unfold mbind, M_bind, bind.
      rewrite Hl, Hold. unfold mbind, M_bind, bind. rewrite He.
      unfold st_error, emit. split; [done|]. subst w1. wsimpl.
      do 2 (split; [done|]). split; [harmless_calls Hh|]. left. eexists. last_call.
    + right. exists a, rows, calls.
      match type of He with _ = (_, ?w2) =>
        destruct (best_effort_files_delete (file_id old) w2) as (res & r & Hd & Hr & Hfiles) end.
      eexists. do 4 (split; [done|]). split.
      { unfold persist_in_ci, try_except. unfold mbind, M_bind, bind.
        rewrite Hl, Hold. unfold mbind, M_bind, bind. rewrite He, Hd.
        unfold st_success, log, emit, st_rerun. reflexivity. }
      rewrite Hold. subst w1. wsimpl. split; [by eapply stored_enabled|].
      split; [|split; [done|split; [done|]]].
      * unfold ci_file_ids. rewrite Hr. unfold stored. wsimpl.
        by rewrite lookup_insert_eq.
      * exists res. by rewrite <- !app_assoc.
  - destruct (set_agent_ci_file_ids_cases agent_id (existing_ids rows ++ [new_id]) w1)
      as [[e He]|(a' & Ha' & [[e He]|He])];
      [| rewrite Ha1 in Ha'; injection Ha' as <- ..].
    + left. exists e. eexists. unfold persist_in_ci, try_except. unfold mbind, M_bind, bind.
      rewrite Hl, Hold. unfold mbind, M_bind, bind. rewrite He.
      unfold st_error, emit. split; [done|]. subst w1. wsimpl.
      do 2 (split; [done|]). split; [harmless_calls Hh|]. left. eexists. last_call.
    + left. exists e. eexists. unfold persist_in_ci, try_except. unfold mbind, M_bind, bind.
      rewrite Hl, Hold. unfold mbind, M_bind, bind. rewrite He.
      unfold st_error, emit. split; [done|]. subst w1. wsimpl.
      do 2 (split; [done|]). split; [harmless_calls Hh|]. left. eexists. last_call.
    + right. exists a, rows, calls. eexists. do 4 (split; [done|]). split.
      { unfold persist_in_ci, try_except. unfold mbind, M_bind, bind.
        rewrite Hl, Hold. unfold mbind, M_bind, bind. rewrite He.
        unfold st_success, log, emit, st_rerun. reflexivity. }
      rewrite Hold. subst w1. wsimpl. split; [by eapply stored_enabled|]. repeat split.
      * unfold ci_file_ids, stored. wsimpl. by rewrite lookup_insert_eq.
      * by rewrite <- !app_assoc.
Qed.

Lemma persist_success agent_id name new_id w w' rows w1 :
  list_agent_ci_files agent_id w = (Ret rows, w1) →
  persist_in_ci agent_id name new_id w = (Rerun, w') →
  file_id <$> rows = ci_file_ids (srv w) agent_id
  ∧ match existing_by_name rows !! lower name with
    | Some e =>
        ci_file_ids (srv w') agent_id = new_ids new_id (file_id e) (existing_ids rows)
        ∧ ui w' = ui w ++ [UiSuccess (overwritten_msg name)]
    | None =>
        ci_file_ids (srv w') agent_id = existing_ids rows ++ [new_id]
        ∧ ui w' = ui w ++ [UiSuccess (attached_msg name)]
    end.
Proof.
  intros Hl Hrun.
  destruct (persist_in_ci_cases agent_id name new_id w)
    as [(e & w2 & Hp & _)|(a & rows' & calls & w2 & Ha & Hl' & Hids & Hf & Hp & _ & Hm)].
  { rewrite Hp in Hrun. discriminate. }
  rewrite Hp in Hrun. injection Hrun as ->.
  rewrite Hl' in Hl. injection Hl as -> _. split; [done|].
  destruct (existing_by_name rows !! lower name).
  - destruct Hm as (? & ? & _). by split.
  - destruct Hm as (? & ? & _). by split.
Qed.

(** C2, as stated, fails: agent [A] holds [id1], the file [data.csv], and
    [id2]; the upload is [Data.csv]. The fetch of the metadata of [id1] is
    refused, the listing has the placeholder row for it, the name of the
    upload is that of no row, and the new id is appended: the agent is left
    with three ids, not two, and [id1] is where it was. *)
Lemma unread_name_is_not_matched :
  ci_file_ids (srv unread_world) "A" = ["id1"; "id2"]
  ∧ meta_filename <$> files (srv unread_world) !! "id1" = Some (Some "data.csv")
  ∧ lower "Data.csv" = lower "data.csv"
  ∧ (list_agent_ci_files "A" unread_world).1
    = Ret [ {| file_id := "id1"; filename := Some "(unavailable)"; bytes := None |};
            {| file_id := "id2"; filename := Some "notes.pdf"; bytes := Some 10%Z |} ]
  ∧ (persist_in_ci "A" "Data.csv" "id3" unread_world).1 = Rerun
  ∧ ci_file_ids (srv (persist_in_ci "A" "Data.csv" "id3" unread_world).2) "A"
    = ["id1"; "id2"; "id3"]
  ∧ length (ci_file_ids (srv (persist_in_ci "A" "Data.csv" "id3" unread_world).2) "A")
    ≠ length (ci_file_ids (srv unread_world) "A").
Proof. vm_compute. repeat split. discriminate. Qed.

(** What a persist that succeeds has done, [rows] being the listing it read. *)
Section SuccessfulPersist.

Context (agent_id name new_id : string) (w w1 w' : world) (rows : list ci_row).
Hypothesis listed : list_agent_ci_files agent_id w = (Ret rows, w1).
Hypothesis succeeded : persist_in_ci agent_id name new_id w = (Rerun, w').

Lemma persist_success_ids :
  ci_file_ids (srv w') agent_id
  = match existing_by_name rows !! lower name with
    | Some e => new_ids new_id (file_id e) (existing_ids rows)
    | None => existing_ids rows ++ [new_id]
    end.
Proof.
  destruct (persist_success _ _ _ _ _ _ _ listed succeeded) as [_ Hm].
  by destruct (existing_by_name rows !! lower name); destruct Hm as [-> _].
Qed.

Lemma persist_listed_ids : existing_ids rows = ci_file_ids (srv w) agent_id.
Proof. by destruct (persist_success _ _ _ _ _ _ _ listed succeeded) as [? _]. Qed.

(** C2, amended. When the name of the upload is, without regard to case,
    the name that the listing shows for a file of the agent, a successful
    persist leaves the agent with a list of the same length in which every
    position that held the id of the matched row (the last listed row under
    that name) holds the new id and every other position holds what it
    held. *)
Theorem persist_overwrites_in_place :
  Exists (shows_name name) rows →
  ∃ e, e ∈ rows ∧ shows_name name e
    ∧ last (filter (shows_name name) rows) = Some e
    ∧ file_id e ∈ ci_file_ids (srv w) agent_id
    ∧ length (ci_file_ids (srv w') agent_id) = length (ci_file_ids (srv w) agent_id)
    ∧ ∀ i fid, ci_file_ids (srv w) agent_id !! i = Some fid →
        ci_file_ids (srv w') agent_id !! i
        = Some (if decide (fid = file_id e) then new_id else fid).
Proof.
  intros Hex.
  destruct (existing_by_name_is_Some rows (lower name) Hex) as [e He].
  pose proof (existing_by_name_Some _ _ _ He) as [Hin Hkey].
  exists e. split; [done|]. split; [done|]. split.
  { by rewrite existing_by_name_lookup in He. }
  rewrite persist_success_ids, He, <- persist_listed_ids. unfold existing_ids, new_ids.
  split; [apply list_elem_of_fmap; eauto|].
  split; [by rewrite !length_fmap|].
  intros i fid Hi. by rewrite list_lookup_fmap, Hi.
Qed.

(** C3. When no listed file has the name of the upload, compared without
    regard to case, a successful persist leaves the agent with its former
    list followed by the new id: one id more, the new id among them. *)
Theorem persist_appends :
  Forall (fun e => ¬ shows_name name e) rows →
  ci_file_ids (srv w') agent_id = ci_file_ids (srv w) agent_id ++ [new_id]
  ∧ length (ci_file_ids (srv w') agent_id) = S (length (ci_file_ids (srv w) agent_id))
  ∧ new_id ∈ ci_file_ids (srv w') agent_id.
Proof.
  intros Hno%existing_by_name_None.
  rewrite persist_success_ids, Hno, persist_listed_ids.
  split; [done|]. split.
  - rewrite length_app. cbn [length]. lia.
  - apply elem_of_app. right. left.
Qed.

End SuccessfulPersist.

Lemma persist_overwrites_in_place_witness :
  ∃ e, e ∈ sample_rows ∧ shows_name "Data.csv" e
    ∧ last (filter (shows_name "Data.csv") sample_rows) = Some e
    ∧ file_id e ∈ ci_file_ids (srv sample_world) "A"
    ∧ length (ci_file_ids (srv (persist_in_ci "A" "Data.csv" "id3" sample_world).2) "A")
      = length (ci_file_ids (srv sample_world) "A")
    ∧ ∀ i fid, ci_file_ids (srv sample_world) "A" !! i = Some fid →
        ci_file_ids (srv (persist_in_ci "A" "Data.csv" "id3" sample_world).2) "A" !! i
        = Some (if decide (fid = file_id e) then "id3" else fid).
Proof.
  apply (persist_overwrites_in_place "A" "Data.csv" "id3" sample_world
           (list_agent_ci_files "A" sample_world).2 _ sample_rows).
  - vm_compute. reflexivity.
  - vm_compute. reflexivity.
  - apply Exists_cons_hd. vm_compute. reflexivity.
Defined.

Lemma persist_appends_witness :
  ci_file_ids (srv (persist_in_ci "A" "report.pdf" "id3" sample_world).2) "A"
  = ci_file_ids (srv sample_world) "A" ++ ["id3"]
  ∧ length (ci_file_ids (srv (persist_in_ci "A" "report.pdf" "id3" sample_world).2) "A")
    = S (length (ci_file_ids (srv sample_world) "A"))
  ∧ "id3" ∈ ci_file_ids (srv (persist_in_ci "A" "report.pdf" "id3" sample_world).2) "A".
Proof.
  apply (persist_appends "A" "report.pdf" "id3" sample_world
           (list_agent_ci_files "A" sample_world).2 _ sample_rows).
  - vm_compute. reflexivity.
  - vm_compute. reflexivity.
  - repeat constructor; vm_compute; discriminate.
Defined.

(** Letters beyond [A] to [Z] are compared without regard to case as
    well: the upload [é.csv] takes the place of the file [É.csv]. *)
Example accented_name_is_matched :
  lower capital_e_csv = small_e_csv
  ∧ (persist_in_ci "A" small_e_csv "id3" accent_world).1 = Rerun
  ∧ ci_file_ids (srv (persist_in_ci "A" small_e_csv "id3" accent_world).2) "A" = ["id3"]
  ∧ files (srv (persist_in_ci "A" small_e_csv "id3" accent_world).2) !! "id1" = None.
Proof. vm_compute. by repeat split. Qed.

(** C7. Whenever the persist handler has tried to delete the file that the
    upload replaces, then whatever came of that call ([res]: done, or failed
    with any exception) the run ends in the rerun of success, the agent holds
    the replacement list, and the page has gained the message of success and
    nothing else. *)
Theorem delete_of_old_file_is_best_effort agent_id name new_id w r w' old res :
  persist_in_ci agent_id name new_id w = (r, w') →
  (FilesDelete old, res) ∈ issued w w' →
  r = Rerun
  ∧ ui w' = ui w ++ [UiSuccess (overwritten_msg name)]
  ∧ ∃ rows e,
      (list_agent_ci_files agent_id w).1 = Ret rows
      ∧ existing_by_name rows !! lower name = Some e
      ∧ old = file_id e
      ∧ ci_file_ids (srv w') agent_id = new_ids new_id old (existing_ids rows).
Proof.
  intros Hrun Hdel.
  destruct (persist_in_ci_cases agent_id name new_id w)
    as [(e & w2 & Hp & _ & _ & Hnd & _)|(a & rows & calls & w2 & Ha & Hl & Hids & Hf & Hp & _ & Hm)];
    rewrite Hp in Hrun; injection Hrun as <- <-.
  { exfalso. by apply (not_delete_in _ _ Hnd Hdel). }
  pose proof (fetched_harmless _ _ _ Hf) as Hnd.
  destruct (existing_by_name rows !! lower name) as [e|] eqn:Hold.
  - destruct Hm as (Hafter & Hui & _ & res' & Hiss).
    rewrite (issued_app _ _ _ Hiss) in Hdel.
    apply elem_of_cons in Hdel as [Hd|Hdel]; [discriminate|].
    apply elem_of_app in Hdel as [Hdel|Hdel].
    { exfalso. by apply (not_delete_in _ _ Hnd Hdel). }
    apply elem_of_cons in Hdel as [Hd|Hdel]; [discriminate|].
    apply elem_of_cons in Hdel as [Hd|Hdel]; [discriminate|].
    apply elem_of_cons in Hdel as [Hd|Hdel]; [|by apply elem_of_nil in Hdel].
    injection Hd as -> ->. split; [done|]. split; [done|].
    exists rows, e. by rewrite Hl.
  - destruct Hm as (_ & _ & _ & Hiss). rewrite (issued_app _ _ _ Hiss) in Hdel. exfalso.
    apply elem_of_cons in Hdel as [Hd|Hdel]; [discriminate|].
    apply elem_of_app in Hdel as [Hdel|Hdel].
    { by apply (not_delete_in _ _ Hnd Hdel). }
    apply elem_of_cons in Hdel as [Hd|Hdel]; [discriminate|].
    apply elem_of_cons in Hdel as [Hd|Hdel]; [discriminate|].
    by apply elem_of_nil in Hdel.
Qed.

Lemma delete_of_old_file_is_best_effort_witness :
  (persist_in_ci "A" "Data.csv" "id3" (set_net sixth_fails sample_world)).1 = Rerun
  ∧ ui (persist_in_ci "A" "Data.csv" "id3" (set_net sixth_fails sample_world)).2
    = ui (set_net sixth_fails sample_world) ++ [UiSuccess (overwritten_msg "Data.csv")]
  ∧ ∃ rows e,
      (list_agent_ci_files "A" (set_net sixth_fails sample_world)).1 = Ret rows
      ∧ existing_by_name rows !! lower "Data.csv" = Some e
      ∧ "id1" = file_id e
      ∧ ci_file_ids (srv (persist_in_ci "A" "Data.csv" "id3"
                            (set_net sixth_fails sample_world)).2) "A"
        = new_ids "id3" "id1" (existing_ids rows).
Proof.
  apply (delete_of_old_file_is_best_effort "A" "Data.csv" "id3"
           (set_net sixth_fails sample_world) _ _ "id1" (Failed "503 Server Error")).
  - apply surjective_pairing.
  - vm_compute. do 5 right. left.
Defined.

(** The same upload with the delete refused and with the delete served: the
    same end, the same list of the agent, the same page; only the file store
    keeps the old file in the first. *)
Example delete_refused_or_served :
  let refused := persist_in_ci "A" "Data.csv" "id3" (set_net sixth_fails sample_world) in
  let served := persist_in_ci "A" "Data.csv" "id3" sample_world in
  refused.1 = served.1
  ∧ ci_file_ids (srv refused.2) "A" = ci_file_ids (srv served.2) "A"
  ∧ ui refused.2 = ui served.2
  ∧ is_Some (files (srv refused.2) !! "id1")
  ∧ files (srv served.2) !! "id1" = None.
Proof. vm_compute. repeat split. by eexists. Qed.

(** ** The code-interpreter tool across updates *)

(** C10. Every update of an agent that the program sends carries the
    code-interpreter tool, a tool entry of type [code_interpreter]:
    [set_agent_ci_file_ids] sends the tools of the agent as they are when
    one of them is that tool, and followed by the entry
    [{"type": "code_interpreter"}] when none is. So an update that is stored
    leaves the agent with the tool, and so does every replacement or append
    of [persist_in_ci] and every delete of [delete_clicked] that succeeds. *)
Theorem updates_keep_code_interpreter agent_id :
  (∀ file_ids w,
     Forall keeps_code_interpreter (issued w (set_agent_ci_file_ids agent_id file_ids w).2)
     ∧ match set_agent_ci_file_ids agent_id file_ids w with
       | (Ret _, w') =>
           ∃ a tools,
             agents (srv w) !! agent_id = Some a
             ∧ issued w w' = [(GetAgent agent_id, Done);
                              (PostAgent agent_id tools file_ids, Done)]
             ∧ agents (srv w') !! agent_id
               = Some {| agent_tools := Some tools;
                         tool_resources := ci_resources file_ids |}
             ∧ Exists (fun t : tool => t !! "type" = Some "code_interpreter") tools
             ∧ ((Exists (fun t : tool => t !! "type" = Some "code_interpreter")
                   (or_list (agent_tools a))
                 ∧ tools = or_list (agent_tools a))
                ∨ (Forall (fun t : tool => t !! "type" ≠ Some "code_interpreter")
                     (or_list (agent_tools a))
                   ∧ tools = or_list (agent_tools a) ++ [{[ "type" := "code_interpreter" ]}]))
       | (_, w') => srv w' = srv w
       end)
  ∧ (∀ name new_id w,
       Forall keeps_code_interpreter (issued w (persist_in_ci agent_id name new_id w).2)
       ∧ ((persist_in_ci agent_id name new_id w).1 = Rerun →
          code_interpreter_enabled (srv (persist_in_ci agent_id name new_id w).2) agent_id))
  ∧ (∀ rows f w,
       Forall keeps_code_interpreter (issued w (delete_clicked agent_id rows f w).2)
       ∧ ((delete_clicked agent_id rows f w).1 = Rerun →
          code_interpreter_enabled (srv (delete_clicked agent_id rows f w).2) agent_id)).
Proof.
  split; [|split].
  - intros file_ids w.
    destruct (set_agent_ci_file_ids_cases agent_id file_ids w)
      as [[e ->] | (a & Ha & [[e ->] | ->])]; cbn [fst snd].
    + split; [|done]. rewrite issued_after_calls. by repeat constructor.
    + split; [|done]. rewrite issued_after_calls. repeat constructor.
      apply body_tools_has_code_interpreter.
    + assert (issued w (set_srv (stored agent_id (body_tools a) file_ids (srv w))
                (after_calls [(GetAgent agent_id, Done);
                              (PostAgent agent_id (body_tools a) file_ids, Done)] w))
              = [(GetAgent agent_id, Done);
                 (PostAgent agent_id (body_tools a) file_ids, Done)]) as ->
        by (erewrite issued_app; [reflexivity|by wsimpl]).
      split; [repeat constructor; apply body_tools_has_code_interpreter|].
      exists a, (body_tools a). split; [done|]. split; [done|]. split.
      { unfold stored. wsimpl. apply lookup_insert_eq. }
      split; [apply body_tools_has_code_interpreter|].
      destruct (body_tools_spec a) as [[Hex ->]|[Hno ->]]; [by left|right].
      split; [|done]. apply Forall_forall. intros t Ht Htype. apply Hno.
      apply Exists_exists. eauto.
  - intros name new_id w.
    destruct (persist_in_ci_cases agent_id name new_id w)
      as [(e & w' & -> & _ & _ & Hh & _)
         |(a & rows & calls & w' & Ha & Hl & Hids & Hf & -> & Hen & Hm)]; cbn [fst snd].
    + split; [by apply harmless_keeps|discriminate].
    + split; [|done]. pose proof (harmless_keeps _ (fetched_harmless _ _ _ Hf)) as Hk.
      destruct (existing_by_name rows !! lower name).
      * destruct Hm as (_ & _ & _ & res & Htr). rewrite (issued_app _ _ _ Htr).
        constructor; [done|].
        apply Forall_app. split; [done|].
        repeat constructor. apply body_tools_has_code_interpreter.
      * destruct Hm as (_ & _ & _ & Htr). rewrite (issued_app _ _ _ Htr).
        constructor; [done|].
        apply Forall_app. split; [done|].
        repeat constructor. apply body_tools_has_code_interpreter.
  - intros rows f w.
    destruct (delete_clicked_cases agent_id rows f w)
      as [(e & w' & -> & _ & _ & Hk & _)|(w' & res & -> & Hen & _ & _ & _ & Hk)]; cbn [fst snd].
    + split; [done|discriminate].
    + by split.
Qed.

Lemma updates_keep_code_interpreter_witness :
  code_interpreter_enabled (srv (persist_in_ci "A" "Data.csv" "id3" sample_world).2) "A".
Proof.
  apply (proj2 (proj1 (proj2 (updates_keep_code_interpreter "A"))
                  "Data.csv" "id3" sample_world)).
  vm_compute. reflexivity.
Defined.

(** An agent whose tools lack the code-interpreter tool gets it with the
    first update. *)
Example update_appends_code_interpreter :
  agent_tools <$> agents (srv sample_world) !! "A" = Some (Some [])
  ∧ agent_tools <$> agents (srv (set_agent_ci_file_ids "A" ["id2"] sample_world).2) !! "A"
    = Some (Some [code_interpreter]).
Proof. vm_compute. by split. Qed.

(** ** Failures of the handlers *)

(** X2. A failure inside the persist or the delete handler does not end
    the script with an exception: the handler returns, the service is as it
    was, and the page has gained one error, which carries the message of
    the exception raised. That exception is the one of the last call the
    handler issued, which failed; or, in the persist handler, the one that
    line 84 raises for an agent that has a null in place of its tool
    resources, the fetch of the agent being then the only call. Otherwise
    the handler ends in the rerun of success. *)
Theorem handler_failures_are_reported agent_id :
  (∀ name new_id w,
     (persist_in_ci agent_id name new_id w).1 = Rerun
     ∨ ((persist_in_ci agent_id name new_id w).1 = Ret tt
        ∧ srv (persist_in_ci agent_id name new_id w).2 = srv w
        ∧ ∃ e, ui (persist_in_ci agent_id name new_id w).2
               = ui w ++ [UiError ("Persist/overwrite failed: " +:+ e)]
             ∧ ((∃ rq, last (issued w (persist_in_ci agent_id name new_id w).2)
                       = Some (rq, Failed e))
                ∨ (e = "'NoneType' object has no attribute 'get'"
                   ∧ issued w (persist_in_ci agent_id name new_id w).2
                     = [(GetAgent agent_id, Done)]
                   ∧ ∃ a, agents (srv w) !! agent_id = Some a
                          ∧ (tool_resources a = Null ∨ tool_resources a = Holds Null)))))
  ∧ (∀ rows f w,
       (delete_clicked agent_id rows f w).1 = Rerun
       ∨ ((delete_clicked agent_id rows f w).1 = Ret tt
          ∧ srv (delete_clicked agent_id rows f w).2 = srv w
          ∧ ∃ e rq, ui (delete_clicked agent_id rows f w).2
                    = ui w ++ [UiError ("Delete failed: " +:+ e)]
                  ∧ last (issued w (delete_clicked agent_id rows f w).2)
                    = Some (rq, Failed e))).
Proof.
  split.
  - intros name new_id w.
    destruct (persist_in_ci_cases agent_id name new_id w)
      as [(e & w' & -> & Hsrv & Hui & _ & Hfrom)
         |(a & rows & calls & w' & _ & _ & _ & _ & -> & _)];
      [right|by left].
    cbn [fst snd]. split; [done|]. split; [done|]. exists e. split; [done|].
    destruct Hfrom as [?|(-> & ? & ?)]; [by left|by right].
  - intros rows f w.
    destruct (delete_clicked_cases agent_id rows f w)
      as [(e & w' & -> & Hsrv & Hui & _ & rq & Hlast)|(w' & res & -> & _)]; [right|by left].
    cbn [fst snd]. split; [done|]. split; [done|]. by exists e, rq.
Qed.

(** An agent with a null under [tool_resources]: the panel of the files
    warns, the persist handler reports the error, and the fetch of the
    agent is the only call of each. *)
Example null_resources_are_reported :
  show_ci_files None "A" null_world
  = (Ret tt,
     set_ui [UiWarning "Could not list CI files: 'NoneType' object has no attribute 'get'"]
       (set_trace [(GetAgent "A", Done)] null_world))
  ∧ persist_in_ci "A" "Data.csv" "id3" null_world
    = (Ret tt,
       set_ui [UiError "Persist/overwrite failed: 'NoneType' object has no attribute 'get'"]
         (set_trace [(GetAgent "A", Done)] null_world)).
Proof. vm_compute. by split. Qed.

(** ** One id per file name, on the side of the service *)

Lemma upload_and_persist_cases agent_id name data new_id w :
  (∃ e, upload_and_persist agent_id name data new_id w
        = (Raise e, logged (FilesUpload name (length data)) (Failed e) w))
  ∨ upload_and_persist agent_id name data new_id w
    = persist_in_ci agent_id name new_id (uploaded new_id name data w).
Proof.
  unfold upload_and_persist, files_upload. unfold mbind, M_bind, bind.
  match goal with |- context [call ?rq ?f w] =>
    destruct (call_cases rq f w) as [[e ->]|(a' & r & Hs & ->)] end; [left; eauto|right].
  injection Hs as <- <-. reflexivity.
Qed.

(** A row that shows a name stands for a file the service holds under it. *)
Lemma shown_is_stored r rows calls name row :
  Forall2 (fetched r) rows calls → lower name ≠ lower unavailable →
  row ∈ rows → shows_name name row → stored_under r name (file_id row).
Proof.
  intros Hf Hname Hrow Hshow.
  destruct (fetched_row _ _ _ _ Hf Hrow) as (c & _ & Hc).
  destruct Hc as [fid meta Hmeta|fid e].
  - unfold stored_under. cbn [file_id resolved_row]. by rewrite Hmeta.
  - by destruct Hname.
Qed.

(** A file held under a name is shown under it, if its fetch did not fail. *)
Lemma stored_is_shown r rows calls name fid :
  Forall2 (fetched r) rows calls →
  (∀ e, (GetFile fid, Failed e) ∈ calls → files r !! fid = None) →
  fid ∈ (file_id <$> rows) → stored_under r name fid →
  Exists (fun e => file_id e = fid ∧ shows_name name e) rows.
Proof.
  intros Hf Hfail (row & -> & Hrow)%list_elem_of_fmap Hst.
  apply Exists_exists. exists row. split; [done|]. split; [done|].
  destruct (fetched_row _ _ _ _ Hf Hrow) as (c & Hin & Hc).
  destruct Hc as [fid meta Hmeta|fid e]; cbn [file_id resolved_row unavailable_row] in *.
  - unfold stored_under in Hst. by rewrite Hmeta in Hst.
  - unfold stored_under in Hst. by rewrite (Hfail e Hin) in Hst.
Qed.

Lemma filter_ext_elem {A} (P Q : A → Prop) `{∀ x, Decision (P x)} `{∀ x, Decision (Q x)}
    (l : list A) :
  (∀ x, x ∈ l → P x ↔ Q x) → filter P l = filter Q l.
Proof.
  induction l as [|x l IH]; intros Hext; [done|].
  rewrite !filter_cons, IH by (intros y Hy; apply Hext; by right).
  destruct (decide (P x)) as [Hp|Hp].
  - rewrite decide_True; [done|]. apply Hext; [left|done].
  - rewrite decide_False; [done|]. intros Hq. apply Hp. apply Hext; [left|done].
Qed.

Lemma at_most_one {A} (l : list A) x y :
  NoDup l → (length l ≤ 1)%nat → x ∈ l → y ∈ l → x = y.
Proof.
  intros _ Hlen Hx Hy. destruct l as [|a [|b l]]; cbn [length] in Hlen; [|..|lia].
  - by apply elem_of_nil in Hx.
  - apply list_elem_of_singleton in Hx, Hy. congruence.
Qed.

Lemma ids_named_elem r agent_id name fid :
  fid ∈ ids_named r agent_id name
  ↔ stored_under r name fid ∧ fid ∈ ci_file_ids r agent_id.
Proof. unfold ids_named. by rewrite elem_of_remove_dups, list_elem_of_filter. Qed.

(** What a persist that succeeds leaves under the name of the upload, the
    service holding the upload under that name and the agent at most one
    other file: the new id and no other; [rows] is the listing it read. *)
Lemma persist_names_one_id agent_id name new_id w w' :
  stored_under (srv w) name new_id →
  new_id ∉ ci_file_ids (srv w) agent_id →
  lower name ≠ lower unavailable →
  (length (ids_named (srv w) agent_id name) ≤ 1)%nat →
  (∀ fid e, fid ∈ ci_file_ids (srv w) agent_id →
            (GetFile fid, Failed e) ∈ issued w w' → files (srv w) !! fid = None) →
  persist_in_ci agent_id name new_id w = (Rerun, w') →
  ∃ rows,
    ids_named (srv w') agent_id name = [new_id]
    ∧ files (srv w') !! new_id = files (srv w) !! new_id
    ∧ match existing_by_name rows !! lower name with
      | Some e =>
          ids_named (srv w) agent_id name = [file_id e]
          ∧ ci_file_ids (srv w') agent_id
            = new_ids new_id (file_id e) (ci_file_ids (srv w) agent_id)
      | None =>
          ids_named (srv w) agent_id name = []
          ∧ ci_file_ids (srv w') agent_id = ci_file_ids (srv w) agent_id ++ [new_id]
      end.
Proof.
  intros Hup Hnew Hname Hone Hfail Hrun.
  destruct (persist_in_ci_cases agent_id name new_id w)
    as [(e & w2 & Hp & _)|(a & rows & calls & w2 & Ha & Hl & Hids & Hf & Hp & _ & Hm)];
    rewrite Hp in Hrun; [discriminate|]. injection Hrun as ->.
  exists rows.
  assert (Hold_ids : ∀ fid, fid ∈ ci_file_ids (srv w) agent_id → fid ≠ new_id)
    by (intros fid Hin ->; done).
  (* the calls of the listing are among the calls of the run *)
  assert (Hcalls : ∀ c, c ∈ calls → c ∈ issued w w').
  { intros c Hc.
    assert (∃ post, trace w' = trace w ++ (GetAgent agent_id, Done) :: calls ++ post)
      as [post Htr].
    { destruct (existing_by_name rows !! lower name).
      - destruct Hm as (_ & _ & _ & res & ->). by eexists.
      - destruct Hm as (_ & _ & _ & ->). by eexists. }
    rewrite (issued_app _ _ _ Htr). right. apply elem_of_app. by left. }
  assert (Hfail' : ∀ fid, fid ∈ ci_file_ids (srv w) agent_id →
                     ∀ e, (GetFile fid, Failed e) ∈ calls → files (srv w) !! fid = None)
    by eauto.
  (* a row that shows the name is one of the agent's ids under it *)
  assert (Hin : ∀ e, e ∈ rows → shows_name name e →
                  file_id e ∈ ids_named (srv w) agent_id name).
  { intros e He Hs. apply ids_named_elem. split; [by eapply shown_is_stored|].
    rewrite <- Hids. apply list_elem_of_fmap. eauto. }
  assert (Huniq : ∀ e1 e2, e1 ∈ rows → e2 ∈ rows → shows_name name e1 →
                    shows_name name e2 → file_id e1 = file_id e2).
  { intros e1 e2 H1 H2 S1 S2.
    eapply at_most_one; [apply NoDup_remove_dups|exact Hone|by apply Hin..]. }
  pose proof (ids_under_name_asked rows name new_id Huniq) as Hasked.
  assert (Hafter : ci_file_ids (srv w') agent_id
                   = match existing_by_name rows !! lower name with
                     | Some e => new_ids new_id (file_id e) (existing_ids rows)
                     | None => existing_ids rows ++ [new_id]
                     end).
  { by destruct (existing_by_name rows !! lower name); destruct Hm as [-> _]. }
  rewrite <- Hafter in Hasked.
  (* the ids after are the new one or ids the agent had *)
  assert (Hsub : ∀ y, y ∈ ci_file_ids (srv w') agent_id →
                   y = new_id ∨ y ∈ ci_file_ids (srv w) agent_id).
  { intros y Hy. rewrite Hafter in Hy. unfold existing_ids in Hy. rewrite Hids in Hy.
    destruct (existing_by_name rows !! lower name).
    - apply elem_of_new_ids in Hy as (z & Hz & ->). case_decide; auto.
    - apply elem_of_app in Hy as [?|Hy]; [auto|]. left.
      by apply list_elem_of_singleton in Hy. }
  (* the files after are those before, but for the one deleted *)
  assert (Hkept : ∀ y, stored_under (srv w') name y → stored_under (srv w) name y).
  { intros y. unfold stored_under.
    destruct (existing_by_name rows !! lower name) as [old|].
    - destruct Hm as (_ & _ & [->| ->] & _); [done|].
      destruct (decide (y = file_id old)) as [->|Hne];
        [by rewrite lookup_delete_eq|by rewrite lookup_delete_ne].
    - by destruct Hm as (_ & _ & -> & _). }
  assert (Hnew_in : new_id ∈ ci_file_ids (srv w') agent_id).
  { assert (new_id ∈ [new_id]) as Hn by left. rewrite <- Hasked in Hn.
    unfold ids_under_name in Hn.
    rewrite elem_of_remove_dups, list_elem_of_filter in Hn. by destruct Hn. }
  assert (Hnew_file : files (srv w') !! new_id = files (srv w) !! new_id).
  { destruct (existing_by_name rows !! lower name) as [old|] eqn:Hold.
    - destruct Hm as (_ & _ & [->| ->] & _); [done|].
      rewrite lookup_delete_ne; [done|].
      intros Heq. apply existing_by_name_Some in Hold as [Hrow _].
      apply (Hold_ids (file_id old)); [|done].
      rewrite <- Hids. apply list_elem_of_fmap. eauto.
    - by destruct Hm as (_ & _ & -> & _). }
  assert (Hnew_st : stored_under (srv w') name new_id).
  { unfold stored_under in *. by rewrite Hnew_file. }
  split; [|split; [done|]].
  { unfold ids_named. apply remove_dups_all_eq.
    - by apply list_elem_of_filter.
    - intros y [Hy Hy_in]%list_elem_of_filter.
      destruct (Hsub y Hy_in) as [->|Hy_old]; [done|].
      assert (y ∈ ids_under_name rows name new_id (ci_file_ids (srv w') agent_id)) as Hy'.
      { unfold ids_under_name. rewrite elem_of_remove_dups, list_elem_of_filter.
        split; [|done]. right.
        eapply stored_is_shown; [done| |by rewrite Hids|by apply Hkept].
        by apply Hfail'. }
      rewrite Hasked in Hy'. by apply list_elem_of_singleton in Hy'. }
  rewrite Hafter. unfold existing_ids. rewrite Hids.
  destruct (existing_by_name rows !! lower name) as [old|] eqn:Hold.
  - split; [|done]. apply existing_by_name_Some in Hold as [Hrow Hkey].
    pose proof (Hin old Hrow Hkey) as Hold_in.
    destruct (ids_named (srv w) agent_id name) as [|x [|y l]]; cbn [length] in Hone; [|..|lia].
    + by apply elem_of_nil in Hold_in.
    + by apply list_elem_of_singleton in Hold_in as ->.
  - split; [|done]. apply existing_by_name_None in Hold.
    destruct (ids_named (srv w) agent_id name) as [|x l] eqn:Hnamed; [done|]. exfalso.
    assert (x ∈ ids_named (srv w) agent_id name) as Hx by (rewrite Hnamed; left).
    apply ids_named_elem in Hx as [Hst Hx].
    assert (Exists (fun e => file_id e = x ∧ shows_name name e) rows) as Hex.
    { eapply stored_is_shown; [done| |by rewrite Hids|done]. by apply Hfail'. }
    apply Exists_exists in Hex as (e & He & _ & Hshow).
    by eapply Forall_forall in Hold.
Qed.




(** X1. The invariant of section 3 of the design, on the side of the
    service, for the whole handler, the upload first: when the agent had at
    most one id whose file the service holds under the name of the upload,
    the id given to the upload is new to the service and to the agent, the
    name is not the label of the rows that do not resolve, and no fetch of
    the listing failed for a file the service holds, an upload-and-persist
    that succeeds leaves the agent with exactly one id under that name, the
    new one, whose file has the name and the size of the upload. *)
Theorem upload_keeps_one_id_per_name agent_id name data new_id w w' :
  files (srv w) !! new_id = None →
  new_id ∉ ci_file_ids (srv w) agent_id →
  lower name ≠ lower "(unavailable)" →
  (length (ids_named (srv w) agent_id name) ≤ 1)%nat →
  (∀ fid e, (GetFile fid, Failed e) ∈ issued w w' → files (srv w) !! fid = None) →
  upload_and_persist agent_id name data new_id w = (Rerun, w') →
  ids_named (srv w') agent_id name = [new_id]
  ∧ files (srv w') !! new_id
    = Some {| meta_filename := Some name; meta_bytes := Some (Z.of_nat (length data)) |}.
Proof.
  intros Hfresh Hnew Hname Hone Hfail Hrun.
  destruct (upload_and_persist_cases agent_id name data new_id w) as [[e He]|He];
    rewrite He in Hrun; [discriminate|]. clear He.
  set (wu := uploaded new_id name data w) in *.
  assert (Hup : files (srv wu) !! new_id
                = Some {| meta_filename := Some name;
                          meta_bytes := Some (Z.of_nat (length data)) |})
    by (subst wu; unfold uploaded; wsimpl; apply lookup_insert_eq).
  assert (Hfiles : ∀ fid, fid ≠ new_id → files (srv wu) !! fid = files (srv w) !! fid).
  { intros fid Hne. subst wu. unfold uploaded. wsimpl. by rewrite lookup_insert_ne. }
  assert (Hold_ids : ∀ fid, fid ∈ ci_file_ids (srv w) agent_id → fid ≠ new_id)
    by (intros fid Hin ->; done).
  assert (Hnamed : ids_named (srv wu) agent_id name = ids_named (srv w) agent_id name).
  { unfold ids_named.
    change (ci_file_ids (srv wu) agent_id) with (ci_file_ids (srv w) agent_id).
    f_equal. apply filter_ext_elem. intros fid Hin.
    unfold stored_under. by rewrite Hfiles by (by apply Hold_ids). }
  destruct (persist_names_one_id agent_id name new_id wu w')
    as (rows & Hafter & Hfile & _); [| |done| | |done|].
  - unfold stored_under. by rewrite Hup.
  - done.
  - by rewrite Hnamed.
  - intros fid e Hin Hcall. rewrite Hfiles by (by apply Hold_ids). apply (Hfail fid e).
    eapply issued_later; [|exact Hcall]. subst wu. unfold uploaded. wsimpl. reflexivity.
  - by rewrite Hfile.
Qed.

Lemma upload_keeps_one_id_per_name_witness :
  ids_named (srv (upload_and_persist "A" "DATA.csv" [] "id4" sample_world).2) "A" "DATA.csv"
  = ["id4"]
  ∧ files (srv (upload_and_persist "A" "DATA.csv" [] "id4" sample_world).2) !! "id4"
    = Some {| meta_filename := Some "DATA.csv"; meta_bytes := Some 0%Z |}.
Proof.
  apply (upload_keeps_one_id_per_name "A" "DATA.csv" [] "id4" sample_world).
  - vm_compute. reflexivity.
  - vm_compute. intros H.
    repeat (apply elem_of_cons in H as [H|H]; [discriminate|]).
    by apply elem_of_nil in H.
  - vm_compute. discriminate.
  - vm_compute. lia.
  - intros fid e H. exfalso. vm_compute in H.
    repeat (apply elem_of_cons in H as [H|H]; [discriminate|]).
    by apply elem_of_nil in H.
  - vm_compute. reflexivity.
Defined.

(** ** Waiting for a run *)

Lemma polled_0 thread run_id w : polled thread run_id 0 w = w.
Proof. destruct w. unfold polled. wsimpl. by rewrite app_nil_r, Nat.add_0_r. Qed.

Lemma polled_step thread run_id n w :
  polled thread run_id n
    (set_trace (trace (set_slept (slept w + 2) w) ++ [(RunsGet thread run_id, Done)])
       (set_slept (slept w + 2) w))
  = polled thread run_id (S n) w.
Proof.
  unfold polled, set_slept, set_trace. wsimpl. f_equal; [|lia].
  by rewrite <- app_assoc.
Qed.

Lemma polled_1 thread run_id w :
  set_trace (trace (set_slept (slept w + 2) w) ++ [(RunsGet thread run_id, Done)])
    (set_slept (slept w + 2) w)
  = polled thread run_id 1 w.
Proof. by rewrite <- polled_step, polled_0. Qed.

Lemma polled_polled thread run_id n w :
  polled thread run_id n (polled thread run_id 1 w) = polled thread run_id (S n) w.
Proof. by rewrite <- polled_1, polled_step. Qed.

Lemma poll_exit thread run_id replies status w :
  status_str status ∉ polling → poll thread run_id replies status w = (Ret status, w).
Proof. intros Hout. destruct replies; cbn [poll]; by rewrite bool_decide_eq_false_2. Qed.

Lemma poll_fetch thread run_id status' replies status w :
  status_str status ∈ polling →
  poll thread run_id (inr status' :: replies) status w
  = poll thread run_id replies status' (polled thread run_id 1 w).
Proof.
  intros Hin. cbn [poll]. rewrite bool_decide_eq_true_2 by done.
  unfold mbind, M_bind, bind, sleep, told. by rewrite polled_1.
Qed.

Lemma poll_until_terminal thread run_id fetched : ∀ status final later w,
  Forall (fun s => status_str s ∈ polling) (status :: fetched) →
  status_str final ∉ polling →
  poll thread run_id ((inr <$> fetched) ++ inr final :: later) status w
  = (Ret final, polled thread run_id (S (length fetched)) w).
Proof.
  induction fetched as [|s more IH]; intros status final later w Hall Hfinal;
    apply Forall_cons in Hall as [Hin Hall].
  - cbn [fmap list_fmap app]. rewrite poll_fetch by done. by apply poll_exit.
  - rewrite fmap_cons. cbn [app]. rewrite poll_fetch by done.
    rewrite IH by done. by rewrite polled_polled.
Qed.

Lemma poll_while_polling thread run_id fetched : ∀ status w,
  Forall (fun s => status_str s ∈ polling) (status :: fetched) →
  poll thread run_id (inr <$> fetched) status w
  = (Hang, polled thread run_id (length fetched) w).
Proof.
  induction fetched as [|s more IH]; intros status w Hall;
    apply Forall_cons in Hall as [Hin Hall].
  - cbn [fmap list_fmap poll]. rewrite bool_decide_eq_true_2 by done.
    by rewrite polled_0.
  - rewrite fmap_cons, poll_fetch by done. rewrite IH by done.
    by rewrite polled_polled.
Qed.

Lemma poll_until_failure thread run_id fetched : ∀ status e later w,
  Forall (fun s => status_str s ∈ polling) (status :: fetched) →
  poll thread run_id ((inr <$> fetched) ++ inl e :: later) status w
  = (Raise e, set_trace (trace (polled thread run_id (length fetched) w)
                         ++ [(RunsGet thread run_id, Failed e)])
                (set_slept (slept (polled thread run_id (length fetched) w) + 2)
                   (polled thread run_id (length fetched) w))).
Proof.
  induction fetched as [|s more IH]; intros status e later w Hall;
    apply Forall_cons in Hall as [Hin Hall].
  - cbn [fmap list_fmap app poll length]. rewrite bool_decide_eq_true_2 by done.
    by rewrite polled_0.
  - rewrite fmap_cons. cbn [app length]. rewrite poll_fetch by done.
    rewrite IH by done. by rewrite polled_polled.
Qed.

Lemma reported_page thread orchestrator run_id n status w :
  ui (reported thread orchestrator run_id n status w)
  = ui w ++ [UiInfo ("Run status: " +:+ fstr_status status)]
  ∧ slept (reported thread orchestrator run_id n status w) = slept w + 2 * n
  ∧ issued w (reported thread orchestrator run_id n status w)
    = (RunsCreate thread orchestrator, Done) :: replicate n (RunsGet thread run_id, Done).
Proof.
  repeat split. erewrite issued_app; [reflexivity|]. wsimpl. by rewrite <- app_assoc.
Qed.

(** C5, as stated, fails: the run [r1], created queued, is completed at
    its second fetch; the status fetched last is the member of [RunStatus]
    that is the string [completed], and the page shows the name of the
    member, not that string. *)
Lemma completed_is_shown_by_name :
  (run_and_wait "t1" "orchestrator" (inr ("r1", QUEUED))
     [inr IN_PROGRESS; inr COMPLETED] sample_world).1 = Ret "r1"
  ∧ issued sample_world
      (run_and_wait "t1" "orchestrator" (inr ("r1", QUEUED))
         [inr IN_PROGRESS; inr COMPLETED] sample_world).2
    = [(RunsCreate "t1" "orchestrator", Done); (RunsGet "t1" "r1", Done);
       (RunsGet "t1" "r1", Done)]
  ∧ status_str COMPLETED = "completed"
  ∧ ui (run_and_wait "t1" "orchestrator" (inr ("r1", QUEUED))
          [inr IN_PROGRESS; inr COMPLETED] sample_world).2
    = [UiInfo "Run status: RunStatus.COMPLETED"]
  ∧ ui (run_and_wait "t1" "orchestrator" (inr ("r1", QUEUED))
          [inr IN_PROGRESS; inr COMPLETED] sample_world).2
    ≠ [UiInfo ("Run status: " +:+ status_str COMPLETED)].
Proof. vm_compute. repeat split. discriminate. Qed.

(** C5, amended. The loop of the Run handler fetches the run again, two
    seconds after the last status, exactly while the status it holds is one
    of the strings [queued], [in_progress], [requires_action]:
    - a run created with any other status, known to the SDK or not, is not
      fetched at all;
    - a run whose statuses stay in the set for the first fetches and then
      leave it is fetched up to the first status outside the set and no
      further, whatever the service would answer later;
    - while every status seen is in the set the loop has not ended;
    - a fetch that raises while the statuses are in the set ends the loop
      with that exception, and no status is shown.
    In the first two cases the page shows the last status fetched as an
    f-string prints it: a status that the SDK does not know as it came, a
    member of [RunStatus] by its name. *)
Theorem run_and_wait_polls_until_terminal thread orchestrator run_id :
  (∀ status replies w,
     status_str status ∉ polling →
     ∃ w', run_and_wait thread orchestrator (inr (run_id, status)) replies w = (Ret run_id, w')
       ∧ ui w' = ui w ++ [UiInfo ("Run status: "
                                  +:+ match status with
                                      | Member name _ => "RunStatus." +:+ name
                                      | Plain value => value
                                      end)]
       ∧ slept w' = slept w
       ∧ issued w w' = [(RunsCreate thread orchestrator, Done)])
  ∧ (∀ status fetched final later w,
       Forall (fun s => status_str s ∈ polling) (status :: fetched) →
       status_str final ∉ polling →
       ∃ w', run_and_wait thread orchestrator (inr (run_id, status))
               ((inr <$> fetched) ++ inr final :: later) w = (Ret run_id, w')
         ∧ ui w' = ui w ++ [UiInfo ("Run status: "
                                    +:+ match final with
                                        | Member name _ => "RunStatus." +:+ name
                                        | Plain value => value
                                        end)]
         ∧ slept w' = slept w + 2 * S (length fetched)
         ∧ issued w w' = (RunsCreate thread orchestrator, Done)
                         :: replicate (S (length fetched)) (RunsGet thread run_id, Done))
  ∧ (∀ status fetched w,
       Forall (fun s => status_str s ∈ polling) (status :: fetched) →
       ∃ w', run_and_wait thread orchestrator (inr (run_id, status)) (inr <$> fetched) w
             = (Hang, w')
         ∧ ui w' = ui w
         ∧ slept w' = slept w + 2 * length fetched)
  ∧ (∀ status fetched e later w,
       Forall (fun s => status_str s ∈ polling) (status :: fetched) →
       ∃ w', run_and_wait thread orchestrator (inr (run_id, status))
               ((inr <$> fetched) ++ inl e :: later) w = (Raise e, w')
         ∧ ui w' = ui w
         ∧ slept w' = slept w + 2 * S (length fetched)).
Proof.
  split; [|split; [|split]].
  - intros status replies w Hout. exists (reported thread orchestrator run_id 0 status w).
    split.
    2: { destruct (reported_page thread orchestrator run_id 0 status w) as (? & Hs & ?).
         rewrite Nat.add_0_r in Hs. by repeat split. }
    unfold run_and_wait, told. unfold mbind, M_bind, bind. cbn [fst snd].
    rewrite poll_exit by done. unfold st_info, emit, mret, M_ret, ret.
    unfold reported. by rewrite polled_0.
  - intros status fetched final later w Hall Hfinal.
    exists (reported thread orchestrator run_id (S (length fetched)) final w).
    split; [|by apply reported_page].
    unfold run_and_wait, told. unfold mbind, M_bind, bind. cbn [fst snd].
    by rewrite poll_until_terminal.
  - intros status fetched w Hall. eexists.
    unfold run_and_wait, told. unfold mbind, M_bind, bind. cbn [fst snd].
    rewrite poll_while_polling by done. by repeat split.
  - intros status fetched e later w Hall. eexists.
    unfold run_and_wait, told. unfold mbind, M_bind, bind. cbn [fst snd].
    rewrite poll_until_failure by done. split; [done|]. split; [done|].
    wsimpl. lia.
Qed.

Lemma run_and_wait_polls_until_terminal_witness :
  ∃ w', run_and_wait "t1" "orchestrator" (inr ("r1", QUEUED))
          ((inr <$> [IN_PROGRESS]) ++ inr (Plain "paused") :: [inr COMPLETED]) sample_world
        = (Ret "r1", w')
    ∧ ui w' = ui sample_world ++ [UiInfo ("Run status: " +:+ "paused")]
    ∧ slept w' = slept sample_world + 2 * S (length [IN_PROGRESS])
    ∧ issued sample_world w'
      = (RunsCreate "t1" "orchestrator", Done)
        :: replicate (S (length [IN_PROGRESS])) (RunsGet "t1" "r1", Done).
Proof.
  apply (proj1 (proj2 (run_and_wait_polls_until_terminal "t1" "orchestrator" "r1"))
           QUEUED [IN_PROGRESS] (Plain "paused")).
  - repeat constructor.
  - vm_compute. intros H.
    repeat (apply elem_of_cons in H as [H|H]; [discriminate|]).
    by apply elem_of_nil in H.
Defined.

(** ** The output of a run *)

Lemma append_text_segments parts : ∀ chunks,
  foldl append_text chunks parts
  = chunks ++ filter (fun v => v ≠ "") (omap text_value parts).
Proof.
  induction parts as [|tmc parts IH]; intros chunks; [by rewrite app_nil_r|].
  cbn [foldl]. rewrite IH.
  change (omap text_value (tmc :: parts))
    with (match text_value tmc with
          | Some v => v :: omap text_value parts
          | None => omap text_value parts
          end).
  unfold append_text, text_value. destruct (text tmc) as [[[v|]]|]; cbn; [|done..].
  destruct (decide (v = "")) as [->|Hne].
  - done.
  - rewrite bool_decide_eq_false_2, decide_True by done. cbn [negb].
    by rewrite <- app_assoc.
Qed.

Lemma collect_chunks_from chunks pager :
  foldl (fun chunks m =>
           if bool_decide (role m ≠ "assistant") then chunks
           else match text_messages m with
                | [] => chunks
                | parts => foldl append_text chunks parts
                end) chunks pager
  = chunks ++ mjoin (text_segments <$> filter (fun m => role m = "assistant") pager).
Proof.
  revert chunks. induction pager as [|m pager IH]; intros chunks; [by rewrite app_nil_r|].
  cbn [foldl]. rewrite IH, filter_cons.
  destruct (decide (role m = "assistant")) as [Hr|Hr].
  - rewrite bool_decide_eq_false_2 by (intros Hn; by apply Hn).
    rewrite fmap_cons. cbn [mjoin list_join]. rewrite app_assoc. f_equal.
    unfold text_segments, all_text_segments.
    destruct (text_messages m) as [|p parts] eqn:Hp; [by rewrite app_nil_r|].
    by rewrite <- append_text_segments.
  - by rewrite bool_decide_eq_true_2.
Qed.

Lemma collect_chunks_run_text run_id msgs :
  collect_chunks (filter (fun m => msg_run_id m = Some run_id) msgs) = run_text run_id msgs.
Proof.
  unfold collect_chunks. rewrite collect_chunks_from. cbn [app].
  unfold run_text, assistant_messages_of. by rewrite <- list_filter_filter.
Qed.

Lemma text_segments_not_empty m : Forall (fun v => v ≠ "") (text_segments m).
Proof.
  apply Forall_forall. intros v Hv. unfold text_segments in Hv.
  by apply list_elem_of_filter in Hv as [? _].
Qed.

Lemma run_text_not_empty run_id msgs : Forall (fun v => v ≠ "") (run_text run_id msgs).
Proof.
  unfold run_text. induction (assistant_messages_of run_id msgs) as [|m l IH]; [done|].
  rewrite fmap_cons. cbn [mjoin list_join]. apply Forall_app. split; [|done].
  apply text_segments_not_empty.
Qed.

Lemma join_not_empty sep chunks :
  chunks ≠ [] → Forall (fun v => v ≠ "") chunks → join sep chunks ≠ "".
Proof.
  destruct chunks as [|x rest]; [done|]. intros _ Hall.
  apply Forall_cons in Hall as [Hx _]. cbn [join].
  destruct rest; [done|]. destruct x; [done|]. discriminate.
Qed.

(** C6, as stated, fails: the answer of run [r1] has the text parts [a],
    an empty one, and [b]; the page shows [a] and [b] a blank line apart,
    not the three parts joined by blank lines. *)
Lemma empty_text_part_is_skipped :
  ui (show_run_output "t1" "r1" (inr sample_thread) sample_world).2
  = [UiMarkdown "**Assistant:**"; UiWrite (join blank_line ["a"; "b"])]
  ∧ run_text_all "r1" sample_thread = ["a"; ""; "b"]
  ∧ join blank_line ["a"; "b"] ≠ join blank_line (run_text_all "r1" sample_thread).
Proof. vm_compute. repeat split. discriminate. Qed.

(** C6, amended. Of the messages the service lists for the run, the page
    shows the text of the assistant's messages only: their text values that
    are not empty, in the order listed, joined by a blank line, and never an
    empty text; when there is no such value it shows the warning that no
    response was generated. *)
Theorem show_run_output_text thread run_id msgs w :
  ∃ w', show_run_output thread run_id (inr msgs) w = (Ret tt, w')
    ∧ issued w w' = [(MessagesList thread run_id, Done)]
    ∧ match run_text run_id msgs with
      | [] => ui w' = ui w ++ [UiWarning "No assistant response generated."]
      | chunks =>
          ui w' = ui w ++ [UiMarkdown "**Assistant:**"; UiWrite (join blank_line chunks)]
          ∧ join blank_line chunks ≠ ""
      end.
Proof.
  unfold show_run_output, messages_list, told.
  unfold mbind, mret, M_bind, M_ret, bind, ret.
  rewrite collect_chunks_run_text.
  pose proof (run_text_not_empty run_id msgs) as Hne.
  destruct (run_text run_id msgs) as [|c chunks] eqn:Hrt.
  - eexists. split; [reflexivity|]. split; [|done].
    by erewrite issued_app by (wsimpl; reflexivity).
  - eexists. split; [unfold st_markdown, st_write, emit; reflexivity|].
    split; [by erewrite issued_app by (wsimpl; reflexivity)|].
    wsimpl. split; [by rewrite <- app_assoc|]. by apply join_not_empty.
Qed.

(** One click on Run, from the thread to the page: the messages asked for
    are those of the run just created, and of [sample_thread] only the
    answer of that run is shown. *)
Example run_button_sample :
  let end_ := run_button "orchestrator" "question" sample_replies sample_world in
  end_.1 = Ret tt
  ∧ trace end_.2
    = [(ThreadsCreate, Done);
       (MessagesCreate "t1" "question" ["id3"], Done);
       (RunsCreate "t1" "orchestrator", Done);
       (RunsGet "t1" "r1", Done); (RunsGet "t1" "r1", Done);
       (MessagesList "t1" "r1", Done)]
  ∧ ui end_.2
    = [UiInfo "Run status: RunStatus.COMPLETED"; UiMarkdown "**Assistant:**";
       UiWrite (join blank_line ["a"; "b"])]
  ∧ slept end_.2 = 4.
Proof. vm_compute. by repeat split. Qed.

(** * Further properties *)

(** ** Trimming a setting *)

Lemma append_cons c s t : String c s +:+ t = String c (s +:+ t).
Proof. reflexivity. Qed.

Lemma list_ascii_app s t :
  list_ascii_of_string (s +:+ t) = list_ascii_of_string s ++ list_ascii_of_string t.
Proof.
  induction s as [|c s IH]; [done|].
  change (String c s +:+ t) with (String c (s +:+ t)). cbn. by rewrite IH.
Qed.

Lemma string_of_list_app l k :
  string_of_list_ascii (l ++ k) = string_of_list_ascii l +:+ string_of_list_ascii k.
Proof. induction l as [|c l IH]; [done|]. cbn. by rewrite IH. Qed.

Lemma append_assoc s t u : (s +:+ t) +:+ u = s +:+ (t +:+ u).
Proof.
  induction s as [|c s IH]; [done|].
  change ((String c s +:+ t) +:+ u) with (String c ((s +:+ t) +:+ u)). by rewrite IH.
Qed.

Lemma append_nil_r s : s +:+ "" = s.
Proof.
  induction s as [|c s IH]; [done|].
  change (String c s +:+ "") with (String c (s +:+ "")). by rewrite IH.
Qed.

Lemma all_chars_nil p : all_chars p "".
Proof. constructor. Qed.

Lemma all_chars_app p s t : all_chars p (s +:+ t) ↔ all_chars p s ∧ all_chars p t.
Proof. unfold all_chars. rewrite list_ascii_app. apply Forall_app. Qed.

Lemma all_chars_of_list p l :
  Forall (fun c => p c = true) l → all_chars p (string_of_list_ascii l).
Proof. unfold all_chars. by rewrite list_ascii_of_string_of_list_ascii. Qed.

Lemma first_char_of_list l : first_char (string_of_list_ascii l) = head l.
Proof. by destruct l. Qed.

Lemma last_char_app s t :
  last_char (s +:+ t) = match last_char t with Some c => Some c | None => last_char s end.
Proof.
  unfold last_char. rewrite list_ascii_app, last_app.
  by destruct (last (list_ascii_of_string t)).
Qed.

Lemma first_char_app s t :
  first_char (s +:+ t) = match first_char s with Some c => Some c | None => first_char t end.
Proof. by destruct s. Qed.

Lemma last_char_None s : last_char s = None → s = "".
Proof.
  unfold last_char. rewrite last_None. intros Hnil.
  by rewrite <- (string_of_list_ascii_of_string s), Hnil.
Qed.

Lemma all_chars_last p s c : all_chars p s → last_char s = Some c → p c = true.
Proof.
  unfold all_chars, last_char. intros Hall Hlast%last_Some_elem_of.
  by eapply Forall_forall in Hall.
Qed.

(** [lstrip] drops every leading character of the set, and no other. *)
Lemma lstrip_all p pre s : all_chars p pre → lstrip p (pre +:+ s) = lstrip p s.
Proof.
  induction pre as [|c pre IH]; [done|]. intros Hall. inversion Hall as [|?? Hc Hpre]; subst.
  rewrite append_cons. cbn [lstrip]. rewrite Hc. by apply IH.
Qed.

Lemma lstrip_keeps p s : (∀ c, first_char s = Some c → p c = false) → lstrip p s = s.
Proof. destruct s as [|c s]; [done|]. intros Hc. cbn. by rewrite Hc. Qed.

Lemma lstrip_spec p s :
  ∃ pre, s = pre +:+ lstrip p s ∧ all_chars p pre
         ∧ ∀ c, first_char (lstrip p s) = Some c → p c = false.
Proof.
  induction s as [|c s (pre & Hs & Hall & Hfirst)].
  - exists "". split; [done|]. split; [apply all_chars_nil|done].
  - cbn [lstrip]. destruct (p c) eqn:Hc.
    + exists (String c pre). split; [by rewrite append_cons, <- Hs|].
      split; [by constructor|done].
    + exists "". split; [done|]. split; [apply all_chars_nil|]. by intros ? [= <-].
Qed.

Lemma rev_string_first s :
  first_char (string_of_list_ascii (rev (list_ascii_of_string s))) = last_char s.
Proof.
  rewrite first_char_of_list. unfold last_char.
  induction (list_ascii_of_string s) as [|c l IH] using rev_ind; [done|].
  by rewrite rev_unit, last_snoc.
Qed.

Lemma rev_string_last s :
  last_char (string_of_list_ascii (rev (list_ascii_of_string s))) = first_char s.
Proof.
  unfold last_char. rewrite list_ascii_of_string_of_list_ascii.
  destruct s as [|c s]; [done|]. cbn [list_ascii_of_string rev]. apply last_snoc.
Qed.

Lemma rstrip_all p s post : all_chars p post → rstrip p (s +:+ post) = rstrip p s.
Proof.
  intros Hall. unfold rstrip. rewrite list_ascii_app, rev_app_distr, string_of_list_app.
  rewrite lstrip_all; [done|]. apply all_chars_of_list. by apply Forall_rev.
Qed.

Lemma rstrip_keeps p s : (∀ c, last_char s = Some c → p c = false) → rstrip p s = s.
Proof.
  intros Hc. unfold rstrip. rewrite lstrip_keeps.
  - by rewrite list_ascii_of_string_of_list_ascii, rev_involutive,
      string_of_list_ascii_of_string.
  - by rewrite rev_string_first.
Qed.

Lemma rstrip_spec p s :
  ∃ post, s = rstrip p s +:+ post ∧ all_chars p post
          ∧ ∀ c, last_char (rstrip p s) = Some c → p c = false.
Proof.
  unfold rstrip. set (r := string_of_list_ascii (rev (list_ascii_of_string s))).
  destruct (lstrip_spec p r) as (pre & Hr & Hall & Hfirst).
  exists (string_of_list_ascii (rev (list_ascii_of_string pre))). split; [|split].
  - rewrite <- string_of_list_app, <- rev_app_distr, <- list_ascii_app, <- Hr.
    subst r. by rewrite list_ascii_of_string_of_list_ascii, rev_involutive,
      string_of_list_ascii_of_string.
  - apply all_chars_of_list. by apply Forall_rev.
  - intros c Hc. apply Hfirst. by rewrite rev_string_last in Hc.
Qed.

(** [strip_chars] gives back what the characters of the set surround. *)
Lemma strip_chars_wrapped p pre v post :
  all_chars p pre → all_chars p post →
  (∀ c, first_char v = Some c ∨ last_char v = Some c → p c = false) →
  strip_chars p (pre +:+ v +:+ post) = v.
Proof.
  intros Hpre Hpost Hv. unfold strip_chars. rewrite lstrip_all by done.
  destruct v as [|a v].
  - change ("" +:+ post) with post. by rewrite <- (append_nil_r post), lstrip_all.
  - rewrite lstrip_keeps.
    + rewrite rstrip_all by done. apply rstrip_keeps. auto.
    + intros c Hc. apply Hv. left. by rewrite first_char_app in Hc.
Qed.

Lemma append_not_empty s t : s +:+ t = "" → s = "" ∧ t = "".
Proof. destruct s; [done|discriminate]. Qed.

(** The ends of a value that is not empty, wrapped in characters that
    satisfy [q], satisfy [q] when its own ends do. *)
Lemma ends_wrapped (q : ascii → Prop) pre v post :
  Forall q (list_ascii_of_string pre) → Forall q (list_ascii_of_string post) →
  v ≠ "" →
  (∀ c, first_char v = Some c ∨ last_char v = Some c → q c) →
  ∀ c, first_char (pre +:+ v +:+ post) = Some c ∨ last_char (pre +:+ v +:+ post) = Some c →
       q c.
Proof.
  intros Hpre Hpost Hne Hv c [Hc|Hc].
  - rewrite first_char_app in Hc. destruct (first_char pre) as [a|] eqn:Ha.
    + injection Hc as <-. destruct pre as [|a' pre]; [done|]. injection Ha as ->.
      by inversion Hpre.
    + rewrite first_char_app in Hc. destruct v as [|a v]; [done|]. apply Hv. by left.
  - rewrite !last_char_app in Hc. destruct (last_char post) as [a|] eqn:Ha.
    + injection Hc as <-. apply last_Some_elem_of in Ha. by eapply Forall_forall in Hpost.
    + destruct (last_char v) as [a|] eqn:Hl; [injection Hc as <-; apply Hv; by right|].
      by apply last_char_None in Hl.
Qed.

Lemma all_chars_are p (q : ascii → Prop) s :
  (∀ c, p c = true → q c) → all_chars p s → Forall q (list_ascii_of_string s).
Proof. intros Hpq Hall. eapply Forall_impl; [exact Hall|]. done. Qed.

Lemma is_char_true c x : is_char c x = true → x = c.
Proof. unfold is_char. by intros ?%bool_decide_eq_true. Qed.

(** X3. A value that is not empty and has no blank and no quote at its
    ends is read as it is, whatever blanks, then double quotes, then single
    quotes stand before it and, in the opposite order, after it. *)
Theorem read_setting_unquotes key required dflt w
    blanks1 dquotes1 squotes1 v squotes2 dquotes2 blanks2 :
  default dflt (environ w !! key)
  = blanks1 +:+ dquotes1 +:+ squotes1 +:+ v +:+ squotes2 +:+ dquotes2 +:+ blanks2 →
  all_chars isspace blanks1 → all_chars isspace blanks2 →
  all_chars (is_char dquote) dquotes1 → all_chars (is_char dquote) dquotes2 →
  all_chars (is_char squote) squotes1 → all_chars (is_char squote) squotes2 →
  plain v →
  read_setting key required dflt w = (Ret v, w).
Proof.
  intros Hraw Hb1 Hb2 Hd1 Hd2 Hs1 Hs2 [Hne Hv].
  set (inner := squotes1 +:+ v +:+ squotes2).
  set (outer := dquotes1 +:+ inner +:+ dquotes2).
  assert (Hinner_ne : inner ≠ "").
  { intros [_ [? _]%append_not_empty]%append_not_empty. done. }
  assert (Hsq : ∀ c, is_char squote c = true → isspace c = false ∧ is_char dquote c = false)
    by (by intros c ->%is_char_true).
  assert (Hdq : ∀ c, is_char dquote c = true → isspace c = false)
    by (by intros c ->%is_char_true).
  assert (Hv' : ∀ c, first_char v = Some c ∨ last_char v = Some c →
                  isspace c = false ∧ is_char dquote c = false ∧ is_char squote c = false).
  { intros c Hc. specialize (Hv c Hc). unfold trimmed in Hv.
    apply orb_false_elim in Hv as [[? ?]%orb_false_elim ?]. done. }
  assert (Hinner : ∀ c, first_char inner = Some c ∨ last_char inner = Some c →
                     isspace c = false ∧ is_char dquote c = false).
  { apply ends_wrapped; [by eapply all_chars_are..|done|]. intros c Hc.
    by destruct (Hv' c Hc) as (? & ? & _). }
  assert (Houter : ∀ c, first_char outer = Some c ∨ last_char outer = Some c →
                     isspace c = false).
  { apply ends_wrapped; [by eapply all_chars_are..|done|]. intros c Hc.
    by destruct (Hinner c Hc). }
  unfold read_setting, getenv. unfold mbind, M_bind, bind. rewrite Hraw.
  replace (blanks1 +:+ dquotes1 +:+ squotes1 +:+ v +:+ squotes2 +:+ dquotes2 +:+ blanks2)
    with (blanks1 +:+ outer +:+ blanks2)
    by (subst outer inner; by rewrite !append_assoc).
  unfold strip. rewrite (strip_chars_wrapped isspace) by done.
  subst outer. rewrite (strip_chars_wrapped (is_char dquote)) by (try done; apply Hinner).
  subst inner. rewrite (strip_chars_wrapped (is_char squote)) by (try done; apply Hv').
  rewrite (bool_decide_eq_false_2 (v = "")) by done. by rewrite andb_false_r.
Qed.

Lemma read_setting_unquotes_witness :
  read_setting "PROJECT_ENDPOINT" true "" dotenv_world
  = (Ret "https://host/api/projects/p//", dotenv_world).
Proof.
  apply (read_setting_unquotes "PROJECT_ENDPOINT" true "" dotenv_world
           blanks_before (String dquote "") "" "https://host/api/projects/p//" ""
           (String dquote "") blanks_after).
  - vm_compute. reflexivity.
  - repeat constructor.
  - repeat constructor.
  - repeat constructor.
  - repeat constructor.
  - constructor.
  - constructor.
  - split; [discriminate|].
    intros c [H|H]; vm_compute in H; injection H as <-; reflexivity.
Defined.

(** ** The endpoint *)

Lemma all_chars_empty_iff p s :
  all_chars p s → (∀ c, last_char s = Some c → p c = false) → s = "".
Proof.
  intros Hall Hlast. destruct (last_char s) as [c|] eqn:Hc; [|by apply last_char_None].
  pose proof (all_chars_last _ _ _ Hall Hc) as Ht. by rewrite (Hlast c) in Ht.
Qed.

(** X4. With both settings there, the script goes on with the agent id and
    with the endpoint less all its final slashes: the value of the setting
    is the endpoint followed by slashes only, and the endpoint does not end
    in a slash. The check for a missing setting comes before the slashes
    are cut, so a value of slashes only gives the empty endpoint. *)
Theorem load_settings_cuts_final_slashes w :
  setting_value "PROJECT_ENDPOINT" w ≠ "" →
  setting_value "ORCHESTRATOR_AGENT_ID" w ≠ "" →
  ∃ endpoint slashes,
    load_settings w = (Ret (endpoint, setting_value "ORCHESTRATOR_AGENT_ID" w), w)
    ∧ setting_value "PROJECT_ENDPOINT" w = endpoint +:+ slashes
    ∧ all_chars (is_char slash) slashes
    ∧ last_char endpoint ≠ Some slash
    ∧ (endpoint = "" ↔ all_chars (is_char slash) (setting_value "PROJECT_ENDPOINT" w)).
Proof.
  intros H1 H2.
  destruct (rstrip_spec (is_char slash) (setting_value "PROJECT_ENDPOINT" w))
    as (slashes & Hval & Hall & Hlast).
  exists (rstrip (is_char slash) (setting_value "PROJECT_ENDPOINT" w)), slashes.
  split; [|split; [done|split; [done|split]]].
  - unfold load_settings. unfold mbind, M_bind, bind.
    rewrite read_setting_required, bool_decide_eq_false_2 by done.
    by rewrite read_setting_required, bool_decide_eq_false_2 by done.
  - intros Hs. specialize (Hlast _ Hs). unfold is_char in Hlast.
    by rewrite bool_decide_eq_true_2 in Hlast.
  - split.
    + intros Hempty. rewrite Hval, Hempty. apply all_chars_app.
      split; [apply all_chars_nil|done].
    + intros Hsl. rewrite Hval in Hsl. apply all_chars_app in Hsl as [Hsl _].
      by eapply all_chars_empty_iff.
Qed.

Lemma load_settings_cuts_final_slashes_witness :
  ∃ endpoint slashes,
    load_settings dotenv_world
    = (Ret (endpoint, setting_value "ORCHESTRATOR_AGENT_ID" dotenv_world), dotenv_world)
    ∧ setting_value "PROJECT_ENDPOINT" dotenv_world = endpoint +:+ slashes
    ∧ all_chars (is_char slash) slashes
    ∧ last_char endpoint ≠ Some slash
    ∧ (endpoint = ""
       ↔ all_chars (is_char slash) (setting_value "PROJECT_ENDPOINT" dotenv_world)).
Proof.
  apply (load_settings_cuts_final_slashes dotenv_world); vm_compute; discriminate.
Defined.

(** The settings of [dotenv_world] as the script reads them. *)
Example load_settings_sample :
  load_settings dotenv_world = (Ret ("https://host/api/projects/p", "asst_orch"), dotenv_world).
Proof. vm_compute. reflexivity. Qed.

(** ** The agent chosen *)

Lemma agent_items_fmap data :
  agent_items data = (fun a => (agent_label a, assistant_id a)) <$> data.
Proof.
  unfold agent_items.
  enough (∀ acc, foldl (fun items a => items ++ [(agent_label a, assistant_id a)]) acc data
                 = acc ++ ((fun a => (agent_label a, assistant_id a)) <$> data)) as H
    by apply (H []).
  induction data as [|a data IH]; intros acc; [by rewrite app_nil_r|].
  cbn [foldl]. by rewrite IH, <- app_assoc.
Qed.

Lemma agent_items_ids data : (agent_items data).*2 = assistant_id <$> data.
Proof. rewrite agent_items_fmap, <- list_fmap_compose. done. Qed.

Lemma dict_snoc pairs p : dict (pairs ++ [p]) = <[p.1 := p.2]> (dict pairs).
Proof. unfold dict. by rewrite foldl_app. Qed.

(** [dict] maps a key to the value of the last pair that has it. *)
Lemma dict_lookup pairs k :
  dict pairs !! k = snd <$> last (filter (fun p : item => p.1 = k) pairs).
Proof.
  induction pairs as [|p pairs IH] using rev_ind; [done|].
  rewrite dict_snoc, filter_app, filter_cons, filter_nil.
  destruct (decide (p.1 = k)) as [<-|Hne].
  - by rewrite lookup_insert_eq, last_snoc.
  - by rewrite lookup_insert_ne, app_nil_r.
Qed.

Lemma st_selectbox_lookup options selected o :
  options !! selected = Some o → st_selectbox options selected = o.
Proof. unfold st_selectbox. by intros ->. Qed.

Lemma st_selectbox_elem options selected :
  options ≠ [] → st_selectbox options selected ∈ options.
Proof.
  intros Hne. unfold st_selectbox. destruct (options !! selected) as [o|] eqn:Ho.
  - by eapply list_elem_of_lookup_2.
  - destruct options; [done|left].
Qed.

Lemma last_filter_is_Some {A} (P : A → Prop) `{∀ x, Decision (P x)} (l : list A) x :
  x ∈ l → P x → is_Some (last (filter P l)).
Proof.
  intros Hx HP. destruct (last (filter P l)) eqn:Hl; [done|].
  apply last_None in Hl.
  assert (x ∈ filter P l) as Hin by (by apply list_elem_of_filter).
  rewrite Hl in Hin. by apply elem_of_nil in Hin.
Qed.

Lemma filter_none {A} (P : A → Prop) `{∀ x, Decision (P x)} (l : list A) :
  Forall (fun x => ¬ P x) l → filter P l = [].
Proof. induction 1 as [|x l Hx _ IH]; [done|]. by rewrite filter_cons_False. Qed.

Lemma orchestrator_listed ORCHESTRATOR_AGENT_ID items :
  ORCHESTRATOR_AGENT_ID ≠ "" →
  Some ORCHESTRATOR_AGENT_ID ∈ (with_orchestrator ORCHESTRATOR_AGENT_ID items).*2.
Proof.
  intros Hset. unfold with_orchestrator.
  rewrite (bool_decide_eq_false_2 (ORCHESTRATOR_AGENT_ID = "")) by done. cbn [negb andb].
  case_bool_decide as Hin; [rewrite fmap_cons; left|].
  by destruct (decide (Some ORCHESTRATOR_AGENT_ID ∈ items.*2)).
Qed.

(** What [choose_agent] does with a list that is not empty. *)
Lemma choose_agent_getitem ORCHESTRATOR_AGENT_ID data selected w :
  with_orchestrator ORCHESTRATOR_AGENT_ID (agent_items data) ≠ [] →
  choose_agent ORCHESTRATOR_AGENT_ID (inr data) selected w
  = getitem (dict (with_orchestrator ORCHESTRATOR_AGENT_ID (agent_items data)))
      (st_selectbox (with_orchestrator ORCHESTRATOR_AGENT_ID (agent_items data)).*1 selected)
      w.
Proof.
  intros Hne. unfold choose_agent, try_except, fetch_agents_list_rest.
  unfold mbind, M_bind, bind.
  by destruct (with_orchestrator ORCHESTRATOR_AGENT_ID (agent_items data)).
Qed.

Lemma choose_agent_listed ORCHESTRATOR_AGENT_ID data selected w :
  with_orchestrator ORCHESTRATOR_AGENT_ID (agent_items data) ≠ [] →
  let items := with_orchestrator ORCHESTRATOR_AGENT_ID (agent_items data) in
  let chosen := st_selectbox items.*1 selected in
  ∃ id, choose_agent ORCHESTRATOR_AGENT_ID (inr data) selected w = (Ret id, w)
        ∧ last (filter (fun it : item => it.1 = chosen) items) = Some (chosen, id).
Proof.
  intros Hne items chosen. rewrite choose_agent_getitem by done. fold items chosen.
  assert (chosen ∈ items.*1) as Hin.
  { apply st_selectbox_elem. by intros Hnil%fmap_nil_inv. }
  apply list_elem_of_fmap in Hin as (it & Hit & Hin).
  destruct (last_filter_is_Some (fun it : item => it.1 = chosen) items it Hin)
    as [[label id] Hlast]; [done|].
  pose proof (last_Some_elem_of _ _ Hlast) as [Hlabel _]%list_elem_of_filter.
  cbn [fst] in Hlabel. subst label.
  exists id. split; [|done]. unfold getitem. by rewrite dict_lookup, Hlast.
Qed.

(** X5. With the id of the orchestrator set, the choice of an agent ends in
    one of two ways. When the list of agents could not be fetched, the page
    gains the error that says so and the script stops. Otherwise the list
    holds the orchestrator, and the choice returns the id of one of its
    entries, that of the label selected, and puts nothing on the page: the
    error of an empty list is never shown and the lookup of the label never
    fails. *)
Theorem choose_agent_stops_or_chooses ORCHESTRATOR_AGENT_ID listed selected w :
  ORCHESTRATOR_AGENT_ID ≠ "" →
  match listed with
  | inl e =>
      choose_agent ORCHESTRATOR_AGENT_ID listed selected w
      = (Stop, set_ui (ui w ++ [UiError ("Failed to list agents: " +:+ e)]) w)
  | inr data =>
      let items := with_orchestrator ORCHESTRATOR_AGENT_ID (agent_items data) in
      Some ORCHESTRATOR_AGENT_ID ∈ items.*2
      ∧ ∃ id, choose_agent ORCHESTRATOR_AGENT_ID listed selected w = (Ret id, w)
              ∧ (st_selectbox items.*1 selected, id) ∈ items
  end.
Proof.
  intros Hset. destruct listed as [e|data]; [done|].
  pose proof (orchestrator_listed ORCHESTRATOR_AGENT_ID (agent_items data) Hset) as Horch.
  intros items. split; [done|].
  destruct (choose_agent_listed ORCHESTRATOR_AGENT_ID data selected w) as (id & Hc & Hlast).
  { intros Hnil. rewrite Hnil in Horch. by apply elem_of_nil in Horch. }
  exists id. split; [done|].
  by apply last_Some_elem_of, list_elem_of_filter in Hlast as [_ ?].
Qed.

Lemma choose_agent_stops_or_chooses_witness :
  choose_agent "asst_orch" (inl "503 Server Error") 0 sample_world
  = (Stop, set_ui (ui sample_world
                   ++ [UiError ("Failed to list agents: " +:+ "503 Server Error")])
             sample_world).
Proof.
  apply (choose_agent_stops_or_chooses "asst_orch" (inl "503 Server Error") 0 sample_world).
  discriminate.
Defined.

(** X6. The agent that the page acts on is the one that [dict] keeps for
    the label selected: the last entry of the list under that label. It is
    the entry selected when no later entry has its label. *)
Theorem chosen_agent_is_last_with_label ORCHESTRATOR_AGENT_ID data selected w label id :
  with_orchestrator ORCHESTRATOR_AGENT_ID (agent_items data) !! selected = Some (label, id) →
  let items := with_orchestrator ORCHESTRATOR_AGENT_ID (agent_items data) in
  ∃ chosen_agent_id,
    choose_agent ORCHESTRATOR_AGENT_ID (inr data) selected w = (Ret chosen_agent_id, w)
    ∧ last (filter (fun it : item => it.1 = label) items) = Some (label, chosen_agent_id)
    ∧ ((∀ j it, selected < j → items !! j = Some it → it.1 ≠ label) →
       chosen_agent_id = id).
Proof.
  intros Hsel items.
  destruct (choose_agent_listed ORCHESTRATOR_AGENT_ID data selected w) as (cid & Hc & Hlast).
  { intros Hnil. by rewrite Hnil in Hsel. }
  fold items in Hlast, Hsel.
  assert (st_selectbox items.*1 selected = label) as Hchosen.
  { apply st_selectbox_lookup. by rewrite list_lookup_fmap, Hsel. }
  rewrite Hchosen in Hlast. exists cid. split; [done|]. split; [done|].
  intros Hlater.
  rewrite <- (take_drop_middle _ _ _ Hsel) in Hlast.
  rewrite filter_app, filter_cons_True in Hlast by done.
  rewrite (filter_none _ (drop (S selected) items)), last_snoc in Hlast; [congruence|].
  apply Forall_forall. intros it [j Hj]%list_elem_of_lookup.
  rewrite lookup_drop in Hj. eapply Hlater; [|exact Hj]. lia.
Qed.

Lemma chosen_agent_is_last_with_label_witness :
  ∃ chosen_agent_id,
    choose_agent "asst_orch" (inr sample_agents) 2 sample_world
    = (Ret chosen_agent_id, sample_world)
    ∧ last (filter (fun it : item => it.1 = Some "asst_2")
              (with_orchestrator "asst_orch" (agent_items sample_agents)))
      = Some (Some "asst_2", chosen_agent_id)
    ∧ ((∀ j it, 2 < j →
          with_orchestrator "asst_orch" (agent_items sample_agents) !! j = Some it →
          it.1 ≠ Some "asst_2") →
       chosen_agent_id = Some "asst_2").
Proof.
  apply (chosen_agent_is_last_with_label "asst_orch" sample_agents 2 sample_world
           (Some "asst_2") (Some "asst_2")).
  vm_compute. reflexivity.
Defined.

(** The list made of [sample_agents], and the agent chosen with the first
    [Analyst] selected: the second one. *)
Example second_analyst_is_chosen :
  with_orchestrator "asst_orch" (agent_items sample_agents)
  = [(Some "Orchestrator", Some "asst_orch"); (Some "Analyst", Some "asst_1");
     (Some "asst_2", Some "asst_2"); (Some "Analyst", Some "asst_3")]
  ∧ choose_agent "asst_orch" (inr sample_agents) 1 sample_world
    = (Ret (Some "asst_3"), sample_world).
Proof. vm_compute. by split. Qed.

(** X7. When an agent that the service lists shows as [Orchestrator] and
    the id of the orchestrator is not among the ids listed, the entry put
    first for the orchestrator cannot be chosen: whatever is selected, the
    agent chosen is another one. *)
Theorem agent_named_orchestrator_hides_it ORCHESTRATOR_AGENT_ID data selected w :
  ORCHESTRATOR_AGENT_ID ≠ "" →
  Some ORCHESTRATOR_AGENT_ID ∉ (assistant_id <$> data) →
  Exists (fun a => agent_label a = Some "Orchestrator") data →
  ∃ chosen_agent_id,
    choose_agent ORCHESTRATOR_AGENT_ID (inr data) selected w = (Ret chosen_agent_id, w)
    ∧ chosen_agent_id ≠ Some ORCHESTRATOR_AGENT_ID.
Proof.
  intros Hset Hnew Hnamed.
  assert (with_orchestrator ORCHESTRATOR_AGENT_ID (agent_items data)
          = (Some "Orchestrator", Some ORCHESTRATOR_AGENT_ID) :: agent_items data) as Hitems.
  { unfold with_orchestrator.
    rewrite (bool_decide_eq_false_2 (ORCHESTRATOR_AGENT_ID = "")) by done.
    by rewrite agent_items_ids, bool_decide_eq_true_2. }
  destruct (choose_agent_listed ORCHESTRATOR_AGENT_ID data selected w) as (cid & Hc & Hlast).
  { by rewrite Hitems. }
  exists cid. split; [done|]. intros ->.
  rewrite Hitems in Hlast.
  set (chosen := st_selectbox
                   ((Some "Orchestrator", Some ORCHESTRATOR_AGENT_ID) :: agent_items data).*1
                   selected) in *.
  assert (∀ it, it ∈ filter (fun it : item => it.1 = chosen) (agent_items data) →
                it.2 ≠ Some ORCHESTRATOR_AGENT_ID) as Hothers.
  { intros it [_ Hit]%list_elem_of_filter Hid. apply Hnew.
    rewrite <- agent_items_ids, <- Hid. apply list_elem_of_fmap. eauto. }
  rewrite filter_cons in Hlast. destruct (decide _) as [Hlabel|Hlabel].
  - rewrite last_cons in Hlast.
    destruct (last (filter _ (agent_items data))) as [it|] eqn:Hl.
    + injection Hlast as ->. apply last_Some_elem_of in Hl. by apply Hothers in Hl.
    + apply last_None in Hl. cbn [fst] in Hlabel.
      apply Exists_exists in Hnamed as (a & Ha & Hname).
      assert ((agent_label a, assistant_id a)
              ∈ filter (fun it : item => it.1 = chosen) (agent_items data)) as Hin.
      { apply list_elem_of_filter. split; [cbn; congruence|].
        rewrite agent_items_fmap. apply list_elem_of_fmap. eauto. }
      rewrite Hl in Hin. by apply elem_of_nil in Hin.
  - apply last_Some_elem_of in Hlast. by apply Hothers in Hlast.
Qed.

Lemma agent_named_orchestrator_hides_it_witness :
  ∃ chosen_agent_id,
    choose_agent "asst_orch"
      (inr [{| assistant_name := Some "Orchestrator"; assistant_id := Some "asst_9" |}])
      0 sample_world
    = (Ret chosen_agent_id, sample_world)
    ∧ chosen_agent_id ≠ Some "asst_orch".
Proof.
  apply (agent_named_orchestrator_hides_it "asst_orch"
           [{| assistant_name := Some "Orchestrator"; assistant_id := Some "asst_9" |}]
           0 sample_world).
  - discriminate.
  - vm_compute. intros H.
    repeat (apply elem_of_cons in H as [H|H]; [discriminate|]).
    by apply elem_of_nil in H.
  - apply Exists_cons_hd. vm_compute. reflexivity.
Defined.

(** ** One click on Run *)

Lemma shown_app w w' events : ui w' = ui w ++ events → shown w w' = events.
Proof. unfold shown. intros ->. by rewrite drop_app_length. Qed.

(** Every way the loop of lines 237-240 can go: after some fetches that
    were answered, it has a status outside the set, or no answer to wait
    for, or a fetch that raises. *)
Lemma poll_cases thread run_id replies : ∀ status w,
  ∃ n, (∃ final, (status_str final ∉ polling)
          ∧ poll thread run_id replies status w = (Ret final, polled thread run_id n w))
       ∨ poll thread run_id replies status w = (Hang, polled thread run_id n w)
       ∨ (∃ e, poll thread run_id replies status w
               = (Raise e,
                  set_trace (trace (polled thread run_id n w)
                             ++ [(RunsGet thread run_id, Failed e)])
                    (set_slept (slept (polled thread run_id n w) + 2)
                       (polled thread run_id n w)))).
Proof.
  induction replies as [|reply replies IH]; intros status w.
  - exists 0. rewrite polled_0. destruct (decide (status_str status ∈ polling)) as [Hin|Hout].
    + right. left. cbn [poll]. by rewrite bool_decide_eq_true_2.
    + left. exists status. split; [done|]. by apply poll_exit.
  - destruct (decide (status_str status ∈ polling)) as [Hin|Hout].
    2: { exists 0. rewrite polled_0. left. exists status. split; [done|]. by apply poll_exit. }
    destruct reply as [e|status'].
    + exists 0. rewrite polled_0. right. right. exists e.
      cbn [poll]. by rewrite bool_decide_eq_true_2.
    + rewrite poll_fetch by done.
      destruct (IH status' (polled thread run_id 1 w)) as (n & Hn). exists (S n).
      rewrite polled_polled in Hn. exact Hn.
Qed.

Lemma prompt_of_spec question :
  (if bool_decide (question = "") then "Please analyze the uploaded file." else question)
  = prompt_of question.
Proof. by destruct question. Qed.

(** What the page gains from the messages listed for a run. *)
Lemma show_run_output_listed thread run_id msgs w :
  show_run_output thread run_id (inr msgs) w
  = (Ret tt, set_ui (ui w ++ output_of run_id msgs)
               (set_trace (trace w ++ [(MessagesList thread run_id, Done)]) w)).
Proof.
  unfold show_run_output, messages_list, told. unfold mbind, mret, M_bind, M_ret, bind, ret.
  rewrite collect_chunks_run_text. unfold output_of.
  destruct (run_text run_id msgs) as [|c chunks]; [done|].
  unfold st_markdown, st_write, emit, set_ui. wsimpl. by rewrite <- app_assoc.
Qed.

Lemma show_run_output_failed thread run_id e w :
  show_run_output thread run_id (inl e) w
  = (Raise e, set_trace (trace w ++ [(MessagesList thread run_id, Failed e)]) w).
Proof. done. Qed.

Section FromTheMessage.

Context (thread orchestrator content : string) (files : list string) (rp : run_replies).

(** Every way the handler can go from the message on, by the calls issued
    and the events shown: the message fails; the run cannot be created; the
    loop does not end, or a fetch of it fails, after [n] fetches; the
    messages cannot be listed; or they are listed and shown. *)
Lemma from_the_message_cases w :
  ∃ r w' calls events,
    from_the_message thread orchestrator content files rp w = (r, w')
    ∧ ses w' = ses w ∧ srv w' = srv w
    ∧ trace w' = trace w ++ calls ∧ ui w' = ui w ++ events
    ∧ ((∃ e, r = Raise e
             ∧ calls = [(MessagesCreate thread content files, Failed e)]
             ∧ events = [])
       ∨ (∃ e, r = Raise e
               ∧ calls = [(MessagesCreate thread content files, Done);
                          (RunsCreate thread orchestrator, Failed e)]
               ∧ events = [])
       ∨ (∃ run_id n,
            let sent := [(MessagesCreate thread content files, Done);
                         (RunsCreate thread orchestrator, Done)]
                        ++ replicate n (RunsGet thread run_id, Done) in
            (r = Hang ∧ calls = sent ∧ events = [])
            ∨ (∃ e, r = Raise e
                    ∧ calls = sent ++ [(RunsGet thread run_id, Failed e)]
                    ∧ events = [])
            ∨ (∃ final e, (status_str final ∉ polling) ∧ r = Raise e
                    ∧ calls = sent ++ [(MessagesList thread run_id, Failed e)]
                    ∧ events = [UiInfo ("Run status: " +:+ fstr_status final)])
            ∨ (∃ final msgs, (status_str final ∉ polling) ∧ r = Ret tt
                    ∧ on_messages_list rp = inr msgs
                    ∧ calls = sent ++ [(MessagesList thread run_id, Done)]
                    ∧ events = UiInfo ("Run status: " +:+ fstr_status final)
                               :: output_of run_id msgs))).
Proof.
  unfold from_the_message, run_and_wait.
  unfold mbind, M_bind, bind, told.
  destruct (on_message_create rp) as [e|[]].
  { eexists _, _, [_], []. split; [reflexivity|]. wsimpl. rewrite app_nil_r.
    do 4 (split; [reflexivity|]). left. eauto. }
  wsimpl. destruct (on_run_create rp) as [e|[run_id status]].
  { eexists _, _, [_; _], []. split; [reflexivity|]. wsimpl.
    rewrite <- !app_assoc, app_nil_r.
    do 4 (split; [reflexivity|]). right. left. eauto. }
  cbn [fst snd].
  match goal with |- context [poll _ _ _ _ ?w0] =>
    destruct (poll_cases thread run_id (on_run_get rp) status w0)
      as (n & [(final & Hfinal & ->)|[->|(e & ->)]]) end.
  - unfold st_info, emit, mret, M_ret, ret.
    destruct (on_messages_list rp) as [e|msgs] eqn:Hlist.
    + rewrite show_run_output_failed.
      eexists _, _, (_ :: _ :: replicate n _ ++ [_]), [_]. split; [reflexivity|]. wsimpl.
      rewrite <- !app_assoc.
      do 4 (split; [reflexivity|]). do 2 right. exists run_id, n. do 2 right. left.
      exists final, e. by repeat split.
    + rewrite show_run_output_listed.
      eexists _, _, (_ :: _ :: replicate n _ ++ [_]), (_ :: output_of run_id msgs).
      split; [reflexivity|]. wsimpl. rewrite <- !app_assoc.
      do 4 (split; [reflexivity|]). do 2 right. exists run_id, n. do 3 right.
      exists final, msgs. by repeat split.
  - eexists _, _, (_ :: _ :: replicate n _), []. split; [reflexivity|]. wsimpl.
    rewrite <- !app_assoc, app_nil_r.
    do 4 (split; [reflexivity|]). do 2 right. exists run_id, n. left. by repeat split.
  - eexists _, _, (_ :: _ :: replicate n _ ++ [_]), []. split; [reflexivity|]. wsimpl.
    rewrite <- !app_assoc, app_nil_r.
    do 4 (split; [reflexivity|]). do 2 right. exists run_id, n. right. left.
    exists e. by repeat split.
Qed.

End FromTheMessage.

Lemma set_ses_id w : set_ses (ses w) w = w.
Proof. by destruct w. Qed.

(** The Run handler up to the message: the thread it holds or creates, and
    the note of the file attached. *)
Lemma run_button_from_the_message orchestrator question rp w :
  run_button orchestrator question rp w
  = match thread_id (ses w) with
    | Some t =>
        from_the_message t orchestrator (prompt_of question) (attached (ses w)) rp
          (set_ses (noted (ses w)) w)
    | None =>
        match on_thread_create rp with
        | inl e => (Raise e, set_trace (trace w ++ [(ThreadsCreate, Failed e)]) w)
        | inr t =>
            from_the_message t orchestrator (prompt_of question) (attached (ses w)) rp
              (set_ses (noted (thread_started t (ses w)))
                 (set_trace (trace w ++ [(ThreadsCreate, Done)]) w))
        end
    end.
Proof.
  unfold run_button. rewrite prompt_of_spec. unfold mbind, M_bind, bind, get_session.
  destruct (thread_id (ses w)) as [t|] eqn:Ht.
  - unfold mret, M_ret, ret, noted, attached.
    destruct (ses_file_id (ses w)) as [[|c fid]|] eqn:Hf; cbn [truthy];
      rewrite ?set_ses_id; try done.
    rewrite bool_decide_eq_false_2 by done. cbn [negb]. unfold log. by rewrite Hf.
  - unfold told. destruct (on_thread_create rp) as [e|t]; [done|].
    unfold set_thread_id, log, mret, M_ret, ret, noted, thread_started, attached. wsimpl.
    destruct (ses_file_id (ses w)) as [[|c fid]|] eqn:Hf; cbn [truthy]; done.
Qed.

Lemma noted_ids s :
  thread_id (noted s) = thread_id s ∧ ses_file_id (noted s) = ses_file_id s.
Proof. unfold noted. by destruct (attached s). Qed.

(** The calls of a run from the message on create no thread. *)
Ltac no_thread_create :=
  repeat first
    [ apply Forall_nil_2
    | apply Forall_cons; split; [discriminate|]
    | apply Forall_app; split
    | apply Forall_replicate; discriminate ].

(** From the message on, the first call is the message, no thread is
    created, and the session is left as it is. *)
Lemma from_the_message_calls thread orchestrator content files rp w :
  let w' := (from_the_message thread orchestrator content files rp w).2 in
  ses w' = ses w
  ∧ ∃ res rest,
      trace w' = trace w ++ (MessagesCreate thread content files, res) :: rest
      ∧ Forall (fun c => c.1 ≠ ThreadsCreate) rest.
Proof.
  destruct (from_the_message_cases thread orchestrator content files rp w)
    as (r & w' & calls & events & -> & Hses & _ & Htr & _ & Hcases).
  cbn [snd]. split; [done|]. rewrite Htr.
  destruct Hcases as [(e & _ & -> & _)|[(e & _ & -> & _)|(run_id & n & Hc)]];
    [eexists _, _; split; [reflexivity|no_thread_create]..|].
  destruct Hc as [(_ & -> & _)|[(e & _ & -> & _)|[(final & e & _ & _ & -> & _)
                 |(final & msgs & _ & _ & _ & -> & _)]]];
    eexists _, _; (split; [reflexivity|no_thread_create]).
Qed.

(** The Run handler in a session that holds a thread. *)
Lemma run_button_held orchestrator question rp t w :
  thread_id (ses w) = Some t →
  let w' := (run_button orchestrator question rp w).2 in
  thread_id (ses w') = Some t
  ∧ ses_file_id (ses w') = ses_file_id (ses w)
  ∧ ∃ res rest,
      issued w w' = (MessagesCreate t (prompt_of question) (attached (ses w)), res) :: rest
      ∧ Forall (fun c => c.1 ≠ ThreadsCreate) rest.
Proof.
  intros Ht w'. subst w'. rewrite run_button_from_the_message, Ht.
  match goal with |- context [from_the_message _ _ _ _ _ ?w0] =>
    destruct (from_the_message_calls t orchestrator (prompt_of question)
                (attached (ses w)) rp w0) as (Hses & res & rest & Htr & Hrest) end.
  rewrite Hses. wsimpl. destruct (noted_ids (ses w)) as [-> ->].
  split; [done|]. split; [done|]. exists res, rest. by rewrite (issued_app _ _ _ Htr).
Qed.

(** X8. The Run handler sends the question to the thread that the session
    holds and creates none; with no thread in the session it creates one
    first, and the session holds it from then on, however the run ends. The
    message carries the question, or the standard request when the box is
    empty, and the file last uploaded, if there is one; the session keeps
    that file for the runs to come. When the thread cannot be created the
    handler ends with the exception of that call. *)
Theorem run_button_keeps_thread orchestrator question rp w :
  let w' := (run_button orchestrator question rp w).2 in
  ses_file_id (ses w') = ses_file_id (ses w)
  ∧ match thread_id (ses w), on_thread_create rp with
    | Some t, _ =>
        thread_id (ses w') = Some t
        ∧ ∃ res rest,
            issued w w' = (MessagesCreate t (prompt_of question) (attached (ses w)), res) :: rest
            ∧ Forall (fun c => c.1 ≠ ThreadsCreate) rest
    | None, inr t =>
        thread_id (ses w') = Some t
        ∧ ∃ res rest,
            issued w w' = (ThreadsCreate, Done)
                          :: (MessagesCreate t (prompt_of question) (attached (ses w)), res)
                          :: rest
            ∧ Forall (fun c => c.1 ≠ ThreadsCreate) rest
    | None, inl e =>
        run_button orchestrator question rp w
        = (Raise e, set_trace (trace w ++ [(ThreadsCreate, Failed e)]) w)
    end.
Proof.
  intros w'. subst w'.
  destruct (thread_id (ses w)) as [t|] eqn:Ht.
  { destruct (run_button_held orchestrator question rp t w Ht) as (? & ? & ?). by split. }
  rewrite run_button_from_the_message, Ht. destruct (on_thread_create rp) as [e|t]; [done|].
  match goal with |- context [from_the_message _ _ _ _ _ ?w0] =>
    destruct (from_the_message_calls t orchestrator (prompt_of question)
                (attached (ses w)) rp w0) as (Hses & res & rest & Htr & Hrest) end.
  rewrite Hses. wsimpl. destruct (noted_ids (thread_started t (ses w))) as [-> ->].
  split; [done|]. split; [done|]. exists res, rest. split; [|done].
  wsimpl. rewrite <- app_assoc in Htr. by rewrite (issued_app _ _ _ Htr).
Qed.

Lemma ended_by_answered {A} (r : outcome A) calls :
  (∀ e, r ≠ Raise e) → Forall (fun c => c.2 = Done) calls → ended_by r calls.
Proof.
  intros Hr Hall. split.
  - intros rq e Hin. eapply Forall_forall in Hall; [|exact Hin]. done.
  - intros e He. by destruct (Hr e).
Qed.

Lemma ended_by_failure {A} calls rq e :
  Forall (fun c => c.2 = Done) calls → ended_by (@Raise A e) (calls ++ [(rq, Failed e)]).
Proof.
  intros Hall. split.
  - intros rq' e' [Hin|Hin]%elem_of_app.
    + eapply Forall_forall in Hall; [|exact Hin]. done.
    + apply list_elem_of_singleton in Hin. injection Hin as -> ->. by rewrite last_snoc.
  - intros e' [= <-]. exists rq. by rewrite last_snoc.
Qed.

Lemma ended_by_cons {A} (r : outcome A) rq calls :
  ended_by r calls → ended_by r ((rq, Done) :: calls).
Proof.
  intros [Hfailed Hraise]. split.
  - intros rq' e [Hin|Hin]%elem_of_cons; [done|].
    destruct (Hfailed _ _ Hin) as [-> Hlast]. split; [done|].
    rewrite last_cons. by rewrite Hlast.
  - intros e He. destruct (Hraise e He) as [rq' Hlast]. exists rq'.
    rewrite last_cons. by rewrite Hlast.
Qed.

(** The calls of a run from the message on are answered. *)
Ltac answered :=
  repeat first
    [ apply Forall_nil_2
    | apply Forall_cons; split; [reflexivity|]
    | apply Forall_app; split
    | apply Forall_replicate; reflexivity ].

Ltac no_errors :=
  repeat first [apply Forall_nil_2 | apply Forall_cons; split; [by intros []|]].

Lemma from_the_message_ended thread orchestrator content files rp w :
  let r := (from_the_message thread orchestrator content files rp w).1 in
  let w' := (from_the_message thread orchestrator content files rp w).2 in
  ended_by r (issued w w') ∧ Forall (fun ev => ¬ is_error ev) (shown w w').
Proof.
  destruct (from_the_message_cases thread orchestrator content files rp w)
    as (r & w' & calls & events & -> & _ & _ & Htr & Hui & Hcases).
  cbn [fst snd]. rewrite (issued_app _ _ _ Htr), (shown_app _ _ _ Hui).
  destruct Hcases as [(e & -> & -> & ->)|[(e & -> & -> & ->)|(run_id & n & Hc)]].
  - split; [|done]. apply (ended_by_failure []). answered.
  - split; [|done]. apply (ended_by_failure [_]). answered.
  - destruct Hc as [(-> & -> & ->)|[(e & -> & -> & ->)|[(final & e & _ & -> & -> & ->)
                   |(final & msgs & _ & -> & _ & -> & ->)]]].
    + split; [|done]. apply ended_by_answered; [by intros ?|answered].
    + split; [|done]. apply (ended_by_failure (_ :: _ :: _)). answered.
    + split; [|no_errors]. apply (ended_by_failure (_ :: _ :: _)). answered.
    + split; [apply ended_by_answered; [by intros ?|answered]|].
      unfold output_of. destruct (run_text run_id msgs); no_errors.
Qed.

(** X9. The Run handler catches nothing: a call of its own that fails is
    the last call it makes, and the handler ends with the exception of
    that call; it raises in no other way. No error is put on the page, and
    the agents and files of the service are as they were. *)
Theorem run_button_failures_escape orchestrator question rp w :
  let r := (run_button orchestrator question rp w).1 in
  let w' := (run_button orchestrator question rp w).2 in
  ended_by r (issued w w')
  ∧ Forall (fun ev => ¬ is_error ev) (shown w w')
  ∧ srv w' = srv w.
Proof.
  intros r w'. subst r w'. rewrite run_button_from_the_message.
  destruct (thread_id (ses w)) as [t|] eqn:Ht; [|destruct (on_thread_create rp) as [e|t]].
  - match goal with |- context [from_the_message _ _ _ _ _ ?w0] =>
      pose proof (from_the_message_ended t orchestrator (prompt_of question)
                    (attached (ses w)) rp w0) as [Hend Hshown];
      destruct (from_the_message_cases t orchestrator (prompt_of question)
                  (attached (ses w)) rp w0)
        as (r & w' & calls & events & Hrun & _ & Hsrv & _) end.
    rewrite Hrun in *. cbn [fst snd] in *.
    split; [exact Hend|split; [exact Hshown|exact Hsrv]].
  - cbn [fst snd]. split.
    { erewrite issued_app by (wsimpl; reflexivity). apply (ended_by_failure []). answered. }
    split; [|done]. unfold shown. wsimpl. by rewrite drop_all.
  - match goal with |- context [from_the_message _ _ _ _ _ ?w0] =>
      pose proof (from_the_message_ended t orchestrator (prompt_of question)
                    (attached (ses w)) rp w0) as [Hend Hshown];
      destruct (from_the_message_cases t orchestrator (prompt_of question)
                  (attached (ses w)) rp w0)
        as (r & w' & calls & events & Hrun & _ & Hsrv & Htr & _) end.
    rewrite Hrun in *. cbn [fst snd] in *. split; [|split; [exact Hshown|exact Hsrv]].
    erewrite issued_app in Hend by exact Htr.
    wsimpl. rewrite <- app_assoc in Htr. rewrite (issued_app _ _ _ Htr).
    by apply ended_by_cons.
Qed.

(** The loop over the statuses of a run: those of [waiting], in the set,
    then [final], outside it. The first is the status of the run created,
    the others are fetched. *)
Lemma poll_waiting thread run_id waiting final later w :
  Forall (fun s => status_str s ∈ polling) waiting → status_str final ∉ polling →
  poll thread run_id ((inr <$> tail (waiting ++ [final])) ++ later)
    (default final (head waiting)) w
  = (Ret final, polled thread run_id (length waiting) w).
Proof.
  intros Hall Hfinal. destruct waiting as [|s ws].
  - cbn [app tail head default length]. rewrite polled_0. by apply poll_exit.
  - cbn [app tail head default length]. rewrite fmap_app, <- app_assoc.
    by apply poll_until_terminal.
Qed.

(** X10. One click on Run with every call answered, the session holding
    the thread: the handler sends the message, creates the run, fetches it
    once for every status of the set that it sees, two seconds apart, and
    with the first status outside the set, whichever it is, lists the
    messages of the run. The page gains that status, as an f-string prints
    it (a member of [RunStatus] by its name, any other status as it came),
    and then the text of the assistant for the run, or the warning that
    there is none. *)
Theorem run_button_shows_the_run orchestrator question rp w t run_id waiting final later msgs :
  thread_id (ses w) = Some t →
  on_message_create rp = inr tt →
  on_run_create rp = inr (run_id, default final (head waiting)) →
  on_run_get rp = (inr <$> tail (waiting ++ [final])) ++ later →
  Forall (fun s => status_str s ∈ polling) waiting →
  status_str final ∉ polling →
  on_messages_list rp = inr msgs →
  ∃ w', run_button orchestrator question rp w = (Ret tt, w')
    ∧ issued w w'
      = (MessagesCreate t (prompt_of question) (attached (ses w)), Done)
        :: (RunsCreate t orchestrator, Done)
        :: replicate (length waiting) (RunsGet t run_id, Done)
        ++ [(MessagesList t run_id, Done)]
    ∧ shown w w'
      = UiInfo ("Run status: "
                +:+ match final with
                    | Member name _ => "RunStatus." +:+ name
                    | Plain value => value
                    end)
        :: output_of run_id msgs
    ∧ slept w' = slept w + 2 * length waiting
    ∧ ses w' = noted (ses w)
    ∧ srv w' = srv w.
Proof.
  intros Ht Hmsg Hcreate Hget Hwait Hfinal Hlist.
  rewrite run_button_from_the_message, Ht.
  unfold from_the_message, run_and_wait, told. unfold mbind, M_bind, bind.
  rewrite Hmsg, Hcreate, Hget, Hlist. cbn [fst snd].
  rewrite poll_waiting by done.
  unfold st_info, emit, mret, M_ret, ret. rewrite show_run_output_listed.
  eexists. split; [reflexivity|]. wsimpl. repeat split.
  - erewrite issued_app; [reflexivity|]. wsimpl. by rewrite <- !app_assoc.
  - erewrite shown_app; [reflexivity|]. wsimpl. by rewrite <- app_assoc.
Qed.

Lemma run_button_shows_the_run_witness :
  ∃ w', run_button "orchestrator" "" sample_replies
          (set_ses {| thread_id := Some "t0"; ses_file_id := Some "id3"; logs := [] |}
             sample_world)
        = (Ret tt, w')
    ∧ issued (set_ses {| thread_id := Some "t0"; ses_file_id := Some "id3"; logs := [] |}
                sample_world) w'
      = (MessagesCreate "t0" (prompt_of "") ["id3"], Done)
        :: (RunsCreate "t0" "orchestrator", Done)
        :: replicate 2 (RunsGet "t0" "r1", Done)
        ++ [(MessagesList "t0" "r1", Done)]
    ∧ shown (set_ses {| thread_id := Some "t0"; ses_file_id := Some "id3"; logs := [] |}
               sample_world) w'
      = UiInfo "Run status: RunStatus.COMPLETED" :: output_of "r1" sample_thread
    ∧ slept w' = 0 + 2 * 2
    ∧ ses w' = noted {| thread_id := Some "t0"; ses_file_id := Some "id3"; logs := [] |}
    ∧ srv w' = srv sample_world.
Proof.
  apply (run_button_shows_the_run "orchestrator" "" sample_replies
           (set_ses {| thread_id := Some "t0"; ses_file_id := Some "id3"; logs := [] |}
              sample_world)
           "t0" "r1" [QUEUED; IN_PROGRESS] COMPLETED [] sample_thread).
  - reflexivity.
  - reflexivity.
  - reflexivity.
  - reflexivity.
  - repeat constructor.
  - vm_compute. intros H.
    repeat (apply elem_of_cons in H as [H|H]; [discriminate|]).
    by apply elem_of_nil in H.
  - reflexivity.
Defined.

(** ** A new thread *)

(** X11. A click on New thread that is answered puts the new thread in
    the session, empties the log and keeps the file last uploaded: the
    next Run, in whatever state the rest of the world is, sends its message
    to the new thread, with that file, and creates no thread. When the
    thread cannot be created the script ends with the exception of the
    call, the session being as it was. *)
Theorem new_thread_keeps_the_file created w :
  match created with
  | inr t =>
      ∃ w1, new_thread created w = (Ret tt, w1)
        ∧ ses w1 = {| thread_id := Some t; ses_file_id := ses_file_id (ses w); logs := [] |}
        ∧ issued w w1 = [(ThreadsCreate, Done)]
        ∧ shown w w1 = [UiSuccess ("Started a new thread: " +:+ t)]
        ∧ srv w1 = srv w
        ∧ ∀ w2 orchestrator question rp,
            ses w2 = ses w1 →
            ∃ res rest,
              issued w2 (run_button orchestrator question rp w2).2
              = (MessagesCreate t (prompt_of question) (attached (ses w)), res) :: rest
              ∧ Forall (fun c => c.1 ≠ ThreadsCreate) rest
  | inl e =>
      new_thread created w = (Raise e, set_trace (trace w ++ [(ThreadsCreate, Failed e)]) w)
  end.
Proof.
  destruct created as [e|t]; [done|].
  eexists. split; [reflexivity|]. wsimpl. split; [done|].
  split; [by erewrite issued_app by (wsimpl; reflexivity)|].
  split; [by erewrite shown_app by (wsimpl; reflexivity)|].
  split; [done|].
  intros w2 orchestrator question rp Hses.
  destruct (run_button_held orchestrator question rp t w2) as (_ & _ & res & rest & Hi & Hr).
  { by rewrite Hses. }
  exists res, rest. split; [|done]. rewrite Hi. unfold attached. by rewrite Hses.
Qed.

(** ** What a delete touches *)

(** The delete of a file whose failure is passed over: the call fails and
    the service is as it was, or it is served and the file is gone. *)
Lemma best_effort_files_delete_cases fid w :
  (∃ e, best_effort (files_delete fid) w = (Ret tt, logged (FilesDelete fid) (Failed e) w)
        ∧ (net w = [] ∨ head (net w) = Some None → files (srv w) !! fid = None))
  ∨ (is_Some (files (srv w) !! fid)
     ∧ best_effort (files_delete fid) w
       = (Ret tt, logged (FilesDelete fid) Done
                    (set_srv {| agents := agents (srv w);
                                files := delete fid (files (srv w)) |} w))).
Proof.
  unfold best_effort, files_delete, try_except, call.
  destruct (net w) as [|[e|] rest] eqn:Hnet.
  - destruct (files (srv w) !! fid) eqn:Hf; [right; by eauto|left]. exists not_found. by split.
  - left. exists e. split; [done|]. by intros [|[=]].
  - destruct (files (srv w) !! fid) eqn:Hf; [right; by eauto|left]. exists not_found. by split.
Qed.

(** Every way [delete_clicked] can go, with what it leaves of the service
    and of the session. *)
Lemma delete_clicked_worlds agent_id rows f w :
  (∃ e w', delete_clicked agent_id rows f w = (Ret tt, w')
           ∧ srv w' = srv w ∧ ses w' = ses w
           ∧ ui w' = ui w ++ [UiError ("Delete failed: " +:+ e)])
  ∨ (∃ a w' res,
        agents (srv w) !! agent_id = Some a
        ∧ delete_clicked agent_id rows f w = (Rerun, w')
        ∧ ses w' = ses w
        ∧ agents (srv w')
          = <[agent_id := {| agent_tools := Some (body_tools a);
                             tool_resources := ci_resources (remaining rows f) |}]> (agents (srv w))
        ∧ ui w' = ui w ++ [UiSuccess ("Deleted " +:+ fstr (filename f)
                                       +:+ " from CI and project.")]
        ∧ trace w' = trace w ++ [(GetAgent agent_id, Done);
                                 (PostAgent agent_id (body_tools a) (remaining rows f), Done);
                                 (FilesDelete (file_id f), res)]
        ∧ match res with
          | Done => is_Some (files (srv w) !! file_id f)
                    ∧ files (srv w') = delete (file_id f) (files (srv w))
          | Failed _ => files (srv w') = files (srv w)
          end).
Proof.
  destruct (set_agent_ci_file_ids_cases agent_id (remaining rows f) w)
    as [[e He]|(a & Ha & [[e He]|He])].
  - left. exists e. eexists. unfold delete_clicked, try_except.
    unfold mbind, M_bind, bind. rewrite He. unfold st_error, emit. by repeat split.
  - left. exists e. eexists. unfold delete_clicked, try_except.
    unfold mbind, M_bind, bind. rewrite He. unfold st_error, emit. by repeat split.
  - right. exists a.
    match type of He with _ = (_, ?w2) =>
      destruct (best_effort_files_delete_cases (file_id f) w2)
        as [(e & Hd & _)|(Hsome & Hd)] end.
    + eexists. exists (Failed e). split; [done|]. split.
      { unfold delete_clicked, try_except. unfold mbind, M_bind, bind.
        rewrite He, Hd. unfold st_success, emit, st_rerun. reflexivity. }
      wsimpl. by rewrite <- !app_assoc.
    + eexists. exists Done. split; [done|]. split.
      { unfold delete_clicked, try_except. unfold mbind, M_bind, bind.
        rewrite He, Hd. unfold st_success, emit, st_rerun. reflexivity. }
      wsimpl. by rewrite <- !app_assoc.
Qed.

(** X12. The handler of a Delete button touches the agent chosen and the
    file of its row, and nothing else: however it ends, every other agent
    and every other file of the service is as it was, the file of the row
    is as it was or gone, and the session is as it was. *)
Theorem delete_touches_one_agent_and_one_file agent_id rows f w :
  let w' := (delete_clicked agent_id rows f w).2 in
  ses w' = ses w
  ∧ (∀ other, other ≠ agent_id → agents (srv w') !! other = agents (srv w) !! other)
  ∧ (∀ fid, fid ≠ file_id f → files (srv w') !! fid = files (srv w) !! fid)
  ∧ (files (srv w') !! file_id f = files (srv w) !! file_id f
     ∨ files (srv w') !! file_id f = None).
Proof.
  destruct (delete_clicked_worlds agent_id rows f w)
    as [(e & w' & -> & Hsrv & Hses & _)
       |(a & w' & res & _ & -> & Hses & Hag & _ & _ & Hfiles)]; cbn [snd].
  { rewrite Hsrv, Hses. repeat split; auto. }
  split; [done|]. split; [intros other Hne; by rewrite Hag, lookup_insert_ne|].
  destruct res as [|e].
  - destruct Hfiles as [_ ->]. split; [intros fid Hne; by rewrite lookup_delete_ne|].
    right. apply lookup_delete_eq.
  - rewrite Hfiles. by split; [|left].
Qed.

(** The world once the update of an agent is answered. *)
Lemma set_agent_ci_file_ids_stored agent_id file_ids a w :
  agents (srv w) !! agent_id = Some a →
  Forall (fun o => o = None) (take 2 (net w)) →
  set_agent_ci_file_ids agent_id file_ids w
  = (Ret {| agent_tools := Some (body_tools a); tool_resources := ci_resources file_ids |},
     set_srv (stored agent_id (body_tools a) file_ids (srv w))
       (after_calls [(GetAgent agent_id, Done);
                     (PostAgent agent_id (body_tools a) file_ids, Done)] w)).
Proof.
  intros Ha Hnet. unfold set_agent_ci_file_ids, get_agent, call. unfold mbind, M_bind, bind.
  destruct (net w) as [|o1 [|o2 rest]] eqn:Hn; cbn [take] in Hnet;
    repeat match goal with
           | H : Forall _ (_ :: _) |- _ => apply Forall_cons in H as [-> H]
           end;
    rewrite Ha; wsimpl; rewrite ?Hn; cbn [tail]; rewrite Ha; unfold stored;
    f_equal; unfold after_calls, logged; wsimpl; rewrite ?Hn; cbn [tail drop length];
    by rewrite <- ?app_assoc.
Qed.

(** ** The panel of the files *)

Lemma show_rows_unclicked clicked agent_id ci_files todo : ∀ w,
  (∀ f, f ∈ todo → clicked ≠ Some (delete_key f)) →
  ∃ r w', show_rows clicked agent_id ci_files todo w = (r, w')
    ∧ (r = Ret tt ∨ ∃ e, r = Raise e)
    ∧ srv w' = srv w ∧ ses w' = ses w ∧ trace w' = trace w ∧ environ w' = environ w.
Proof.
  induction todo as [|f todo IH]; intros w Hno.
  - eexists _, _. split; [reflexivity|]. by repeat split; [left|..].
  - cbn [show_rows]. unfold mbind, M_bind, bind, st_write, emit, st_button. wsimpl.
    case_bool_decide as Hkey.
    { eexists _, _. split; [reflexivity|]. by repeat split; [right; eauto|..]. }
    rewrite (bool_decide_eq_false_2 (clicked = Some (delete_key f))) by (apply Hno; left).
    unfold mret, M_ret, ret.
    match goal with |- context [show_rows _ _ _ _ ?w1] =>
      destruct (IH w1) as (r & w' & -> & Hr & Hsrv & Hses & Htr & Henv) end.
    { intros g Hg. apply Hno. by right. }
    eexists _, _. split; [reflexivity|]. by repeat split.
Qed.

(** However the rows are shown, the session is as it was; the service is
    as it was unless the handler of a button that was clicked has asked
    for a rerun. *)
Lemma show_rows_ends clicked agent_id ci_files todo : ∀ w,
  ∃ r w', show_rows clicked agent_id ci_files todo w = (r, w')
    ∧ ses w' = ses w
    ∧ ((r = Ret tt ∧ srv w' = srv w)
       ∨ (∃ e, r = Raise e ∧ srv w' = srv w)
       ∨ (r = Rerun
          ∧ ∃ f w1, f ∈ todo ∧ clicked = Some (delete_key f) ∧ srv w1 = srv w
                    ∧ delete_clicked agent_id ci_files f w1 = (Rerun, w'))).
Proof.
  induction todo as [|f todo IH]; intros w.
  - eexists _, _. split; [reflexivity|]. split; [done|]. by left.
  - cbn [show_rows]. unfold mbind, M_bind, bind, st_write, emit, st_button. wsimpl.
    case_bool_decide as Hkey.
    { eexists _, _. split; [reflexivity|]. split; [done|]. right. left. eauto. }
    case_bool_decide as Hclicked.
    + match goal with |- context [delete_clicked _ _ _ ?w1] =>
        destruct (delete_clicked_worlds agent_id ci_files f w1)
          as [(e & w2 & Hd & Hsrv & Hses & _)|(a & w2 & res & _ & Hd & Hses & _)] end.
      * rewrite Hd.
        destruct (IH w2) as (r & w' & -> & Hses' & Hr).
        eexists _, _. split; [reflexivity|]. rewrite Hses', Hses. split; [done|].
        destruct Hr as [[-> ->]|[(e' & -> & ->)|(-> & g & w1 & Hg & Hc & Hsrv1 & Hd1)]].
        -- by left.
        -- right. left. eauto.
        -- do 2 right. split; [done|]. exists g, w1. rewrite Hsrv1, Hsrv.
           by repeat split; [right|..].
      * rewrite Hd. eexists _, _. split; [reflexivity|]. split; [done|].
        do 2 right. split; [done|]. eexists f, _. split; [left|]. split; [done|].
        split; [|exact Hd]. done.
    + unfold mret, M_ret, ret.
      match goal with |- context [show_rows _ _ _ _ ?w1] =>
        destruct (IH w1) as (r & w' & -> & Hses' & Hr) end.
      eexists _, _. split; [reflexivity|]. split; [done|].
      destruct Hr as [[-> ->]|[(e' & -> & ->)|(-> & g & w1 & Hg & Hc & Hsrv1 & Hd1)]].
      * by left.
      * right. left. eauto.
      * do 2 right. split; [done|]. exists g, w1. by repeat split; [right|..].
Qed.

Lemma listing_reads r rows calls :
  Forall2 (fetched r) rows calls → Forall is_read calls.
Proof.
  induction 1 as [|row c rows calls Hf _ IH]; constructor; [|done].
  by destruct (fetched_is_get _ _ _ Hf) as (fid & res & ->).
Qed.

(** When the panel asks for a rerun, the handler of the Delete button of
    a listed row has. *)
Lemma show_ci_files_rerun clicked agent_id w w' :
  show_ci_files clicked agent_id w = (Rerun, w') →
  ∃ rows f w1,
    file_id <$> rows = ci_file_ids (srv w) agent_id
    ∧ f ∈ rows ∧ clicked = Some (delete_key f) ∧ srv w1 = srv w
    ∧ delete_clicked agent_id rows f w1 = (Rerun, w').
Proof.
  unfold show_ci_files, try_except. unfold mbind, M_bind, bind.
  destruct (list_agent_ci_files_cases agent_id w)
    as [[e ->]|[(a & _ & _ & ->)|(a & rows & calls & Ha & -> & Hids & Hf)]]; [done..|].
  destruct rows as [|f0 rows0]; [done|].
  match goal with |- context [show_rows _ _ ?rows _ ?w1] =>
    destruct (show_rows_ends clicked agent_id rows rows w1) as (r & w2 & -> & _ & Hr) end.
  destruct Hr as [[-> _]|[(e & -> & _)|(-> & f & w1 & Hin & Hclicked & Hsrv & Hd)]];
    [done..|].
  intros [= <-]. by exists (f0 :: rows0), f, w1.
Qed.

(** X13. The panel of the files never ends the script with an exception
    and never touches the session. It ends normally, the agents and files
    of the service being as they were, unless the Delete button of a listed
    file was clicked and its handler has taken the id of that file off the
    list of the agent: then it asks for a rerun. When the listing raises,
    the panel ends normally and all it shows is the warning that the files
    could not be listed, with the message of the exception. *)
Theorem show_ci_files_never_raises clicked agent_id w :
  let r := (show_ci_files clicked agent_id w).1 in
  let w' := (show_ci_files clicked agent_id w).2 in
  ses w' = ses w
  ∧ ((r = Ret tt ∧ srv w' = srv w)
     ∨ (r = Rerun
        ∧ ∃ fid, clicked = Some ("del_" +:+ fid)
                 ∧ fid ∈ ci_file_ids (srv w) agent_id
                 ∧ ci_file_ids (srv w') agent_id
                   = filter (fun x => x ≠ fid) (ci_file_ids (srv w) agent_id)))
  ∧ (∀ e, (list_agent_ci_files agent_id w).1 = Raise e →
          r = Ret tt ∧ shown w w' = [UiWarning ("Could not list CI files: " +:+ e)]).
Proof.
  intros r w'. subst r w'. unfold show_ci_files, try_except. unfold mbind, M_bind, bind.
  destruct (list_agent_ci_files_cases agent_id w)
    as [[e ->]|[(a & _ & _ & ->)|(a & rows & calls & Ha & -> & Hids & Hf)]].
  { cbn [fst snd]. split; [done|]. split; [by left|]. intros e' [= <-].
    split; [done|]. by erewrite shown_app by (wsimpl; reflexivity). }
  { cbn [fst snd]. split; [done|]. split; [by left|]. intros e' [= <-].
    split; [done|]. by erewrite shown_app by (wsimpl; reflexivity). }
  assert (∀ P Q R : Prop, P ∧ Q → R → P ∧ Q ∧ R) as Hsplit by tauto.
  apply Hsplit; [|by intros e [=]].
  destruct rows as [|f0 rows0]; [cbn [fst snd]; split; [done|by left]|].
  match goal with |- context [show_rows _ _ ?rows _ ?w1] =>
    destruct (show_rows_ends clicked agent_id rows rows w1) as (r & w' & -> & Hses & Hr) end.
  destruct Hr as [[-> Hsrv]|[(e & -> & Hsrv)|(-> & f & w1 & Hin & Hclicked & Hsrv & Hd)]];
    cbn [fst snd]; wsimpl.
  - split; [done|]. by left.
  - split; [done|]. by left.
  - split; [done|]. right. split; [done|]. exists (file_id f). split; [done|].
    split; [rewrite <- Hids; apply list_elem_of_fmap; eauto|].
    destruct (delete_clicked_cases agent_id (f0 :: rows0) f w1)
      as [(e & w2 & Hd' & _)|(w2 & res & Hd' & _ & Hafter & _)];
      rewrite Hd' in Hd; [discriminate|]. injection Hd as <-.
    by rewrite Hafter, remaining_filter, Hids.
Qed.

(** With no Delete button of a file of the agent clicked, the panel reads
    and ends normally. *)
Lemma show_ci_files_unclicked clicked agent_id w :
  (∀ fid, fid ∈ ci_file_ids (srv w) agent_id → clicked ≠ Some ("del_" +:+ fid)) →
  ∃ w' calls, show_ci_files clicked agent_id w = (Ret tt, w')
    ∧ trace w' = trace w ++ calls ∧ Forall is_read calls
    ∧ srv w' = srv w ∧ ses w' = ses w ∧ environ w' = environ w.
Proof.
  intros Hno. unfold show_ci_files, try_except. unfold mbind, M_bind, bind.
  destruct (list_agent_ci_files_cases agent_id w)
    as [[e ->]|[(a & _ & _ & ->)|(a & rows & calls & Ha & -> & Hids & Hf)]].
  { eexists _, [_]. split; [reflexivity|]. wsimpl. split; [done|].
    split; [by repeat constructor|done]. }
  { eexists _, [_]. split; [reflexivity|]. wsimpl. split; [done|].
    split; [by repeat constructor|done]. }
  assert (Forall is_read ((GetAgent agent_id, Done) :: calls)) as Hreads.
  { constructor; [done|]. by eapply listing_reads. }
  destruct rows as [|f0 rows0].
  { eexists _, _. split; [reflexivity|]. wsimpl. by repeat split. }
  match goal with |- context [show_rows _ _ ?rows _ ?w1] =>
    destruct (show_rows_unclicked clicked agent_id rows rows w1)
      as (r & w' & -> & Hr & Hsrv & Hses & Htr & Henv) end.
  { intros f Hin. apply Hno. rewrite <- Hids. apply list_elem_of_fmap. eauto. }
  destruct Hr as [->|[e ->]].
  - eexists _, _. split; [reflexivity|]. rewrite Htr. by repeat split.
  - eexists _, _. split; [reflexivity|]. wsimpl. rewrite Htr. by repeat split.
Qed.

(** X14. Unless the Delete button of a file of the agent was clicked, the
    panel of the files only reads: it ends normally, the calls it issues
    are the fetch of the agent and fetches of the metadata of files, and
    the service and the session are as they were. *)
Theorem show_ci_files_only_reads clicked agent_id w :
  (∀ fid, fid ∈ ci_file_ids (srv w) agent_id → clicked ≠ Some ("del_" +:+ fid)) →
  ∃ w', show_ci_files clicked agent_id w = (Ret tt, w')
    ∧ Forall is_read (issued w w')
    ∧ srv w' = srv w ∧ ses w' = ses w.
Proof.
  intros Hno.
  destruct (show_ci_files_unclicked clicked agent_id w Hno)
    as (w' & calls & Hshow & Htr & Hreads & Hsrv & Hses & _).
  exists w'. by rewrite (issued_app _ _ _ Htr).
Qed.

Lemma show_ci_files_only_reads_witness :
  ∃ w', show_ci_files (Some "del_id3") "A" sample_world = (Ret tt, w')
    ∧ Forall is_read (issued sample_world w')
    ∧ srv w' = srv sample_world ∧ ses w' = ses sample_world.
Proof.
  apply (show_ci_files_only_reads (Some "del_id3") "A" sample_world).
  intros fid Hin. vm_compute in Hin.
  repeat (apply elem_of_cons in Hin as [->|Hin]; [discriminate|]).
  by apply elem_of_nil in Hin.
Defined.

Lemma show_rows_app clicked agent_id ci_files before after : ∀ w,
  show_rows clicked agent_id ci_files (before ++ after) w
  = match show_rows clicked agent_id ci_files before w with
    | (Ret _, w1) => show_rows clicked agent_id ci_files after w1
    | end_ => end_
    end.
Proof.
  induction before as [|f before IH]; intros w; [done|].
  cbn [app show_rows]. unfold mbind, M_bind, bind.
  destruct (st_write (row_label f) w) as [[[]| | | |] w1]; try done.
  destruct (st_button clicked (delete_key f) w1) as [[pressed| | | |] w2]; try done.
  destruct ((if pressed then delete_clicked agent_id ci_files f else mret ()) w2)
    as [[[]| | | |] w3]; try done.
Qed.

(** X15. When a file id comes a second time in the list of an agent, the
    panel of the files, no button being clicked, shows the rows up to that
    one, then the warning that the files could not be listed, and no row
    after it; the service is as it was. *)
Theorem doubled_id_ends_the_list agent_id w rows w1 before g rest :
  list_agent_ci_files agent_id w = (Ret rows, w1) →
  rows = before ++ g :: rest →
  NoDup (file_id <$> before) →
  file_id g ∈ (file_id <$> before) →
  (∀ f, f ∈ before → delete_key f ∉ widgets w) →
  ∃ w' e, show_ci_files None agent_id w = (Ret tt, w')
    ∧ shown w w' = (UiWrite ∘ row_label <$> before ++ [g])
                   ++ [UiWarning ("Could not list CI files: " +:+ e)]
    ∧ srv w' = srv w.
Proof.
  intros Hl -> Hnd Hdup Hkeys.
  destruct (listing_ids _ _ _ _ Hl) as (_ & Hsrv & _ & _ & Hui & Hwid & _).
  unfold show_ci_files, try_except. unfold mbind, M_bind, bind. rewrite Hl.
  assert (∃ w' e, show_rows None agent_id (before ++ g :: rest) (before ++ g :: rest) w1
                  = (Raise e, w')
                  ∧ ui w' = ui w ++ (UiWrite ∘ row_label <$> before ++ [g])
                  ∧ srv w' = srv w) as (w' & e & Hrows & Hui' & Hsrv').
  { rewrite show_rows_app, show_rows_renders; [|done|by rewrite Hwid].
    cbn [show_rows]. unfold mbind, M_bind, bind, st_write, emit, st_button. wsimpl.
    rewrite bool_decide_eq_true_2.
    - eexists _, _. split; [reflexivity|]. wsimpl.
      rewrite Hui, fmap_app, <- app_assoc. by split.
    - apply elem_of_app. right. apply list_elem_of_fmap in Hdup as (f & Hid & Hf).
      apply list_elem_of_fmap. exists f. split; [|done]. unfold delete_key. by rewrite Hid. }
  destruct before as [|b before]; [by apply elem_of_nil in Hdup|].
  cbn [app] in Hrows |- *. rewrite Hrows. unfold st_warning, emit.
  eexists _, e. split; [reflexivity|]. wsimpl. split; [|done].
  apply shown_app. wsimpl. by rewrite Hui', <- app_assoc.
Qed.

Lemma doubled_id_ends_the_list_witness :
  ∃ w' e, show_ci_files None "A" doubled_world = (Ret tt, w')
    ∧ shown doubled_world w'
      = (UiWrite ∘ row_label <$> [id1_row] ++ [id1_row])
        ++ [UiWarning ("Could not list CI files: " +:+ e)]
    ∧ srv w' = srv doubled_world.
Proof.
  apply (doubled_id_ends_the_list "A" doubled_world [id1_row; id1_row]
           (list_agent_ci_files "A" doubled_world).2 [id1_row] id1_row []).
  - vm_compute. reflexivity.
  - reflexivity.
  - repeat constructor. intros H. by apply elem_of_nil in H.
  - left.
  - intros f _ H. by apply elem_of_nil in H.
Defined.

(** ** Files that the service no longer holds *)

(** X16. A file deleted with an agent stays in the list of every other
    agent that holds it: the list of the other agent is as it was, and
    every later listing of it gives, where the id of the file stands, the
    row that says the file is unavailable. *)
Theorem deleted_file_is_unavailable_elsewhere agent_id other rows f w w' :
  other ≠ agent_id →
  delete_clicked agent_id rows f w = (Rerun, w') →
  (FilesDelete (file_id f), Done) ∈ issued w w' →
  ci_file_ids (srv w') other = ci_file_ids (srv w) other
  ∧ ∀ w3 rows' w4 i,
      srv w3 = srv w' →
      list_agent_ci_files other w3 = (Ret rows', w4) →
      ci_file_ids (srv w) other !! i = Some (file_id f) →
      rows' !! i = Some (unavailable_row (file_id f)).
Proof.
  intros Hother Hrun Hdel.
  destruct (delete_clicked_worlds agent_id rows f w)
    as [(e & w2 & Hd & _)|(a & w2 & res & _ & Hd & _ & Hag & _ & Htr & Hfiles)];
    rewrite Hd in Hrun; [discriminate|]. injection Hrun as ->.
  rewrite (issued_app _ _ _ Htr) in Hdel.
  apply elem_of_cons in Hdel as [Hdel|Hdel]; [discriminate|].
  apply elem_of_cons in Hdel as [Hdel|Hdel]; [discriminate|].
  apply list_elem_of_singleton in Hdel. injection Hdel as <-. destruct Hfiles as [_ Hfiles].
  assert (ci_file_ids (srv w') other = ci_file_ids (srv w) other) as Hsame.
  { unfold ci_file_ids. by rewrite Hag, lookup_insert_ne. }
  split; [done|]. intros w3 rows' w4 i Hsrv Hl Hi.
  destruct (list_agent_ci_files_cases other w3)
    as [[e He]|[(a' & _ & _ & He)|(a' & rows2 & calls & _ & Hl' & Hids & Hf)]];
    rewrite Hl in *; [discriminate..|].
  injection Hl' as <- _. rewrite Hsrv, Hsame in Hids.
  assert (file_id <$> rows' !! i = Some (file_id f)) as Hrow.
  { by rewrite <- list_lookup_fmap, Hids. }
  destruct (rows' !! i) as [row|] eqn:Hri; [|done]. injection Hrow as Hrow.
  destruct (Forall2_lookup_l _ _ _ _ _ Hf Hri) as (c & _ & Hc).
  destruct Hc as [fid meta Hmeta|fid e]; cbn [file_id resolved_row unavailable_row] in Hrow;
    subst fid; [|done].
  by rewrite Hsrv, Hfiles, lookup_delete_eq in Hmeta.
Qed.

Lemma deleted_file_is_unavailable_elsewhere_witness :
  ci_file_ids (srv (delete_clicked "A" sample_rows id1_row shared_world).2) "B"
  = ci_file_ids (srv shared_world) "B"
  ∧ ∀ w3 rows' w4 i,
      srv w3 = srv (delete_clicked "A" sample_rows id1_row shared_world).2 →
      list_agent_ci_files "B" w3 = (Ret rows', w4) →
      ci_file_ids (srv shared_world) "B" !! i = Some (file_id id1_row) →
      rows' !! i = Some (unavailable_row (file_id id1_row)).
Proof.
  apply (deleted_file_is_unavailable_elsewhere "A" "B" sample_rows id1_row shared_world).
  - discriminate.
  - vm_compute. reflexivity.
  - vm_compute. do 2 right. left.
Defined.

(** The files of [B] as listed once [id1] has been deleted with [A]. *)
Example shared_file_after_delete :
  (list_agent_ci_files "B" (delete_clicked "A" sample_rows id1_row shared_world).2).1
  = Ret [resolved_row "id2" (sample_file "notes.pdf"); unavailable_row "id1"].
Proof. vm_compute. reflexivity. Qed.

(** X17. The id of a file that the service no longer holds can be taken
    off the list of an agent: when the fetch and the update of the agent
    are answered, the Delete of its row ends in the rerun of success, the
    list of the agent having lost the id, although the delete of the file
    itself fails; the page says that the file was deleted. *)
Theorem unavailable_file_can_be_deleted agent_id rows f w a :
  agents (srv w) !! agent_id = Some a →
  files (srv w) !! file_id f = None →
  Forall (fun o => o = None) (take 2 (net w)) →
  ∃ w' e, delete_clicked agent_id rows f w = (Rerun, w')
    ∧ ci_file_ids (srv w') agent_id = remaining rows f
    ∧ issued w w' = [(GetAgent agent_id, Done);
                     (PostAgent agent_id (body_tools a) (remaining rows f), Done);
                     (FilesDelete (file_id f), Failed e)]
    ∧ shown w w' = [UiSuccess ("Deleted " +:+ fstr (filename f) +:+ " from CI and project.")]
    ∧ files (srv w') = files (srv w).
Proof.
  intros Ha Hgone Hnet.
  pose proof (set_agent_ci_file_ids_stored agent_id (remaining rows f) a w Ha Hnet) as Hset.
  unfold delete_clicked, try_except. unfold mbind, M_bind, bind. rewrite Hset.
  match goal with |- context [best_effort _ ?w0] =>
    destruct (best_effort_files_delete_cases (file_id f) w0)
      as [(e & -> & _)|([m Hm] & _)] end.
  2: { unfold stored in Hm. wsimpl. by rewrite Hgone in Hm. }
  unfold st_success, emit, st_rerun. eexists _, e. split; [reflexivity|]. wsimpl.
  repeat split.
  - unfold ci_file_ids, stored. wsimpl. by rewrite lookup_insert_eq.
  - erewrite issued_app; [reflexivity|]. wsimpl. by rewrite <- app_assoc.
  - by erewrite shown_app.
Qed.

Lemma unavailable_file_can_be_deleted_witness :
  ∃ w' e,
    delete_clicked "A" [unavailable_row "gone"; resolved_row "id2" (sample_file "notes.pdf")]
      (unavailable_row "gone") dangling_world
    = (Rerun, w')
    ∧ ci_file_ids (srv w') "A"
      = remaining [unavailable_row "gone"; resolved_row "id2" (sample_file "notes.pdf")]
          (unavailable_row "gone")
    ∧ issued dangling_world w'
      = [(GetAgent "A", Done);
         (PostAgent "A" (body_tools {| agent_tools := None;
                                       tool_resources := ci_resources ["gone"; "id2"] |})
            (remaining [unavailable_row "gone"; resolved_row "id2" (sample_file "notes.pdf")]
               (unavailable_row "gone")), Done);
         (FilesDelete (file_id (unavailable_row "gone")), Failed e)]
    ∧ shown dangling_world w'
      = [UiSuccess ("Deleted " +:+ fstr (filename (unavailable_row "gone"))
                    +:+ " from CI and project.")]
    ∧ files (srv w') = files (srv dangling_world).
Proof.
  apply (unavailable_file_can_be_deleted "A"
           [unavailable_row "gone"; resolved_row "id2" (sample_file "notes.pdf")]
           (unavailable_row "gone") dangling_world).
  - vm_compute. reflexivity.
  - vm_compute. reflexivity.
  - constructor.
Defined.

(** The page and the list of the agent after that delete. *)
Example dangling_id_deleted :
  let end_ := show_ci_files (Some "del_gone") "A" dangling_world in
  end_.1 = Rerun
  ∧ ci_file_ids (srv end_.2) "A" = ["id2"]
  ∧ last (ui end_.2) = Some (UiSuccess "Deleted (unavailable) from CI and project.").
Proof. vm_compute. by repeat split. Qed.

(** ** What an upload touches *)

(** The list that [persist_in_ci] asks for, [rows] being the listing. *)
Lemma fetched_not_delete r rows calls :
  Forall2 (fetched r) rows calls → Forall (fun c => ¬ is_delete c) calls.
Proof.
  intros Hf. eapply Forall_impl; [by eapply fetched_harmless|]. by intros c [? _].
Qed.

(** Every way [persist_in_ci] can go, with what it leaves of the service
    and of the session. *)
Lemma persist_in_ci_worlds agent_id name new_id w :
  (∃ e w' calls, persist_in_ci agent_id name new_id w = (Ret tt, w')
        ∧ srv w' = srv w ∧ ses w' = ses w
        ∧ ui w' = ui w ++ [UiError ("Persist/overwrite failed: " +:+ e)]
        ∧ trace w' = trace w ++ calls
        ∧ Forall (fun c => ¬ is_delete c) calls)
  ∨ (∃ a rows calls w' post,
        agents (srv w) !! agent_id = Some a
        ∧ list_agent_ci_files agent_id w
          = (Ret rows, after_calls ((GetAgent agent_id, Done) :: calls) w)
        ∧ file_id <$> rows = ci_file_ids (srv w) agent_id
        ∧ Forall2 (fetched (srv w)) rows calls
        ∧ persist_in_ci agent_id name new_id w = (Rerun, w')
        ∧ thread_id (ses w') = thread_id (ses w)
        ∧ ses_file_id (ses w') = ses_file_id (ses w)
        ∧ let ids := match existing_by_name rows !! lower name with
                     | Some e => new_ids new_id (file_id e) (existing_ids rows)
                     | None => existing_ids rows ++ [new_id]
                     end in
          agents (srv w')
          = <[agent_id := {| agent_tools := Some (body_tools a);
                             tool_resources := ci_resources ids |}]> (agents (srv w))
          ∧ trace w' = trace w ++ (GetAgent agent_id, Done) :: calls
                       ++ [(GetAgent agent_id, Done);
                           (PostAgent agent_id (body_tools a) ids, Done)] ++ post
          ∧ match existing_by_name rows !! lower name with
            | Some e =>
                ∃ res, post = [(FilesDelete (file_id e), res)]
                  ∧ match res with
                    | Done => is_Some (files (srv w) !! file_id e)
                              ∧ files (srv w') = delete (file_id e) (files (srv w))
                    | Failed _ => files (srv w') = files (srv w)
                    end
            | None => post = [] ∧ files (srv w') = files (srv w)
            end).
Proof.
  destruct (list_agent_ci_files_cases agent_id w)
    as [[e He]|[(a & _ & _ & He)|(a & rows & calls & Ha & Hl & Hids & Hf)]].
  { left. exists e. eexists _, [_]. unfold persist_in_ci, try_except.
    unfold mbind, M_bind, bind. rewrite He. unfold st_error, emit. split; [done|].
    wsimpl. repeat split. constructor; [by intros []|done]. }
  { left. exists attribute_error. eexists _, [_]. unfold persist_in_ci, try_except.
    unfold mbind, M_bind, bind. rewrite He. unfold st_error, emit. split; [done|].
    wsimpl. repeat split. constructor; [by intros []|done]. }
  pose proof (fetched_not_delete _ _ _ Hf) as Hnd.
  set (w1 := after_calls ((GetAgent agent_id, Done) :: calls) w) in *.
  assert (Ha1 : agents (srv w1) !! agent_id = Some a) by done.
  destruct (existing_by_name rows !! lower name) as [old|] eqn:Hold.
  - destruct (set_agent_ci_file_ids_cases agent_id
                (new_ids new_id (file_id old) (existing_ids rows)) w1)
      as [[e He]|(a' & Ha' & [[e He]|He])];
      [| rewrite Ha1 in Ha'; injection Ha' as <- ..].
    + left. exists e. eexists _, (_ :: calls ++ [_]).
      unfold persist_in_ci, try_except. unfold mbind, M_bind, bind.
      rewrite Hl, Hold. unfold mbind, M_bind, bind. rewrite He.
      unfold st_error, emit. split; [done|]. subst w1. wsimpl.
      rewrite <- !app_assoc. repeat split.
      constructor; [by intros []|]. apply Forall_app. split; [done|].
      constructor; [by intros []|done].
    + left. exists e. eexists _, (_ :: calls ++ [_; _]).
      unfold persist_in_ci, try_except. unfold mbind, M_bind, bind.
      rewrite Hl, Hold. unfold mbind, M_bind, bind. rewrite He.
      unfold st_error, emit. split; [done|]. subst w1. wsimpl.
      rewrite <- !app_assoc. repeat split.
      constructor; [by intros []|]. apply Forall_app. split; [done|].
      repeat (constructor; [by intros []|]). done.
    + right. exists a, rows, calls.
      match type of He with _ = (_, ?w2) =>
        destruct (best_effort_files_delete_cases (file_id old) w2)
          as [(e & Hd & _)|(Hsome & Hd)] end.
      * eexists _, [_]. do 4 (split; [done|]). split.
        { unfold persist_in_ci, try_except. unfold mbind, M_bind, bind.
          rewrite Hl, Hold. unfold mbind, M_bind, bind. rewrite He, Hd.
          unfold st_success, log, emit, st_rerun. reflexivity. }
        subst w1. wsimpl. rewrite Hold. do 2 (split; [done|]). split; [done|].
        split; [by rewrite <- !app_assoc|]. exists (Failed e). by split.
      * eexists _, [_]. do 4 (split; [done|]). split.
        { unfold persist_in_ci, try_except. unfold mbind, M_bind, bind.
          rewrite Hl, Hold. unfold mbind, M_bind, bind. rewrite He, Hd.
          unfold st_success, log, emit, st_rerun. reflexivity. }
        subst w1. wsimpl. rewrite Hold. do 2 (split; [done|]). split; [done|].
        split; [by rewrite <- !app_assoc|]. exists Done. by split.
  - destruct (set_agent_ci_file_ids_cases agent_id (existing_ids rows ++ [new_id]) w1)
      as [[e He]|(a' & Ha' & [[e He]|He])];
      [| rewrite Ha1 in Ha'; injection Ha' as <- ..].
    + left. exists e. eexists _, (_ :: calls ++ [_]).
      unfold persist_in_ci, try_except. unfold mbind, M_bind, bind.
      rewrite Hl, Hold. unfold mbind, M_bind, bind. rewrite He.
      unfold st_error, emit. split; [done|]. subst w1. wsimpl.
      rewrite <- !app_assoc. repeat split.
      constructor; [by intros []|]. apply Forall_app. split; [done|].
      constructor; [by intros []|done].
    + left. exists e. eexists _, (_ :: calls ++ [_; _]).
      unfold persist_in_ci, try_except. unfold mbind, M_bind, bind.
      rewrite Hl, Hold. unfold mbind, M_bind, bind. rewrite He.
      unfold st_error, emit. split; [done|]. subst w1. wsimpl.
      rewrite <- !app_assoc. repeat split.
      constructor; [by intros []|]. apply Forall_app. split; [done|].
      repeat (constructor; [by intros []|]). done.
    + right. exists a, rows, calls. eexists _, []. do 4 (split; [done|]). split.
      { unfold persist_in_ci, try_except. unfold mbind, M_bind, bind.
        rewrite Hl, Hold. unfold mbind, M_bind, bind. rewrite He.
        unfold st_success, log, emit, st_rerun. reflexivity. }
      subst w1. wsimpl. rewrite Hold. do 2 (split; [done|]). split; [done|].
      split; [by rewrite <- !app_assoc|]. by split.
Qed.

(** X18. An upload touches the agent chosen and no other: however the
    handler ends, every other agent is as it was and the session holds the
    thread it held. Of the files, the service gains the upload and loses
    at most one, which was on the list of the agent. *)
Theorem upload_touches_one_agent agent_id name data new_id w :
  let w' := (upload_and_persist agent_id name data new_id w).2 in
  let upload := {| meta_filename := Some name;
                   meta_bytes := Some (Z.of_nat (length data)) |} in
  thread_id (ses w') = thread_id (ses w)
  ∧ (∀ other, other ≠ agent_id → agents (srv w') !! other = agents (srv w) !! other)
  ∧ (files (srv w') = files (srv w)
     ∨ files (srv w') = <[new_id := upload]> (files (srv w))
     ∨ ∃ old, old ∈ ci_file_ids (srv w) agent_id
              ∧ files (srv w') = delete old (<[new_id := upload]> (files (srv w)))).
Proof.
  intros w' upload. subst w'.
  destruct (upload_and_persist_cases agent_id name data new_id w) as [[e ->]| ->].
  { cbn [snd]. split; [done|]. split; [done|by left]. }
  set (wu := uploaded new_id name data w).
  destruct (persist_in_ci_worlds agent_id name new_id wu)
    as [(e & w' & calls & -> & Hsrv & Hses & _)
       |(a & rows & calls & w' & post & Ha & _ & Hids & _ & -> & Ht & _ & Hag & _ & Hfiles)];
    cbn [snd].
  { rewrite Hsrv, Hses. split; [done|]. split; [done|]. right. by left. }
  split; [by rewrite Ht|]. split; [intros other Hne; by rewrite Hag, lookup_insert_ne|].
  right. destruct (existing_by_name rows !! lower name) as [old|] eqn:Hold.
  - destruct Hfiles as ([|e] & _ & Hfiles).
    + right. exists (file_id old). destruct Hfiles as [_ ->]. split; [|done].
      change (ci_file_ids (srv wu) agent_id) with (ci_file_ids (srv w) agent_id) in Hids.
      rewrite <- Hids. apply existing_by_name_Some in Hold as [Hin _].
      apply list_elem_of_fmap. eauto.
    + left. by rewrite Hfiles.
  - destruct Hfiles as [_ ->]. by left.
Qed.

(** X19. When the upload is stored and the persist then fails, nothing is
    cleaned up: the handler returns with the error on the page, the
    service holds the new file, no agent lists it and no file was deleted;
    the session holds the id of the upload. *)
Theorem failed_persist_leaves_the_upload agent_id name data new_id w w' :
  upload_and_persist agent_id name data new_id w = (Ret tt, w') →
  agents (srv w') = agents (srv w)
  ∧ files (srv w')
    = <[new_id := {| meta_filename := Some name;
                     meta_bytes := Some (Z.of_nat (length data)) |}]> (files (srv w))
  ∧ ses_file_id (ses w') = Some new_id
  ∧ (∃ e, shown w w' = [UiError ("Persist/overwrite failed: " +:+ e)])
  ∧ Forall (fun c => ¬ is_delete c) (issued w w').
Proof.
  intros Hrun.
  destruct (upload_and_persist_cases agent_id name data new_id w) as [[e He]|He];
    rewrite He in Hrun; [discriminate|].
  destruct (persist_in_ci_worlds agent_id name new_id (uploaded new_id name data w))
    as [(e & w2 & calls & Hp & Hsrv & Hses & Hui & Htr & Hnd)
       |(a & rows & calls & w2 & post & _ & _ & _ & _ & Hp & _)];
    rewrite Hp in Hrun; [|discriminate]. injection Hrun as ->.
  rewrite Hsrv, Hses. do 3 (split; [done|]). split.
  - exists e. by apply shown_app.
  - unfold uploaded in Htr. wsimpl. rewrite <- app_assoc in Htr.
    rewrite (issued_app _ _ _ Htr). constructor; [by intros []|done].
Qed.

Lemma failed_persist_leaves_the_upload_witness :
  agents (srv (upload_and_persist "A" "new.csv" [] "id4"
                 (set_net [None; Some "503 Server Error"] sample_world)).2)
  = agents (srv (set_net [None; Some "503 Server Error"] sample_world))
  ∧ files (srv (upload_and_persist "A" "new.csv" [] "id4"
                  (set_net [None; Some "503 Server Error"] sample_world)).2)
    = <[ "id4" := {| meta_filename := Some "new.csv";
                     meta_bytes := Some (Z.of_nat (length (@nil ascii))) |}]>
        (files (srv (set_net [None; Some "503 Server Error"] sample_world)))
  ∧ ses_file_id (ses (upload_and_persist "A" "new.csv" [] "id4"
                        (set_net [None; Some "503 Server Error"] sample_world)).2)
    = Some "id4"
  ∧ (∃ e, shown (set_net [None; Some "503 Server Error"] sample_world)
            (upload_and_persist "A" "new.csv" [] "id4"
               (set_net [None; Some "503 Server Error"] sample_world)).2
          = [UiError ("Persist/overwrite failed: " +:+ e)])
  ∧ Forall (fun c => ¬ is_delete c)
      (issued (set_net [None; Some "503 Server Error"] sample_world)
         (upload_and_persist "A" "new.csv" [] "id4"
            (set_net [None; Some "503 Server Error"] sample_world)).2).
Proof.
  apply (failed_persist_leaves_the_upload "A" "new.csv" [] "id4"
           (set_net [None; Some "503 Server Error"] sample_world)).
  vm_compute. reflexivity.
Defined.

(** ** The file that a run attaches *)

Lemma attached_Some s fid : ses_file_id s = Some fid → fid ≠ "" → attached s = [fid].
Proof. unfold attached. intros -> Hne. by destruct fid. Qed.

(** X20. Once an upload is stored, whether the persist that follows
    succeeds or fails, the session holds its id, and the message of the
    next Run attaches that file. *)
Theorem run_attaches_the_last_upload agent_id name data new_id w :
  let w' := (upload_and_persist agent_id name data new_id w).2 in
  (FilesUpload name (length data), Done) ∈ issued w w' →
  new_id ≠ "" →
  ses_file_id (ses w') = Some new_id
  ∧ ∀ w2 t orchestrator question rp,
      ses w2 = ses w' → thread_id (ses w2) = Some t →
      ∃ res rest,
        issued w2 (run_button orchestrator question rp w2).2
        = (MessagesCreate t (prompt_of question) [new_id], res) :: rest.
Proof.
  intros w' Hup Hne. subst w'.
  assert (ses_file_id (ses (upload_and_persist agent_id name data new_id w).2) = Some new_id)
    as Hfile.
  { destruct (upload_and_persist_cases agent_id name data new_id w) as [[e He]|He];
      rewrite He in *; cbn [snd] in *.
    { exfalso. erewrite issued_app in Hup by (wsimpl; reflexivity).
      by apply list_elem_of_singleton in Hup. }
    destruct (persist_in_ci_worlds agent_id name new_id (uploaded new_id name data w))
      as [(e & w2 & calls & -> & _ & Hses & _)
         |(a & rows & calls & w2 & post & _ & _ & _ & _ & -> & _ & Hf & _)];
      cbn [snd]; [by rewrite Hses|by rewrite Hf]. }
  split; [done|]. intros w2 t orchestrator question rp Hses Ht.
  destruct (run_button_held orchestrator question rp t w2 Ht) as (_ & _ & res & rest & Hi & _).
  exists res, rest. rewrite Hi.
  rewrite (attached_Some (ses w2) new_id); [done|by rewrite Hses|done].
Qed.

Lemma run_attaches_the_last_upload_witness :
  ses_file_id (ses (upload_and_persist "A" "DATA.csv" [] "id4" sample_world).2) = Some "id4"
  ∧ ∀ w2 t orchestrator question rp,
      ses w2 = ses (upload_and_persist "A" "DATA.csv" [] "id4" sample_world).2 →
      thread_id (ses w2) = Some t →
      ∃ res rest,
        issued w2 (run_button orchestrator question rp w2).2
        = (MessagesCreate t (prompt_of question) ["id4"], res) :: rest.
Proof.
  apply (run_attaches_the_last_upload "A" "DATA.csv" [] "id4" sample_world).
  - vm_compute. left.
  - discriminate.
Defined.

(** ** An overwrite that turns into an append *)

Lemma name_key_unavailable fid : name_key (unavailable_row fid) = lower unavailable.
Proof. done. Qed.

(** X21. When, in the listing that the persist reads, the fetch of the
    metadata of a file fails, the file is not matched by its name: an
    upload under the name that the service holds it by is stored beside
    it, and the list of the agent then has two ids under that name, the
    old one and the new one. *)
Theorem failed_fetch_leaves_two_ids agent_id name data new_id w w' fid e :
  files (srv w) !! new_id = None →
  new_id ∉ ci_file_ids (srv w) agent_id →
  NoDup (ci_file_ids (srv w) agent_id) →
  fid ∈ ci_file_ids (srv w) agent_id →
  stored_under (srv w) name fid →
  lower name ≠ lower unavailable →
  (GetFile fid, Failed e) ∈ issued w w' →
  upload_and_persist agent_id name data new_id w = (Rerun, w') →
  fid ∈ ids_named (srv w') agent_id name
  ∧ new_id ∈ ids_named (srv w') agent_id name
  ∧ fid ≠ new_id.
Proof.
  intros Hfresh Hnew Hnd Hfid Hst Hname Hfail Hrun.
  destruct (upload_and_persist_cases agent_id name data new_id w) as [[e' He]|He];
    rewrite He in Hrun; [discriminate|]. clear He.
  set (wu := uploaded new_id name data w) in *.
  destruct (persist_in_ci_worlds agent_id name new_id wu)
    as [(e' & w2 & calls & Hp & _)
       |(a & rows & calls & w2 & post & Ha & _ & Hids & Hf & Hp & _ & _ & Hag & Htr & Hfiles)];
    rewrite Hp in Hrun; [discriminate|]. injection Hrun as ->.
  change (ci_file_ids (srv wu) agent_id) with (ci_file_ids (srv w) agent_id) in Hids.
  assert (fid ≠ new_id) as Hne.
  { intros ->. unfold stored_under in Hst. by rewrite Hfresh in Hst. }
  (* the failed fetch is one of the listing *)
  assert ((GetFile fid, Failed e) ∈ calls) as Hcall.
  { unfold wu, uploaded in Htr. wsimpl. rewrite <- app_assoc in Htr.
    rewrite (issued_app _ _ _ Htr) in Hfail.
    apply elem_of_cons in Hfail as [Hfail|Hfail]; [discriminate|].
    apply elem_of_cons in Hfail as [Hfail|Hfail]; [discriminate|].
    apply elem_of_app in Hfail as [Hfail|Hfail]; [done|].
    apply elem_of_cons in Hfail as [Hfail|Hfail]; [discriminate|].
    apply elem_of_cons in Hfail as [Hfail|Hfail]; [discriminate|].
    destruct (existing_by_name rows !! lower name).
    - destruct Hfiles as (res & -> & _).
      apply list_elem_of_singleton in Hfail. discriminate.
    - destruct Hfiles as [-> _]. by apply elem_of_nil in Hfail. }
  (* so the row of the file is the one that says it is unavailable *)
  assert (∀ row, row ∈ rows → file_id row = fid → row = unavailable_row fid) as Hrow.
  { intros row [j Hj]%list_elem_of_lookup Hid.
    apply list_elem_of_lookup in Hcall as [i Hi].
    destruct (Forall2_lookup_r _ _ _ _ _ Hf Hi) as (row' & Hi' & Hfetched).
    assert (row' = unavailable_row fid) as -> by (by inversion Hfetched).
    assert (i = j) as ->; [|congruence].
    rewrite <- Hids in Hnd. eapply NoDup_lookup; [exact Hnd|..].
    - by rewrite list_lookup_fmap, Hi'.
    - by rewrite list_lookup_fmap, Hj, <- Hid. }
  assert (∀ old, existing_by_name rows !! lower name = Some old → file_id old ≠ fid
                                                                ∧ file_id old ≠ new_id)
    as Hold.
  { intros old [Hin Hkey]%existing_by_name_Some. split.
    - intros Hid. rewrite (Hrow old Hin Hid), name_key_unavailable in Hkey. by destruct Hname.
    - intros Hid. apply Hnew. rewrite <- Hids, <- Hid. apply list_elem_of_fmap. eauto. }
  assert (ci_file_ids (srv w') agent_id
          = match existing_by_name rows !! lower name with
            | Some e => new_ids new_id (file_id e) (existing_ids rows)
            | None => existing_ids rows ++ [new_id]
            end) as Hafter.
  { unfold ci_file_ids. by rewrite Hag, lookup_insert_eq. }
  assert (∀ x, x = fid ∨ x = new_id → files (srv w') !! x = files (srv wu) !! x) as Hkept.
  { intros x Hx. destruct (existing_by_name rows !! lower name) as [old|] eqn:Ho.
    - destruct (Hold old eq_refl) as [H1 H2]. destruct Hfiles as ([|e'] & _ & Hfiles).
      + destruct Hfiles as [_ ->]. rewrite lookup_delete_ne; [done|].
        by destruct Hx as [-> | ->].
      + by rewrite Hfiles.
    - by destruct Hfiles as [_ ->]. }
  rewrite !ids_named_elem. unfold stored_under. rewrite !Hkept by auto.
  unfold wu, uploaded. wsimpl. rewrite lookup_insert_ne, lookup_insert_eq by done.
  rewrite Hafter. unfold existing_ids. rewrite Hids.
  split; [split; [done|]|split; [split; [done|]|done]].
  - destruct (existing_by_name rows !! lower name) as [old|] eqn:Ho.
    + apply elem_of_new_ids. exists fid. split; [done|].
      destruct (Hold old eq_refl) as [H1 _]. by rewrite decide_False.
    + apply elem_of_app. by left.
  - destruct (existing_by_name rows !! lower name) as [old|] eqn:Ho.
    + apply elem_of_new_ids. exists (file_id old). split; [|by rewrite decide_True].
      rewrite <- Hids. apply existing_by_name_Some in Ho as [Hin _].
      apply list_elem_of_fmap. eauto.
    + apply elem_of_app. right. left.
Qed.

Lemma failed_fetch_leaves_two_ids_witness :
  "id1" ∈ ids_named
            (srv (upload_and_persist "A" "data.csv" [] "id4"
                    (set_net [None; None; Some "timeout"] sample_world)).2) "A" "data.csv"
  ∧ "id4" ∈ ids_named
              (srv (upload_and_persist "A" "data.csv" [] "id4"
                      (set_net [None; None; Some "timeout"] sample_world)).2) "A" "data.csv"
  ∧ "id1" ≠ "id4".
Proof.
  apply (failed_fetch_leaves_two_ids "A" "data.csv" [] "id4"
           (set_net [None; None; Some "timeout"] sample_world) _ "id1" "timeout").
  - vm_compute. reflexivity.
  - vm_compute. intros H.
    repeat (apply elem_of_cons in H as [H|H]; [discriminate|]).
    by apply elem_of_nil in H.
  - vm_compute. repeat constructor; intros H;
      repeat (apply elem_of_cons in H as [H|H]; [discriminate|]);
      by apply elem_of_nil in H.
  - vm_compute. left.
  - vm_compute. reflexivity.
  - vm_compute. discriminate.
  - vm_compute. do 2 right. left.
  - vm_compute. reflexivity.
Defined.

(** The list of the agent after that upload. *)
Example two_ids_after_failed_fetch :
  ci_file_ids (srv (upload_and_persist "A" "data.csv" [] "id4"
                      (set_net [None; None; Some "timeout"] sample_world)).2) "A"
  = ["id1"; "id2"; "id4"].
Proof. vm_compute. reflexivity. Qed.

(** ** An upload and its delete *)

Lemma filter_ne_snoc {A} `{EqDecision A} (l : list A) x :
  x ∉ l → filter (fun y => y ≠ x) (l ++ [x]) = l.
Proof.
  intros Hx. rewrite filter_app, filter_cons_False, filter_nil, app_nil_r
    by (intros Hne; by apply Hne).
  induction l as [|a l IH]; [done|]. apply not_elem_of_cons in Hx as [Hne Hx].
  by rewrite filter_cons_True, IH by done.
Qed.

(** X22. The delete of a file undoes the upload that added it: when an
    upload under a new id has made the list of the agent one id longer,
    and the Delete button of that id then ends in the rerun of success with
    the file gone, the list of the agent and the files of the service are
    what they were before the upload. *)
Theorem delete_undoes_an_append agent_id name data new_id w w1 w2 w3 :
  files (srv w) !! new_id = None →
  new_id ∉ ci_file_ids (srv w) agent_id →
  upload_and_persist agent_id name data new_id w = (Rerun, w1) →
  length (ci_file_ids (srv w1) agent_id) = S (length (ci_file_ids (srv w) agent_id)) →
  srv w2 = srv w1 →
  show_ci_files (Some ("del_" +:+ new_id)) agent_id w2 = (Rerun, w3) →
  files (srv w3) !! new_id = None →
  ci_file_ids (srv w3) agent_id = ci_file_ids (srv w) agent_id
  ∧ files (srv w3) = files (srv w).
Proof.
  intros Hfresh Hnew Hup Hlen Hsrv Hdel Hgone.
  destruct (upload_and_persist_cases agent_id name data new_id w) as [[e He]|He];
    rewrite He in Hup; [discriminate|]. clear He.
  set (wu := uploaded new_id name data w) in *.
  destruct (persist_in_ci_worlds agent_id name new_id wu)
    as [(e & w' & calls & Hp & _)
       |(a & rows & calls & w' & post & Ha & _ & Hids & _ & Hp & _ & _ & Hag & _ & Hfiles)];
    rewrite Hp in Hup; [discriminate|]. injection Hup as ->.
  change (ci_file_ids (srv wu) agent_id) with (ci_file_ids (srv w) agent_id) in Hids.
  assert (ci_file_ids (srv w1) agent_id = ci_file_ids (srv w) agent_id ++ [new_id]
          ∧ files (srv w1) = files (srv wu)) as [Hafter Hfiles1].
  { unfold ci_file_ids at 1. unfold ci_file_ids at 1 in Hlen.
    rewrite Hag, lookup_insert_eq in *.
    unfold agent_file_ids, ci_resources in *. cbn [tool_resources or_list default] in *.
    unfold id in *. destruct (existing_by_name rows !! lower name) as [old|].
    - exfalso. unfold new_ids, existing_ids in Hlen.
      rewrite !length_fmap, <- Hids, length_fmap in Hlen. lia.
    - destruct Hfiles as [_ ->]. unfold existing_ids. by rewrite Hids. }
  destruct (show_ci_files_rerun _ _ _ _ Hdel) as (rows2 & f & wl & Hids2 & Hf & Hkey & Hsrvl & Hd).
  assert (file_id f = new_id) as Hid.
  { injection Hkey as Hkey. unfold delete_key in Hkey. by apply (inj _) in Hkey. }
  destruct (delete_clicked_worlds agent_id rows2 f wl)
    as [(e & w' & Hd' & _)|(a2 & w' & res & _ & Hd' & _ & Hag2 & _ & _ & Hfiles2)];
    rewrite Hd' in Hd; [discriminate|]. injection Hd as ->.
  rewrite Hid, Hsrvl, Hsrv, Hfiles1 in Hfiles2.
  assert (files (srv wu) = <[new_id := {| meta_filename := Some name;
                                          meta_bytes := Some (Z.of_nat (length data)) |}]>
                             (files (srv w))) as Hwu by done.
  split.
  - unfold ci_file_ids at 1. rewrite Hag2, lookup_insert_eq.
    unfold agent_file_ids, ci_resources. cbn [tool_resources or_list default]. unfold id.
    rewrite remaining_filter, Hids2, Hsrv, Hafter, Hid. by apply filter_ne_snoc.
  - destruct res as [|e].
    + destruct Hfiles2 as [_ ->]. by rewrite Hwu, delete_insert_eq, delete_id.
    + exfalso. rewrite Hfiles2, Hwu, lookup_insert_eq in Hgone. discriminate.
Qed.

Lemma delete_undoes_an_append_witness :
  ci_file_ids
    (srv (show_ci_files (Some ("del_" +:+ "id4")) "A"
            (upload_and_persist "A" "report.pdf" [] "id4" sample_world).2).2) "A"
  = ci_file_ids (srv sample_world) "A"
  ∧ files
      (srv (show_ci_files (Some ("del_" +:+ "id4")) "A"
              (upload_and_persist "A" "report.pdf" [] "id4" sample_world).2).2)
    = files (srv sample_world).
Proof.
  apply (delete_undoes_an_append "A" "report.pdf" [] "id4" sample_world
           (upload_and_persist "A" "report.pdf" [] "id4" sample_world).2
           (upload_and_persist "A" "report.pdf" [] "id4" sample_world).2).
  - vm_compute. reflexivity.
  - vm_compute. intros H.
    repeat (apply elem_of_cons in H as [H|H]; [discriminate|]).
    by apply elem_of_nil in H.
  - vm_compute. reflexivity.
  - vm_compute. reflexivity.
  - reflexivity.
  - vm_compute. reflexivity.
  - vm_compute. reflexivity.
Defined.

(** ** The page *)

(** The script stops at the settings or goes on with them. *)
Lemma script_cases {A} (rest : string * string -> M A) w :
  (∃ key, script rest w = (Stop, set_ui (ui w ++ [UiError (missing_setting_msg key)]) w))
  ∨ (setting_value "ORCHESTRATOR_AGENT_ID" w ≠ ""
     ∧ script rest w
       = rest (rstrip (is_char slash) (setting_value "PROJECT_ENDPOINT" w),
               setting_value "ORCHESTRATOR_AGENT_ID" w) w).
Proof.
  destruct (decide (setting_value "PROJECT_ENDPOINT" w = "")) as [H1|H1].
  { left. exists "PROJECT_ENDPOINT". unfold script, load_settings.
    unfold mbind, M_bind, bind. by rewrite read_setting_required, bool_decide_eq_true_2. }
  destruct (decide (setting_value "ORCHESTRATOR_AGENT_ID" w = "")) as [H2|H2].
  { left. exists "ORCHESTRATOR_AGENT_ID". unfold script, load_settings.
    unfold mbind, M_bind, bind.
    rewrite read_setting_required, bool_decide_eq_false_2 by done.
    by rewrite read_setting_required, bool_decide_eq_true_2. }
  right. split; [done|]. by apply script_runs_rest.
Qed.

Lemma show_lines ls : ∀ w,
  foldr (fun l rest => st_write ("- " +:+ l);; rest) (mret tt) ls w
  = (Ret tt, set_ui (ui w ++ ((fun l => UiWrite ("- " +:+ l)) <$> ls)) w).
Proof.
  induction ls as [|l ls IH]; intros w.
  - cbn. rewrite app_nil_r. by destruct w.
  - cbn [foldr]. unfold mbind, M_bind, bind, st_write, emit. rewrite IH.
    unfold set_ui. wsimpl. by rewrite <- app_assoc.
Qed.

(** The log panel: one line for every entry of the log, in order. *)
Lemma show_logs_lines w :
  show_logs w = (Ret tt, set_ui (ui w ++ ((fun l => UiWrite ("- " +:+ l)) <$> logs (ses w))) w).
Proof.
  unfold show_logs, get_session. unfold mbind, M_bind, bind.
  destruct (logs (ses w)) as [|l ls] eqn:Hl; [|by rewrite show_lines].
  cbn. rewrite app_nil_r. by destruct w.
Qed.

(** X23. A run of the script that no click on New thread, Delete, Upload
    or Run has started only reads: it ends normally, or stops at a missing
    setting or at a list of agents that cannot be fetched; every call it
    issues is a fetch of the agent chosen or of the metadata of a file;
    the agents and files of the service and the session are as they
    were. *)
Theorem viewing_the_page_only_reads v w :
  pressed v = None ∨ pressed v = Some RefreshAgents →
  let r := (main v w).1 in
  let w' := (main v w).2 in
  (r = Ret tt ∨ r = Stop)
  ∧ Forall is_read (issued w w')
  ∧ srv w' = srv w ∧ ses w' = ses w.
Proof.
  intros Hview r w'. subst r w'. unfold main.
  match goal with |- context [script ?rest w] =>
    destruct (script_cases rest w) as [[key ->]|[Horch ->]] end.
  { cbn [fst snd]. split; [by right|]. split; [|done].
    unfold issued. wsimpl. by rewrite drop_all. }
  cbn [snd]. unfold mbind, M_bind, bind.
  assert (clicked_key (pressed v) = None) as ->
    by (by destruct Hview as [-> | ->]).
  rewrite (bool_decide_eq_false_2 (pressed v = Some NewThread))
    by (by destruct Hview as [-> | ->]).
  rewrite (bool_decide_eq_false_2 (pressed v = Some UploadPersist))
    by (by destruct Hview as [-> | ->]).
  rewrite (bool_decide_eq_false_2 (pressed v = Some RunOrchestrator))
    by (by destruct Hview as [-> | ->]).
  destruct (listed_agents v) as [e|data] eqn:Hlisted.
  { cbn [fst snd]. split; [by right|]. split; [|done].
    unfold issued. wsimpl. by rewrite drop_all. }
  destruct (choose_agent_listed (setting_value "ORCHESTRATOR_AGENT_ID" w) data
              (selected_option v) w) as (id & -> & _).
  { intros Hnil.
    pose proof (orchestrator_listed _ (agent_items data) Horch) as Hin.
    rewrite Hnil in Hin. by apply elem_of_nil in Hin. }
  unfold mret, M_ret, ret.
  destruct (show_ci_files_unclicked None (fstr id) w)
    as (w1 & calls & -> & Htr & Hreads & Hsrv & Hses & _); [done|].
  assert (∀ w0, (match uploaded_file v with
                 | Some (_, _) => fun w : world => (Ret tt, w)
                 | None => fun w : world => (Ret tt, w)
                 end) w0 = (Ret tt, w0)) as Hup
    by (intros w0; by destruct (uploaded_file v) as [[? ?]|]).
  rewrite Hup, show_logs_lines. cbn [fst snd]. wsimpl.
  split; [by left|]. split; [|done]. unfold issued. wsimpl.
  by rewrite Htr, drop_app_length.
Qed.

Lemma viewing_the_page_only_reads_witness :
  ((main {| pressed := Some RefreshAgents; listed_agents := inr sample_agents;
            selected_option := 0; created_thread := inl "unused";
            uploaded_file := Some ("new.csv", []); upload_id := "id4";
            asked := "question"; run_answers := sample_replies |}
      dotenv_world).1 = Ret tt
   ∨ (main {| pressed := Some RefreshAgents; listed_agents := inr sample_agents;
              selected_option := 0; created_thread := inl "unused";
              uploaded_file := Some ("new.csv", []); upload_id := "id4";
              asked := "question"; run_answers := sample_replies |}
        dotenv_world).1 = Stop)
  ∧ Forall is_read
      (issued dotenv_world
         (main {| pressed := Some RefreshAgents; listed_agents := inr sample_agents;
                  selected_option := 0; created_thread := inl "unused";
                  uploaded_file := Some ("new.csv", []); upload_id := "id4";
                  asked := "question"; run_answers := sample_replies |}
            dotenv_world).2)
  ∧ srv (main {| pressed := Some RefreshAgents; listed_agents := inr sample_agents;
                 selected_option := 0; created_thread := inl "unused";
                 uploaded_file := Some ("new.csv", []); upload_id := "id4";
                 asked := "question"; run_answers := sample_replies |}
           dotenv_world).2 = srv dotenv_world
  ∧ ses (main {| pressed := Some RefreshAgents; listed_agents := inr sample_agents;
                 selected_option := 0; created_thread := inl "unused";
                 uploaded_file := Some ("new.csv", []); upload_id := "id4";
                 asked := "question"; run_answers := sample_replies |}
           dotenv_world).2 = ses dotenv_world.
Proof.
  apply (viewing_the_page_only_reads
           {| pressed := Some RefreshAgents; listed_agents := inr sample_agents;
              selected_option := 0; created_thread := inl "unused";
              uploaded_file := Some ("new.csv", []); upload_id := "id4";
              asked := "question"; run_answers := sample_replies |} dotenv_world).
  by right.
Defined.

(** ** What each button changes *)

Section Keeps.

Context {X : Type} (part : world -> X).

Lemma keeps_ret {A} (a : A) : keeps (same part) (mret a).
Proof. by intros w. Qed.

Lemma keeps_bind {A B} (m : M A) (k : A -> M B) :
  keeps (same part) m → (∀ a, keeps (same part) (k a)) → keeps (same part) (m ≫= k).
Proof.
  intros Hm Hk w. specialize (Hm w). unfold mbind, M_bind, bind, same in *.
  destruct (m w) as [[a| | | |] w1]; cbn [snd] in *; try done.
  by rewrite (Hk a w1), Hm.
Qed.

Lemma keeps_if {A} (b : bool) (m1 m2 : M A) :
  (b = true → keeps (same part) m1) → (b = false → keeps (same part) m2) →
  keeps (same part) (if b then m1 else m2).
Proof. destruct b; auto. Qed.

(** A part that the page does not belong to. *)
Hypothesis off_page : ∀ u w, part (set_ui u w) = part w.

Lemma keeps_script {A} (rest : string * string -> M A) :
  (∀ s, keeps (same part) (rest s)) → keeps (same part) (script rest).
Proof.
  intros Hrest w. destruct (script_cases rest w) as [[key ->]|[_ ->]]; [apply off_page|].
  apply Hrest.
Qed.

Lemma keeps_choose_agent ORCHESTRATOR_AGENT_ID listed selected :
  keeps (same part) (choose_agent ORCHESTRATOR_AGENT_ID listed selected).
Proof.
  intros w. unfold choose_agent, try_except, fetch_agents_list_rest, getitem.
  unfold mbind, M_bind, bind. destruct listed as [e|data]; [apply off_page|].
  destruct (with_orchestrator _ _) as [|i0 items]; [apply off_page|].
  unfold mret, M_ret, ret. by destruct (dict _ !! _).
Qed.

Lemma keeps_show_logs : keeps (same part) show_logs.
Proof. intros w. rewrite show_logs_lines. apply off_page. Qed.

End Keeps.

Lemma keeps_new_thread_file created :
  keeps (same (fun w => ses_file_id (ses w))) (new_thread created)
  ∧ keeps (same srv) (new_thread created).
Proof. split; intros w; by destruct created. Qed.

Lemma keeps_show_ci_files_session clicked agent_id :
  keeps (same ses) (show_ci_files clicked agent_id).
Proof.
  intros w. unfold same, show_ci_files, try_except. unfold mbind, M_bind, bind.
  destruct (list_agent_ci_files_cases agent_id w)
    as [[e ->]|[(a & _ & _ & ->)|(a & rows & calls & Ha & -> & Hids & Hf)]]; [done..|].
  destruct rows as [|f0 rows0]; [done|].
  match goal with |- context [show_rows _ _ ?rows _ ?w1] =>
    destruct (show_rows_ends clicked agent_id rows rows w1) as (r & w' & -> & Hses & Hr) end.
  by destruct Hr as [[-> _]|[(e & -> & _)|(-> & _)]].
Qed.

Lemma keeps_show_ci_files_service agent_id : keeps (same srv) (show_ci_files None agent_id).
Proof.
  intros w. by destruct (show_ci_files_unclicked None agent_id w)
    as (w' & calls & -> & _ & _ & Hsrv & _).
Qed.

Lemma keeps_upload_thread agent_id name data new_id :
  keeps (same (fun w => thread_id (ses w))) (upload_and_persist agent_id name data new_id).
Proof.
  intros w. unfold same.
  destruct (upload_and_persist_cases agent_id name data new_id w) as [[e ->]| ->]; [done|].
  destruct (persist_in_ci_worlds agent_id name new_id (uploaded new_id name data w))
    as [(e & w' & calls & -> & _ & Hses & _)
       |(a & rows & calls & w' & post & _ & _ & _ & _ & -> & Ht & _)]; cbn [snd].
  - by rewrite Hses.
  - by rewrite Ht.
Qed.

Lemma keeps_run_button orchestrator question rp :
  keeps (same (fun w => ses_file_id (ses w))) (run_button orchestrator question rp)
  ∧ keeps (same srv) (run_button orchestrator question rp).
Proof.
  assert (∀ w, ses_file_id (ses (run_button orchestrator question rp w).2)
               = ses_file_id (ses w)
               ∧ srv (run_button orchestrator question rp w).2 = srv w) as H.
  { intros w. rewrite run_button_from_the_message.
    destruct (thread_id (ses w)) as [t|]; [|destruct (on_thread_create rp) as [e|t]];
      [|done|];
      match goal with |- context [from_the_message _ _ _ _ _ ?w0] =>
        destruct (from_the_message_cases t orchestrator (prompt_of question)
                    (attached (ses w)) rp w0)
          as (r & w' & calls & events & -> & Hses & Hsrv & _) end;
      cbn [snd]; rewrite Hses, Hsrv; wsimpl.
    - by destruct (noted_ids (ses w)) as [_ ->].
    - by destruct (noted_ids (thread_started t (ses w))) as [_ ->]. }
  split; intros w; apply H.
Qed.

(** X24. Each button changes its own part of the state, in every run of
    the script and however the run ends. The file id of the session
    changes only in a run started by Upload; the thread of the session only
    in a run started by New thread or by Run; the agents and files of the
    service only in a run started by a Delete button or by Upload. *)
Theorem buttons_change_their_own_state v w :
  let w' := (main v w).2 in
  (pressed v ≠ Some UploadPersist → ses_file_id (ses w') = ses_file_id (ses w))
  ∧ (pressed v ≠ Some NewThread → pressed v ≠ Some RunOrchestrator →
     thread_id (ses w') = thread_id (ses w))
  ∧ ((∀ key, pressed v ≠ Some (DeleteFile key)) → pressed v ≠ Some UploadPersist →
     srv w' = srv w).
Proof.
  intros w'. subst w'. split; [|split].
  - intros Hup. revert w.
    change (keeps (same (fun w => ses_file_id (ses w))) (main v)).
    apply keeps_script; [done|]. intros settings.
    apply keeps_bind; [by apply keeps_choose_agent|]. intros chosen_agent_id.
    apply keeps_bind.
    { apply keeps_if; intros _; [apply keeps_new_thread_file|apply keeps_ret]. }
    intros _. apply keeps_bind.
    { intros w. unfold same. by rewrite (keeps_show_ci_files_session _ _ w). }
    intros _. apply keeps_bind.
    { rewrite (bool_decide_eq_false_2 (pressed v = Some UploadPersist)) by done.
      destruct (uploaded_file v) as [[name data]|]; apply keeps_ret. }
    intros _. apply keeps_bind; [|intros _; by apply keeps_show_logs].
    apply keeps_if; intros _; [apply keeps_run_button|apply keeps_ret].
  - intros Hnew Hrun. revert w.
    change (keeps (same (fun w => thread_id (ses w))) (main v)).
    apply keeps_script; [done|]. intros settings.
    apply keeps_bind; [by apply keeps_choose_agent|]. intros chosen_agent_id.
    apply keeps_bind.
    { rewrite (bool_decide_eq_false_2 (pressed v = Some NewThread)) by done.
      apply keeps_ret. }
    intros _. apply keeps_bind.
    { intros w. unfold same. by rewrite (keeps_show_ci_files_session _ _ w). }
    intros _. apply keeps_bind.
    { destruct (uploaded_file v) as [[name data]|]; [|apply keeps_ret].
      apply keeps_if; intros _; [apply keeps_upload_thread|apply keeps_ret]. }
    intros _. apply keeps_bind; [|intros _; by apply keeps_show_logs].
    rewrite (bool_decide_eq_false_2 (pressed v = Some RunOrchestrator)) by done.
    apply keeps_ret.
  - intros Hdel Hup. revert w. change (keeps (same srv) (main v)).
    apply keeps_script; [done|]. intros settings.
    apply keeps_bind; [by apply keeps_choose_agent|]. intros chosen_agent_id.
    apply keeps_bind.
    { apply keeps_if; intros _; [apply keeps_new_thread_file|apply keeps_ret]. }
    intros _. apply keeps_bind.
    { assert (clicked_key (pressed v) = None) as ->.
      { destruct (pressed v) as [[]|]; try done. by destruct (Hdel key). }
      apply keeps_show_ci_files_service. }
    intros _. apply keeps_bind.
    { rewrite (bool_decide_eq_false_2 (pressed v = Some UploadPersist)) by done.
      destruct (uploaded_file v) as [[name data]|]; apply keeps_ret. }
    intros _. apply keeps_bind; [|intros _; by apply keeps_show_logs].
    apply keeps_if; intros _; [apply keeps_run_button|apply keeps_ret].
Qed.
